(** * N.E.K.O: Live2D interaction handlers (static/live2d-interaction.js)

    A shallow embedding of the drag, wheel-zoom, pinch-zoom, proximity and
    save-after-interaction code of [Live2DManager], and the properties of
    the interaction design that it satisfies.

    JavaScript numbers are IEEE 754 binary64 values.  They are modelled by
    the executable specification of binary64 arithmetic of the standard
    library ([SpecFloat], precision 53, maximal exponent 1024): every
    operation below rounds as the JavaScript operation does, and NaN and
    the infinities are ordinary values. *)

From Stdlib Require Import ZArith Bool List Lia String.
From Stdlib Require Import SpecFloat.
Import ListNotations.
Open Scope Z_scope.

(** ** JavaScript numbers *)

Module JS.

Definition prec : Z := 53.
Definition emax : Z := 1024.

Definition number := spec_float.

Definition NaN : number := S754_nan.
Definition Infinity : number := S754_infinity false.
Definition NegInfinity : number := S754_infinity true.
Definition zero : number := S754_zero false.
Definition negzero : number := S754_zero true.

(** An integer literal (exact below 2^53 in absolute value). *)
Definition of_Z (z : Z) : number := binary_normalize prec emax z 0 false.

Definition add : number -> number -> number := SFadd prec emax.
Definition sub : number -> number -> number := SFsub prec emax.
Definition mul : number -> number -> number := SFmul prec emax.
Definition div : number -> number -> number := SFdiv prec emax.

(** The relational operators; each is false when an operand is NaN. *)
Definition lt (a b : number) : bool := SFltb a b.
Definition gt (a b : number) : bool := SFltb b a.
Definition le (a b : number) : bool := SFleb a b.
Definition ge (a b : number) : bool := SFleb b a.

(** The literals of the source: [x = m * 2^e] is the binary64 value
    nearest to the decimal literal. *)
Definition lit_0_1 : number := S754_finite false 7205759403792794 (-56).
Definition lit_0_5 : number := S754_finite false 4503599627370496 (-53).
Definition lit_1_1 : number := S754_finite false 4953959590107546 (-52).
Definition lit_2_0 : number := S754_finite false 4503599627370496 (-51).

(** [Number.isFinite] on a number. *)
Definition isFinite (a : number) : bool :=
  match a with
  | S754_zero _ | S754_finite _ _ _ => true
  | S754_infinity _ | S754_nan => false
  end.

Definition isNaN (a : number) : bool :=
  match a with S754_nan => true | _ => false end.

(** [Math.sqrt]. *)
Definition sqrt : number -> number := SFsqrt prec emax.

(** [Math.max]: NaN if any argument is NaN; otherwise the largest
    argument, where +0 is larger than -0.  The scan starts at -Infinity. *)
Definition max_step (highest a : number) : number :=
  match a, highest with
  | S754_zero false, S754_zero true => a
  | _, _ => if gt a highest then a else highest
  end.

Definition Math_max (args : list number) : number :=
  if existsb isNaN args then NaN else fold_left max_step args NegInfinity.

(** [Math.min]: dual, -0 is smaller than +0 and the scan starts at
    +Infinity. *)
Definition min_step (lowest a : number) : number :=
  match a, lowest with
  | S754_zero true, S754_zero false => a
  | _, _ => if lt a lowest then a else lowest
  end.

Definition Math_min (args : list number) : number :=
  if existsb isNaN args then NaN else fold_left min_step args Infinity.

(** Every binary64 value has a canonical mantissa and an exponent in
    range; the operations above are specified on such values. *)
Definition wf (a : number) : bool := valid_binary prec emax a.

(** A property that may be missing ([undefined]) read as a number:
    [Number.isFinite undefined] is false and [undefined + n] is NaN. *)
Definition isFinite_opt (a : option number) : bool :=
  match a with Some n => isFinite n | None => false end.

Definition to_number (a : option number) : number :=
  match a with Some n => n | None => NaN end.

End JS.

Import JS.

(** ** Data model *)

(** [PIXI.Point] / [ObservablePoint]. *)
Record Point := mkPoint { x : number; y : number }.

(** The rectangle returned by [model.getBounds()]. *)
Record Rectangle := mkRectangle
  { left : number; right : number; top : number; bottom : number }.

(** The renderer's model object, as far as the handlers use it.
    [model.x] and [model.y] are the coordinates of [model.position]. *)
Record Model := mkModel
  { position : Point; scale : Point; anchor : Point }.

(** [model.x = v] and [model.y = v]. *)
Definition set_x (v : number) (m : Model) : Model :=
  mkModel (mkPoint v (y (position m))) (scale m) (anchor m).

Definition set_y (v : number) (m : Model) : Model :=
  mkModel (mkPoint (x (position m)) v) (scale m) (anchor m).

(** [model.scale.set(v)]: both axes. *)
Definition scale_set (v : number) (m : Model) : Model :=
  mkModel (position m) (mkPoint v v) (anchor m).

(** A display object of the multi-monitor host API.  A missing property
    is [None]. *)
Record Display := mkDisplay
  { id : nat;
    screenX : option number; screenY : option number;
    width : option number; height : option number;
    bounds : option (option number * option number) }.

(** The value a resolved [moveWindowToDisplay] carries. *)
Record MoveResult := mkMoveResult
  { success : bool; sameDisplay : bool; scaleRatio : option number }.

(** The [displayInfo] argument of [saveUserPreferences]. *)
Record DisplayInfo := mkDisplayInfo
  { info_screenX : number; info_screenY : number }.

Inductive Cursor := grab | grabbing.

(** A touch of a [TouchList]. *)
Record Touch := mkTouch { clientX : number; clientY : number }.

(** Model objects live in a store and are held by reference:
    [this.currentModel] and the [model] captured by the drag handlers
    may or may not be the same object. *)
Definition ref := nat.

(** ** Observable effects

    What the handlers do to their collaborators, in order.  The two
    [Call...] entries mark the entry of the function of that name. *)
Inductive Effect :=
| SetCursor (c : Cursor)
| EnableButtonEventPropagation
| DisableButtonEventPropagation
| PreventDefault
| Call_checkAndSwitchDisplay
| Call_savePositionAfterInteraction
| GetAllDisplays
| GetCurrentDisplay
| MoveWindowToDisplay (absX absY : number)
| SaveUserPreferences (path : string) (position scale : Point)
                      (displayInfo : option DisplayInfo)
| SetTimeout (timer : positive) (delay : Z)
| ClearTimeout (timer : positive).

(** The result of a call that may throw, or of awaiting a promise that
    may reject. *)
Inductive Outcome (A : Type) := Returned (a : A) | Thrown.
Arguments Returned {A} a.
Arguments Thrown {A}.

(** [window.electronScreen]: each method may be absent; a present method
    answers as a function of everything that happened before the call. *)
Record ElectronScreen := mkElectronScreen
  { getCurrentDisplay : option (list Effect -> Outcome (option Display));
    getAllDisplays : option (list Effect -> Outcome (option (list Display)));
    moveWindowToDisplay :
      option (list Effect -> number -> number -> Outcome (option MoveResult)) }.

(** The collaborators the handlers read: the host window and the
    renderer's computed properties of a model. *)
Record Host := mkHost
  { electronScreen : option ElectronScreen;
    innerWidth : number; innerHeight : number;
    getBounds : Model -> Outcome Rectangle;
    model_width : Model -> number;
    model_height : Model -> number }.

(** ** State *)

(** The fields of [Live2DManager] that the handlers use. *)
Record Manager := mkManager
  { isLocked : bool;
    isFocusing : bool;
    currentModel : option ref;
    _lastLoadedModelPath : option string;
    _savePositionDebounceTimer : option positive }.

(** The variables captured by the handlers of [setupDragAndDrop]. *)
Record DragState := mkDragState
  { isDragging : bool; dragStartPos : Point }.

(** The variables captured by the handlers of [setupTouchZoom]. *)
Record TouchZoomState := mkTouchZoomState
  { initialDistance : number; initialScale : number; isTouchZooming : bool }.

(** A pending timer.  The only callback armed by the code modelled here
    is the one of [_debouncedSavePosition]. *)
Record Timer := mkTimer { timer_id : positive; due : Z }.

Record State := mkState
  { this : Manager;
    drag : DragState;
    zoom : TouchZoomState;
    models : ref -> Model;
    timers : list Timer;
    nextTimer : positive;
    now : Z;
    trace : list Effect }.

Definition set_this (f : Manager -> Manager) (s : State) : State :=
  mkState (f (this s)) (drag s) (zoom s) (models s) (timers s)
          (nextTimer s) (now s) (trace s).

Definition set_drag (f : DragState -> DragState) (s : State) : State :=
  mkState (this s) (f (drag s)) (zoom s) (models s) (timers s)
          (nextTimer s) (now s) (trace s).

Definition set_zoom (f : TouchZoomState -> TouchZoomState) (s : State) : State :=
  mkState (this s) (drag s) (f (zoom s)) (models s) (timers s)
          (nextTimer s) (now s) (trace s).

Definition set_model (r : ref) (f : Model -> Model) (s : State) : State :=
  mkState (this s) (drag s) (zoom s)
          (fun r' => if Nat.eqb r' r then f (models s r') else models s r')
          (timers s) (nextTimer s) (now s) (trace s).

Definition set_timers (f : list Timer -> list Timer) (s : State) : State :=
  mkState (this s) (drag s) (zoom s) (models s) (f (timers s))
          (nextTimer s) (now s) (trace s).

Definition set_now (t : Z) (s : State) : State :=
  mkState (this s) (drag s) (zoom s) (models s) (timers s)
          (nextTimer s) t (trace s).

Definition set_isFocusing (b : bool) (m : Manager) : Manager :=
  mkManager (isLocked m) b (currentModel m) (_lastLoadedModelPath m)
            (_savePositionDebounceTimer m).

Definition set_savePositionDebounceTimer (t : option positive) (m : Manager)
  : Manager :=
  mkManager (isLocked m) (isFocusing m) (currentModel m)
            (_lastLoadedModelPath m) t.

Definition set_isDragging (b : bool) (d : DragState) : DragState :=
  mkDragState b (dragStartPos d).

Definition set_dragStartPos (p : Point) (d : DragState) : DragState :=
  mkDragState (isDragging d) p.

Definition set_isTouchZooming (b : bool) (z : TouchZoomState) : TouchZoomState :=
  mkTouchZoomState (initialDistance z) (initialScale z) b.

(** ** A state monad with exceptions for the handlers *)

Definition M (A : Type) := State -> Outcome A * State.

Definition ret {A} (a : A) : M A := fun s => (Returned a, s).

Definition bind {A B} (m : M A) (k : A -> M B) : M B :=
  fun s => match m s with
           | (Returned a, s') => k a s'
           | (Thrown, s') => (Thrown, s')
           end.

Definition throw {A} : M A := fun s => (Thrown, s).

(** [try { m } catch { h }]. *)
Definition try_catch {A} (m : M A) (h : M A) : M A :=
  fun s => match m s with
           | (Thrown, s') => h s'
           | r => r
           end.

Definition get {A} (f : State -> A) : M A := fun s => (Returned (f s), s).

Definition modify (f : State -> State) : M unit := fun s => (Returned tt, f s).

Definition emit (e : Effect) : M unit :=
  fun s => (Returned tt,
            mkState (this s) (drag s) (zoom s) (models s) (timers s)
                    (nextTimer s) (now s) (trace s ++ [e])).

(** A value that is an [Outcome]: return it or throw. *)
Definition lift {A} (o : Outcome A) : M A := fun s => (o, s).

Declare Scope js_scope.
Delimit Scope js_scope with js.
Notation "v <- m ;; k" := (bind m (fun v => k))
  (at level 61, m at next level, right associativity) : js_scope.
Notation "m ;; k" := (bind m (fun _ => k))
  (at level 61, right associativity) : js_scope.
Open Scope js_scope.

(** Calling a host method and awaiting its answer; calling a method that
    does not exist throws a [TypeError]. *)
Definition call_method {A} (e : Effect)
  (f : option (list Effect -> Outcome A)) : M A :=
  match f with
  | Some g => emit e ;; h <- get trace ;; lift (g h)
  | None => throw
  end.

(** ** The handlers

    An [async] function is modelled as run to completion: an [await] is a
    call that returns the promise's value or throws its rejection.
    Console logging is left out; [document.getElementById] is taken to
    find the canvas. *)

Section Handlers.

Variable host : Host.

(** *** [_savePositionAfterInteraction] *)

(** A path is usable when it is neither [null] nor the empty string. *)
Definition truthy_path (p : option string) : option string :=
  match p with
  | Some EmptyString => None
  | other => other
  end.

(** The display origin taken from the answer of [getCurrentDisplay]:
    [screenX]/[screenY] when both are finite, else the origin of
    [bounds] when both of its coordinates are finite, else nothing. *)
Definition displayInfo_of (currentDisplay : Display) : option DisplayInfo :=
  let sX := screenX currentDisplay in
  let sY := screenY currentDisplay in
  let '(sX, sY) :=
    if negb (isFinite_opt sX) || negb (isFinite_opt sY) then
      match bounds currentDisplay with
      | Some (bx, by_) =>
          if isFinite_opt bx && isFinite_opt by_ then (bx, by_) else (sX, sY)
      | None => (sX, sY)
      end
    else (sX, sY) in
  match sX, sY with
  | Some a, Some b =>
      if isFinite a && isFinite b then Some (mkDisplayInfo a b) else None
  | _, _ => None
  end.

(** [saveUserPreferences] is the asynchronous storage collaborator: the
    call returns a promise, and what the promise becomes is only logged
    by the [then] and [catch] handlers.  The call is the effect
    [SaveUserPreferences]. *)
Definition _savePositionAfterInteraction : M unit :=
  emit Call_savePositionAfterInteraction ;;
  cm <- get (fun s => currentModel (this s)) ;;
  path <- get (fun s => truthy_path (_lastLoadedModelPath (this s))) ;;
  match cm, path with
  | Some r, Some path =>
      m <- get (fun s => models s r) ;;
      let position := mkPoint (x (position m)) (y (position m)) in
      let scale := mkPoint (x (scale m)) (y (scale m)) in
      if negb (isFinite (x position)) || negb (isFinite (y position)) ||
         negb (isFinite (x scale)) || negb (isFinite (y scale))
      then ret tt
      else
        displayInfo <-
          match electronScreen host with
          | Some es =>
              match getCurrentDisplay es with
              | Some _ =>
                  try_catch
                    (currentDisplay <-
                       call_method GetCurrentDisplay (getCurrentDisplay es) ;;
                     match currentDisplay with
                     | Some d => ret (displayInfo_of d)
                     | None => ret None
                     end)
                    (ret None)
              | None => ret None
              end
          | None => ret None
          end ;;
        emit (SaveUserPreferences path position scale displayInfo)
  | _, _ => ret tt
  end.

(** *** [_debouncedSavePosition] *)

Definition clearTimeout (t : positive) : M unit :=
  emit (ClearTimeout t) ;;
  modify (set_timers (filter (fun tm => negb (Pos.eqb (timer_id tm) t)))).

Definition setTimeout (delay : Z) : M positive :=
  t <- get nextTimer ;;
  emit (SetTimeout t delay) ;;
  modify (fun s => mkState (this s) (drag s) (zoom s) (models s)
                     (timers s ++ [mkTimer t (now s + delay)])
                     (Pos.succ t) (now s) (trace s)) ;;
  ret t.

Definition _debouncedSavePosition : M unit :=
  old <- get (fun s => _savePositionDebounceTimer (this s)) ;;
  match old with
  | Some t => clearTimeout t
  | None => ret tt
  end ;;
  t <- setTimeout 500 ;;
  modify (set_this (set_savePositionDebounceTimer (Some t))).

(** The callback armed by [_debouncedSavePosition]: a rejection of the
    save is caught. *)
Definition savePositionTimerCallback : M unit :=
  try_catch _savePositionAfterInteraction (ret tt).

(** *** [_checkAndSwitchDisplay] *)

(** The first display whose rectangle contains the point. *)
Definition contains_point (absX absY : number) (display : Display) : bool :=
  ge absX (to_number (screenX display)) &&
  lt absX (add (to_number (screenX display)) (to_number (width display))) &&
  ge absY (to_number (screenY display)) &&
  lt absY (add (to_number (screenY display)) (to_number (height display))).

Definition find_targetDisplay (absX absY : number) (displays : list Display)
  : option Display :=
  find (contains_point absX absY) displays.

Definition _checkAndSwitchDisplay (model : ref) : M bool :=
  emit Call_checkAndSwitchDisplay ;;
  match electronScreen host with
  | None => ret false
  | Some es =>
    match moveWindowToDisplay es with
    | None => ret false
    | Some _ =>
      try_catch
        (m <- get (fun s => models s model) ;;
         bounds <- lift (getBounds host m) ;;
         let modelCenterX := div (add (left bounds) (right bounds)) lit_2_0 in
         let modelCenterY := div (add (top bounds) (bottom bounds)) lit_2_0 in
         displays <- call_method GetAllDisplays (getAllDisplays es) ;;
         match displays with
         | None => ret false
         | Some displays =>
           if (List.length displays <=? 1)%nat then ret false
           else
             let windowWidth := innerWidth host in
             let windowHeight := innerHeight host in
             if ge modelCenterX zero && lt modelCenterX windowWidth &&
                ge modelCenterY zero && lt modelCenterY windowHeight
             then ret false
             else
               currentDisplay <-
                 call_method GetCurrentDisplay (getCurrentDisplay es) ;;
               match currentDisplay with
               | None => ret false
               | Some currentDisplay =>
                 let windowScreenX := to_number (screenX currentDisplay) in
                 let windowScreenY := to_number (screenY currentDisplay) in
                 let modelScreenX := add windowScreenX modelCenterX in
                 let modelScreenY := add windowScreenY modelCenterY in
                 match find_targetDisplay modelScreenX modelScreenY displays with
                 | None => ret false
                 | Some targetDisplay =>
                   result <-
                     call_method
                       (MoveWindowToDisplay modelScreenX modelScreenY)
                       (option_map (fun f h => f h modelScreenX modelScreenY)
                                   (moveWindowToDisplay es)) ;;
                   match result with
                   | Some result =>
                     if success result && negb (sameDisplay result) then
                       let newModelX :=
                         sub modelScreenX (to_number (screenX targetDisplay)) in
                       let newModelY :=
                         sub modelScreenY (to_number (screenY targetDisplay)) in
                       modify (set_model model (fun m =>
                         set_x (add newModelX
                                  (mul (mul (sub (x (anchor m)) lit_0_5)
                                            (model_width host m))
                                       (x (scale m)))) m)) ;;
                       modify (set_model model (fun m =>
                         set_y (add newModelY
                                  (mul (mul (sub (y (anchor m)) lit_0_5)
                                            (model_height host m))
                                       (y (scale m)))) m)) ;;
                       _savePositionAfterInteraction ;;
                       ret true
                     else ret false
                   | None => ret false
                   end
                 end
               end
         end)
        (ret false)
    end
  end.

(** *** [setupDragAndDrop] *)

Section DragAndDrop.

(** The model the handlers were set up for. *)
Variable model : ref.

(** The number of touches of an event that may have no [touches]. *)
Definition multi_touch (touches : option (list Touch)) : bool :=
  match touches with
  | Some ts => (1 <? List.length ts)%nat
  | None => false
  end.

(** The [pointerdown] listener of the model: [touches] are those of
    [event.data.originalEvent], [global] is [event.data.global]. *)
Definition onPointerDown (touches : option (list Touch)) (global : Point)
  : M unit :=
  locked <- get (fun s => isLocked (this s)) ;;
  if locked then ret tt
  else if multi_touch touches then ret tt
  else
    modify (set_drag (set_isDragging true)) ;;
    modify (set_this (set_isFocusing false)) ;;
    m <- get (fun s => models s model) ;;
    modify (set_drag (set_dragStartPos
              (mkPoint (sub (x global) (x (position m)))
                       (sub (y global) (y (position m)))))) ;;
    emit (SetCursor grabbing) ;;
    emit EnableButtonEventPropagation.

Definition onDragEnd : M unit :=
  dragging <- get (fun s => isDragging (drag s)) ;;
  if dragging then
    modify (set_drag (set_isDragging false)) ;;
    emit (SetCursor grab) ;;
    emit DisableButtonEventPropagation ;;
    displaySwitched <- _checkAndSwitchDisplay model ;;
    if negb displaySwitched then _savePositionAfterInteraction
    else ret tt
  else ret tt.

(** The [pointermove] listener: [touches] is [event.touches]. *)
Definition onDragMove (touches : option (list Touch)) (cX cY : number)
  : M unit :=
  dragging <- get (fun s => isDragging (drag s)) ;;
  if dragging then
    if multi_touch touches then
      modify (set_drag (set_isDragging false)) ;;
      emit (SetCursor grab)
    else
      start <- get (fun s => dragStartPos (drag s)) ;;
      modify (set_model model (set_x (sub cX (x start)))) ;;
      modify (set_model model (set_y (sub cY (y start))))
  else ret tt.

End DragAndDrop.

(** *** [setupWheelZoom] *)

(** The scale a wheel event writes. *)
Definition wheelScale (deltaY oldScale : number) : number :=
  let scaleFactor := lit_1_1 in
  if lt deltaY zero then mul oldScale scaleFactor
  else div oldScale scaleFactor.

Definition onWheelScroll (deltaY : number) : M unit :=
  locked <- get (fun s => isLocked (this s)) ;;
  cm <- get (fun s => currentModel (this s)) ;;
  match locked, cm with
  | false, Some r =>
      emit PreventDefault ;;
      oldScale <- get (fun s => x (scale (models s r))) ;;
      let newScale := wheelScale deltaY oldScale in
      modify (set_model r (scale_set newScale)) ;;
      _debouncedSavePosition
  | _, _ => ret tt
  end.

(** *** [setupTouchZoom] *)

Definition getTouchDistance (touch1 touch2 : Touch) : number :=
  let dx := sub (clientX touch2) (clientX touch1) in
  let dy := sub (clientY touch2) (clientY touch1) in
  sqrt (add (mul dx dx) (mul dy dy)).

Definition onTouchStart (touches : list Touch) : M unit :=
  locked <- get (fun s => isLocked (this s)) ;;
  cm <- get (fun s => currentModel (this s)) ;;
  match locked, cm with
  | false, Some r =>
      match touches with
      | [t0; t1] =>
          emit PreventDefault ;;
          oldScale <- get (fun s => x (scale (models s r))) ;;
          modify (set_zoom (fun _ =>
            mkTouchZoomState (getTouchDistance t0 t1) oldScale true))
      | _ => ret tt
      end
  | _, _ => ret tt
  end.

(** The scale a two-finger move writes. *)
Definition pinchScale (initialScale initialDistance currentDistance : number)
  : number :=
  let scaleChange := div currentDistance initialDistance in
  let newScale := mul initialScale scaleChange in
  Math_max [lit_0_1; Math_min [lit_2_0; newScale]].

Definition onTouchMove (touches : list Touch) : M unit :=
  locked <- get (fun s => isLocked (this s)) ;;
  cm <- get (fun s => currentModel (this s)) ;;
  zooming <- get (fun s => isTouchZooming (zoom s)) ;;
  match locked, cm, zooming with
  | false, Some r, true =>
      match touches with
      | [t0; t1] =>
          emit PreventDefault ;;
          let currentDistance := getTouchDistance t0 t1 in
          z <- get zoom ;;
          let newScale :=
            pinchScale (initialScale z) (initialDistance z) currentDistance in
          modify (set_model r (scale_set newScale))
      | _ => ret tt
      end
  | _, _, _ => ret tt
  end.

Definition onTouchEnd (touches : list Touch) : M unit :=
  if (List.length touches <? 2)%nat then
    zooming <- get (fun s => isTouchZooming (zoom s)) ;;
    (if zooming then _savePositionAfterInteraction else ret tt) ;;
    modify (set_zoom (set_isTouchZooming false))
  else ret tt.

(** *** [enableMouseTracking]: the proximity distance of [onPointerMove] *)

Definition proximityDistance (bounds : Rectangle) (pointer : Point) : number :=
  let dx := Math_max [sub (left bounds) (x pointer); zero;
                      sub (x pointer) (right bounds)] in
  let dy := Math_max [sub (top bounds) (y pointer); zero;
                      sub (y pointer) (bottom bounds)] in
  sqrt (add (mul dx dx) (mul dy dy)).

End Handlers.

(** ** Events and the event loop *)

Inductive Event :=
| pointerdown (touches : option (list Touch)) (global : Point)
| pointerup
| pointercancel
| pointermove (touches : option (list Touch)) (cX cY : number)
| wheel (deltaY : number)
| touchstart (touches : list Touch)
| touchmove (touches : list Touch)
| touchend (touches : list Touch).

Section EventLoop.

Variable host : Host.
Variable model : ref.

(** The listeners of [setupDragAndDrop], [setupWheelZoom] and
    [setupTouchZoom] registered for each event.  The proximity listener
    that [enableMouseTracking] adds for [pointermove] shows and hides
    controls and does not write the state modelled here; of it, only
    [proximityDistance] is modelled. *)
Definition handle (e : Event) : M unit :=
  match e with
  | pointerdown touches global => onPointerDown model touches global
  | pointerup | pointercancel => onDragEnd host model
  | pointermove touches cX cY => onDragMove model touches cX cY
  | wheel deltaY => onWheelScroll deltaY
  | touchstart touches => onTouchStart touches
  | touchmove touches => onTouchMove touches
  | touchend touches => onTouchEnd host touches
  end.

(** The state after a handler; an exception escaping a listener is
    reported by the host and the event loop goes on. *)
Definition exec (m : M unit) (s : State) : State := snd (m s).

(** Events in order, with no timer coming due in between. *)
Definition handle_all (es : list Event) (s : State) : State :=
  fold_left (fun s e => exec (handle e) s) es s.

(** Time: the clock moves to [t] and every pending timer that is due by
    then fires, oldest first ([timers] is kept in arming order, and every
    timer is armed with the same delay). *)
Definition is_due (t : Z) (tm : Timer) : bool := due tm <=? t.

Definition fire (tm : Timer) (s : State) : State :=
  exec (savePositionTimerCallback host) (set_now (Z.max (now s) (due tm)) s).

Definition advance (t : Z) (s : State) : State :=
  let due_now := filter (is_due t) (timers s) in
  let s := set_timers (filter (fun tm => negb (is_due t tm))) s in
  set_now (Z.max (now s) t) (fold_left (fun s tm => fire tm s) due_now s).

(** An event that arrives at time [t]. *)
Definition dispatch (te : Z * Event) (s : State) : State :=
  exec (handle (snd te)) (advance (fst te) s).

Definition run (tes : list (Z * Event)) (s : State) : State :=
  fold_left (fun s te => dispatch te s) tes s.

End EventLoop.

(** ** Vocabulary of the properties *)

(** *** Effects *)

(** The effects a computation adds to the trace. *)
Definition added (s s' : State) : list Effect :=
  skipn (List.length (trace s)) (trace s').

(** The state [s] after the effects [l], and nothing else. *)
Definition log (l : list Effect) (s : State) : State :=
  mkState (this s) (drag s) (zoom s) (models s) (timers s)
          (nextTimer s) (now s) (trace s ++ l).

Definition is_save_call (e : Effect) : bool :=
  match e with Call_savePositionAfterInteraction => true | _ => false end.

Definition is_check_call (e : Effect) : bool :=
  match e with Call_checkAndSwitchDisplay => true | _ => false end.

Definition is_storage_call (e : Effect) : bool :=
  match e with SaveUserPreferences _ _ _ _ => true | _ => false end.

(** How many times [_savePositionAfterInteraction] was entered, how many
    times [_checkAndSwitchDisplay] was, and how many times the storage
    collaborator was called. *)
Definition save_calls (l : list Effect) : nat :=
  List.length (filter is_save_call l).

Definition check_calls (l : list Effect) : nat :=
  List.length (filter is_check_call l).

Definition storage_calls (l : list Effect) : nat :=
  List.length (filter is_storage_call l).

(** Effects among which there is no save, no relocation check and no
    call of the storage collaborator. *)
Definition quiet (l : list Effect) : Prop :=
  save_calls l = 0%nat /\ check_calls l = 0%nat /\ storage_calls l = 0%nat.

(** The position and scale each call of the storage collaborator
    carries. *)
Definition carried (l : list Effect) : list (Point * Point) :=
  flat_map (fun e => match e with
                     | SaveUserPreferences _ p sc _ => [(p, sc)]
                     | _ => []
                     end) l.

(** The four numbers [_savePositionAfterInteraction] validates. *)
Definition all_finite (m : Model) : bool :=
  isFinite (x (position m)) && isFinite (y (position m)) &&
  isFinite (x (scale m)) && isFinite (y (scale m)).

(** *** Drag gestures *)

(** A move processed with a single contact. *)
Definition single_contact_move (e : Event) : bool :=
  match e with
  | pointermove touches _ _ => negb (multi_touch touches)
  | _ => false
  end.

(** What the arrival of a second contact delivers before the next move:
    touch events with the new touch list, and a [pointerdown] that
    reports more than one touch. *)
Definition second_contact_event (e : Event) : bool :=
  match e with
  | touchstart _ | touchmove _ => true
  | pointerdown touches _ => multi_touch touches
  | _ => false
  end.

(** An event of a drag in progress, before anything ends it. *)
Definition gesture_event (e : Event) : bool :=
  single_contact_move e || second_contact_event e.

Definition drag_end_event (e : Event) : bool :=
  match e with pointerup | pointercancel => true | _ => false end.

(** The position a move sets: pointer position minus captured offset. *)
Definition dragged_to (start : Point) (e : Event) (p : Point) : Point :=
  match e with
  | pointermove _ cX cY => mkPoint (sub cX (x start)) (sub cY (y start))
  | _ => p
  end.

(** Where the last single-contact move among [body] puts a model that
    was at [p]. *)
Definition position_after (start : Point) (body : list Event) (p : Point)
  : Point :=
  match find single_contact_move (rev body) with
  | Some e => dragged_to start e p
  | None => p
  end.

(** *** Debounced save *)

(** At most one save timer is pending, and it is the one recorded in
    [_savePositionDebounceTimer]. *)
Definition single_slot (s : State) : Prop :=
  match timers s with
  | [] => True
  | [tm] => _savePositionDebounceTimer (this s) = Some (timer_id tm)
  | _ => False
  end.

(** Wheel events [(time, deltaY)] that follow an event at time [prev],
    each less than 500 ms after the one before. *)
Fixpoint burst (prev : Z) (l : list (Z * number)) : Prop :=
  match l with
  | [] => True
  | (t, _) :: l' => prev <= t < prev + 500 /\ burst t l'
  end.

Definition wheel_events (l : list (Z * number)) : list (Z * Event) :=
  map (fun td => (fst td, wheel (snd td))) l.

(** The scale the events of a burst produce, one after the other. *)
Definition burstScale (l : list (Z * number)) (v : number) : number :=
  fold_left (fun v td => wheelScale (snd td) v) l v.

Definition last_time (t0 : Z) (l : list (Z * number)) : Z :=
  fold_left (fun _ td => fst td) l t0.

(** The state right after a wheel event handled at time [t]: one pending
    timer, due 500 ms later. *)
Definition armed (r : ref) (t : Z) (s : State) : Prop :=
  isLocked (this s) = false /\ currentModel (this s) = Some r /\
  now s = t /\
  exists tm, timers s = [tm] /\ due tm = t + 500 /\
             _savePositionDebounceTimer (this s) = Some (timer_id tm).

(** *** Numbers *)

(** A finite binary64 value. *)
Definition finite_wf (a : number) : bool := wf a && isFinite a.

(** A positive normal binary64 value: from 2^-1022 to the largest finite
    value. *)
Definition normal_positive (a : number) : bool :=
  wf a &&
  match SFclassify prec a with FloatClass.PNormal => true | _ => false end.

(** A positive value, finite or infinite, whose exponent is in range. *)
Definition positive_number (a : number) : Prop :=
  match a with
  | S754_infinity false => True
  | S754_finite false _ e => -1074 <= e
  | _ => False
  end.

Definition negative_number (a : number) : Prop := positive_number (SFopp a).

Definition is_zero (a : number) : Prop :=
  match a with S754_zero _ => True | _ => False end.

Definition nonpositive_number (a : number) : Prop :=
  negative_number a \/ is_zero a.

(** The value of a finite number in units of 2^-1074. *)
Definition Zval (a : number) : Z :=
  match a with
  | S754_finite s m e => cond_Zopp s (Zpos m * 2 ^ (e + 1074))
  | _ => 0
  end.

(** The mantissa and exponent [shr_fexp] leaves: the mantissa is cut to
    53 bits, or to the bits above 2^-1074. *)
Definition shifted (m e : Z) : Z * Z :=
  let n := fexp prec emax (Zdigits2 m + e) - e in
  if 0 <? n then (m / 2 ^ n, e + n) else (m, e).

(** The last step of [binary_round_aux]: zero, a finite value or an
    overflow to infinity. *)
Definition finish (sx : bool) (m e : Z) : number :=
  match m with
  | Z0 => S754_zero sx
  | Zpos p => if e <=? emax - prec then S754_finite sx p e else S754_infinity sx
  | Zneg _ => S754_nan
  end.

(** [n] wheel events with the same [deltaY], on the scale alone. *)
Definition wheel_repeat (n : positive) (deltaY v : number) : number :=
  Pos.iter (wheelScale deltaY) v n.

(** *** Proximity: the distance to a box, in the words of the design *)

(** The coordinate of the box nearest to [p] on one axis. *)
Definition nearest_coordinate (lo hi p : number) : number :=
  if lt p lo then lo else if gt p hi then hi else p.

(** The point of the box nearest to the pointer: the pointer itself when
    it is inside, otherwise a point of an edge or a corner. *)
Definition nearestPoint (bounds : Rectangle) (pointer : Point) : Point :=
  mkPoint (nearest_coordinate (left bounds) (right bounds) (x pointer))
          (nearest_coordinate (top bounds) (bottom bounds) (y pointer)).

Definition euclideanDistance (p q : Point) : number :=
  let dx := sub (x p) (x q) in
  let dy := sub (y p) (y q) in
  sqrt (add (mul dx dx) (mul dy dy)).

(** Inside the box or on its boundary. *)
Definition inside (bounds : Rectangle) (pointer : Point) : bool :=
  le (left bounds) (x pointer) && le (x pointer) (right bounds) &&
  le (top bounds) (y pointer) && le (y pointer) (bottom bounds).

Definition on_boundary (bounds : Rectangle) (p : Point) : Prop :=
  x p = left bounds \/ x p = right bounds \/
  y p = top bounds \/ y p = bottom bounds.

(** A box: finite coordinates, left of right and top above bottom. *)
Definition well_formed_box (bounds : Rectangle) : bool :=
  finite_wf (left bounds) && finite_wf (right bounds) &&
  finite_wf (top bounds) && finite_wf (bottom bounds) &&
  le (left bounds) (right bounds) && le (top bounds) (bottom bounds).

(** *** Concrete inputs *)

(** A browser host: no multi-monitor API. *)
Definition browser_host : Host :=
  mkHost None (of_Z 800) (of_Z 600)
         (fun _ => Returned (mkRectangle (of_Z 0) (of_Z 100) (of_Z 0) (of_Z 100)))
         (fun _ => of_Z 100) (fun _ => of_Z 100).

(** A desktop host with two 800 x 600 displays side by side; the window is
    on the left one, the model's bounding box has drifted onto the right
    one, and the host moves the window when asked. *)
Definition left_display : Display :=
  mkDisplay 1 (Some (of_Z 0)) (Some (of_Z 0))
            (Some (of_Z 800)) (Some (of_Z 600)) None.

Definition right_display : Display :=
  mkDisplay 2 (Some (of_Z 800)) (Some (of_Z 0))
            (Some (of_Z 800)) (Some (of_Z 600)) None.

Definition desktop_host : Host :=
  mkHost
    (Some (mkElectronScreen
             (Some (fun _ => Returned (Some left_display)))
             (Some (fun _ => Returned (Some [left_display; right_display])))
             (Some (fun _ _ _ =>
                      Returned (Some (mkMoveResult true false None))))))
    (of_Z 800) (of_Z 600)
    (fun _ => Returned (mkRectangle (of_Z 850) (of_Z 950) (of_Z 100) (of_Z 300)))
    (fun _ => of_Z 100) (fun _ => of_Z 200).

Definition unit_model : Model :=
  mkModel (mkPoint (of_Z 10) (of_Z 20)) (mkPoint (of_Z 1) (of_Z 1))
          (mkPoint lit_0_5 lit_0_5).

(** One model is loaded from ["m.json"], nothing is in progress. *)
Definition idle_state : State :=
  mkState (mkManager false false (Some 0%nat) (Some "m.json"%string) None)
          (mkDragState false (mkPoint zero zero))
          (mkTouchZoomState zero (of_Z 1) false)
          (fun _ => unit_model) [] 1%positive 0 [].

(** The same with a scale and a position of one's choice. *)
Definition state_with (pos sc : Point) : State :=
  mkState (this idle_state) (drag idle_state) (zoom idle_state)
          (fun _ => mkModel pos sc (anchor unit_model))
          [] 1%positive 0 [].

(** The same in the middle of a drag. *)
Definition dragging_state : State :=
  set_drag (set_isDragging true) idle_state.

Definition touch_at (a b : Z) : Touch := mkTouch (of_Z a) (of_Z b).

Definition box100 : Rectangle :=
  mkRectangle (of_Z 0) (of_Z 100) (of_Z 0) (of_Z 100).

(** ** Vocabulary of the further properties *)

(** What a call of the storage collaborator may carry when the manager
    is [th]: the path of the loaded model, which is not empty, finite
    numbers for position and scale, and a display origin that is finite
    when there is one. *)
Definition storable (th : Manager) (e : Effect) : Prop :=
  match e with
  | SaveUserPreferences path p sc info =>
      currentModel th <> None /\
      _lastLoadedModelPath th = Some path /\ path <> EmptyString /\
      isFinite (x p) = true /\ isFinite (y p) = true /\
      isFinite (x sc) = true /\ isFinite (y sc) = true /\
      match info with
      | Some i => isFinite (info_screenX i) = true /\
                  isFinite (info_screenY i) = true
      | None => True
      end
  | _ => True
  end.

(** What the save routine does to its collaborators: it asks for the
    current display and calls the storage. *)
Definition save_effect (e : Effect) : Prop :=
  match e with
  | GetCurrentDisplay | SaveUserPreferences _ _ _ _ => True
  | _ => False
  end.

Definition is_move_call (e : Effect) : bool :=
  match e with MoveWindowToDisplay _ _ => true | _ => false end.

(** How many times the host was asked to move the window. *)
Definition move_calls (l : list Effect) : nat :=
  List.length (filter is_move_call l).

(** The centre of a bounding box. *)
Definition modelCenter (bounds : Rectangle) : Point :=
  mkPoint (div (add (left bounds) (right bounds)) lit_2_0)
          (div (add (top bounds) (bottom bounds)) lit_2_0).

(** A point of the window, in window coordinates. *)
Definition within_window (host : Host) (c : Point) : bool :=
  ge (x c) zero && lt (x c) (innerWidth host) &&
  ge (y c) zero && lt (y c) (innerHeight host).

(** The events that may move a model (a drag move, and the relocation at
    the end of a drag) and those that may scale it. *)
Definition moves_model (e : Event) : bool :=
  match e with
  | pointermove _ _ _ | pointerup | pointercancel => true
  | _ => false
  end.

Definition scales_model (e : Event) : bool :=
  match e with wheel _ | touchmove _ => true | _ => false end.

(** The events of the wheel and touch listeners of the canvas. *)
Definition zoom_event (e : Event) : bool :=
  match e with
  | wheel _ | touchstart _ | touchmove _ | touchend _ => true
  | _ => false
  end.

Definition is_touchmove (e : Event) : bool :=
  match e with touchmove _ => true | _ => false end.

(** The model after the moves of a pinch with the given baseline: every
    move with exactly two touches writes the clamped scale for their
    distance. *)
Definition pinched (initialScale initialDistance : number)
    (moves : list Event) (m : Model) : Model :=
  fold_left (fun m e =>
               match e with
               | touchmove [t0; t1] =>
                   scale_set (pinchScale initialScale initialDistance
                                (getTouchDistance t0 t1)) m
               | _ => m
               end) moves m.

(** A finite number other than zero. *)
Definition finite_nonzero (a : number) : bool :=
  match a with S754_finite _ _ _ => true | _ => false end.

(** ** The buttons of the page *)

(** An element of the document, as far as the drag handlers read and
    write it: its id and classes, its parent, the inline style
    [style.pointerEvents] (the empty string when the style does not set
    it) and the attribute [data-prev-pointer-events] ([None] when the
    element does not have it). *)
Record Element := mkElement
  { elem_id : string;
    classList : list string;
    parentElement : option nat;
    pointerEvents : string;
    data_prev_pointer_events : option string }.

(** The elements of the document in document order.  An element is
    referred to by its index. *)
Definition Document := list Element.

(** The selector ['.live2d-floating-btn, [id^="live2d-btn-"]']. *)
Definition is_button (e : Element) : bool :=
  existsb (String.eqb "live2d-floating-btn") (classList e) ||
  String.prefix "live2d-btn-" (elem_id e).

(** The selector ['[data-prev-pointer-events]']. *)
Definition has_prev (e : Element) : bool :=
  match data_prev_pointer_events e with Some _ => true | None => false end.

Definition querySelectorAll (selector : Element -> bool) (d : Document)
  : list nat :=
  filter (fun i => match nth_error d i with
                   | Some e => selector e
                   | None => false
                   end)
         (seq 0 (List.length d)).

(** The element [i] changed by [f]. *)
Fixpoint update (i : nat) (f : Element -> Element) (d : Document) : Document :=
  match d, i with
  | [], _ => []
  | e :: d', O => f e :: d'
  | e :: d', S i' => e :: update i' f d'
  end.

Definition forEach (l : list nat) (f : Element -> Element) (d : Document)
  : Document :=
  fold_left (fun d i => update i f d) l d.

(** [wrappers.add(p)] on a [Set] kept in insertion order. *)
Definition Set_add (p : nat) (set : list nat) : list nat :=
  if existsb (Nat.eqb p) set then set else set ++ [p].

Definition setAttribute_prev (v : string) (e : Element) : Element :=
  mkElement (elem_id e) (classList e) (parentElement e) (pointerEvents e)
            (Some v).

Definition removeAttribute_prev (e : Element) : Element :=
  mkElement (elem_id e) (classList e) (parentElement e) (pointerEvents e)
            None.

Section Buttons.

(** What the inline style keeps when a string is assigned to
    [style.pointerEvents]: the serialized value, or nothing when the
    string is not a value of the property and the assignment is
    ignored. *)
Variable css : string -> option string.

Definition set_pointerEvents (v : string) (e : Element) : Element :=
  match css v with
  | Some v' =>
      mkElement (elem_id e) (classList e) (parentElement e) v'
                (data_prev_pointer_events e)
  | None => e
  end.

(** What is done to a button and to a wrapper: the current value is
    kept in the attribute ([style.pointerEvents || ''] is the value
    itself, the empty string being the only falsy string) and the style
    is set to ['none']. *)
Definition save_and_disable (e : Element) : Element :=
  let currentValue := pointerEvents e in
  set_pointerEvents "none" (setAttribute_prev currentValue e).

Definition enableButtonEventPropagation (d : Document) : Document :=
  let buttons := querySelectorAll is_button d in
  let d := forEach buttons save_and_disable d in
  let wrappers :=
    fold_left (fun set i =>
                 match nth_error d i with
                 | Some btn =>
                     match parentElement btn with
                     | Some p => Set_add p set
                     | None => set
                     end
                 | None => set
                 end) buttons [] in
  forEach wrappers save_and_disable d.

(** What is done to an element that has the attribute: both branches of
    the test on the empty string assign the value of the attribute. *)
Definition restore (e : Element) : Element :=
  match data_prev_pointer_events e with
  | Some prevValue => removeAttribute_prev (set_pointerEvents prevValue e)
  | None => e
  end.

Definition disableButtonEventPropagation (d : Document) : Document :=
  let elementsToRestore := querySelectorAll has_prev d in
  forEach elementsToRestore restore d.

(** The document after the effects of a trace. *)
Definition document_after (l : list Effect) (d : Document) : Document :=
  fold_left (fun d e =>
               match e with
               | EnableButtonEventPropagation => enableButtonEventPropagation d
               | DisableButtonEventPropagation => disableButtonEventPropagation d
               | _ => d
               end) l d.

End Buttons.

(** The parent of a button. *)
Definition is_wrapper (d : Document) (i : nat) : bool :=
  existsb (fun b => is_button b &&
                    match parentElement b with
                    | Some p => Nat.eqb p i
                    | None => false
                    end) d.

(** An inline style accepts ['none']. *)
Definition css_accepts_none (css : string -> option string) : Prop :=
  css "none"%string = Some "none"%string.

(** The values of the inline styles are values the style accepts
    back. *)
Definition styles_valid (css : string -> option string) (d : Document) : Prop :=
  forall e, In e d -> css (pointerEvents e) = Some (pointerEvents e).

(** No element has the attribute. *)
Definition no_prev (d : Document) : Prop :=
  forall e, In e d -> data_prev_pointer_events e = None.

(** No button is the parent of a button. *)
Definition wrappers_are_not_buttons (d : Document) : Prop :=
  forall i e, nth_error d i = Some e -> is_button e = true ->
              is_wrapper d i = false.

Definition is_button_effect (e : Effect) : bool :=
  match e with
  | EnableButtonEventPropagation | DisableButtonEventPropagation => true
  | _ => false
  end.

(** The calls of [enableButtonEventPropagation] and of
    [disableButtonEventPropagation] among the effects, in order. *)
Definition button_effects (l : list Effect) : list Effect :=
  filter is_button_effect l.

(** An element that [enableButtonEventPropagation] touches. *)
Definition affected (d : Document) (i : nat) (e : Element) : bool :=
  is_button e || is_wrapper d i.

(** The parent of the element at [i] is [p]. *)
Definition parent_is (d : Document) (p i : nat) : bool :=
  match nth_error d i with
  | Some btn => match parentElement btn with
                | Some q => Nat.eqb q p
                | None => false
                end
  | None => false
  end.

(** One step of the collection of the wrappers. *)
Definition add_parent (d : Document) (set : list nat) (i : nat) : list nat :=
  match nth_error d i with
  | Some btn => match parentElement btn with
                | Some p => Set_add p set
                | None => set
                end
  | None => set
  end.

(** ** The controls near the model *)

(** The declaration of [display] in the inline style of an element: its
    value and whether it is marked [!important]. *)
Record DisplayStyle := mkDisplayStyle { display : string; important : bool }.

(** The elements [enableMouseTracking] looks up by their id, each of
    which may be missing from the document: the lock icon
    ([live2d-lock-icon]), the container of the floating buttons
    ([live2d-floating-buttons]) and the container of the return button
    ([live2d-return-button-container]). *)
Record Controls := mkControls
  { lockIcon : option DisplayStyle;
    floatingButtons : option DisplayStyle;
    returnButtonContainer : option DisplayStyle }.

(** A pending timer of [startHideTimer]: its delay, and whether the two
    elements its callback holds were found when it was armed. *)
Record HideTimer := mkHideTimer
  { hide_id : positive;
    hide_due : Z;
    hide_delay : Z;
    held_lockIcon : bool;
    held_floatingButtons : bool }.

(** The manager with the three further fields the tracking uses, the
    two properties of the model it reads, the controls, which are not
    added to or removed from the document meanwhile, and the timers.
    [focused] lists the calls of [model.focus]. *)
Record Tracking := mkTracking
  { manager : Manager;
    _goodbyeClicked : bool;
    _isMouseOverButtons : bool;
    _hideButtonsTimer : option positive;
    model_interactive : bool;
    model_dragging : bool;
    controls : Controls;
    hideTimers : list HideTimer;
    nextHideTimer : positive;
    clock : Z;
    focused : list Point }.

Definition with_manager (f : Manager -> Manager) (t : Tracking) : Tracking :=
  mkTracking (f (manager t)) (_goodbyeClicked t) (_isMouseOverButtons t)
             (_hideButtonsTimer t) (model_interactive t) (model_dragging t)
             (controls t) (hideTimers t) (nextHideTimer t) (clock t)
             (focused t).

Definition with_isMouseOverButtons (b : bool) (t : Tracking) : Tracking :=
  mkTracking (manager t) (_goodbyeClicked t) b
             (_hideButtonsTimer t) (model_interactive t) (model_dragging t)
             (controls t) (hideTimers t) (nextHideTimer t) (clock t)
             (focused t).

Definition with_hideButtonsTimer (o : option positive) (t : Tracking)
  : Tracking :=
  mkTracking (manager t) (_goodbyeClicked t) (_isMouseOverButtons t)
             o (model_interactive t) (model_dragging t)
             (controls t) (hideTimers t) (nextHideTimer t) (clock t)
             (focused t).

Definition with_controls (f : Controls -> Controls) (t : Tracking) : Tracking :=
  mkTracking (manager t) (_goodbyeClicked t) (_isMouseOverButtons t)
             (_hideButtonsTimer t) (model_interactive t) (model_dragging t)
             (f (controls t)) (hideTimers t) (nextHideTimer t) (clock t)
             (focused t).

Definition with_hideTimers (f : list HideTimer -> list HideTimer)
    (t : Tracking) : Tracking :=
  mkTracking (manager t) (_goodbyeClicked t) (_isMouseOverButtons t)
             (_hideButtonsTimer t) (model_interactive t) (model_dragging t)
             (controls t) (f (hideTimers t)) (nextHideTimer t) (clock t)
             (focused t).

Definition with_clock (c : Z) (t : Tracking) : Tracking :=
  mkTracking (manager t) (_goodbyeClicked t) (_isMouseOverButtons t)
             (_hideButtonsTimer t) (model_interactive t) (model_dragging t)
             (controls t) (hideTimers t) (nextHideTimer t) c
             (focused t).

(** [model.focus(x, y)]. *)
Definition focus (px py : number) (t : Tracking) : Tracking :=
  mkTracking (manager t) (_goodbyeClicked t) (_isMouseOverButtons t)
             (_hideButtonsTimer t) (model_interactive t) (model_dragging t)
             (controls t) (hideTimers t) (nextHideTimer t) (clock t)
             (focused t ++ [mkPoint px py]).

(** [element.style.display = v] and
    [element.style.setProperty('display', v, 'important')], each guarded
    by [if (element)]. *)
Definition set_display (v : string) (element : option DisplayStyle)
  : option DisplayStyle :=
  option_map (fun _ => mkDisplayStyle v false) element.

Definition set_display_important (v : string) (element : option DisplayStyle)
  : option DisplayStyle :=
  option_map (fun _ => mkDisplayStyle v true) element.

Definition on_lockIcon (f : option DisplayStyle -> option DisplayStyle)
    (c : Controls) : Controls :=
  mkControls (f (lockIcon c)) (floatingButtons c) (returnButtonContainer c).

Definition on_floatingButtons (f : option DisplayStyle -> option DisplayStyle)
    (c : Controls) : Controls :=
  mkControls (lockIcon c) (f (floatingButtons c)) (returnButtonContainer c).

Definition on_returnButtonContainer
    (f : option DisplayStyle -> option DisplayStyle) (c : Controls) : Controls :=
  mkControls (lockIcon c) (floatingButtons c) (f (returnButtonContainer c)).

Definition is_some {A} (o : option A) : bool :=
  match o with Some _ => true | None => false end.

(** [if (this._hideButtonsTimer) { clearTimeout(this._hideButtonsTimer);
    this._hideButtonsTimer = null; }] *)
Definition clearHideButtonsTimer (t : Tracking) : Tracking :=
  match _hideButtonsTimer t with
  | Some id =>
      with_hideButtonsTimer None
        (with_hideTimers (filter (fun tm => negb (Pos.eqb (hide_id tm) id))) t)
  | None => t
  end.

Definition showButtons (t : Tracking) : Tracking :=
  if _goodbyeClicked t then
    with_controls (on_lockIcon (set_display_important "none")) t
  else
    let t := with_manager (set_isFocusing true) t in
    let t := with_controls (on_lockIcon (set_display "block")) t in
    let t := if negb (isLocked (manager t))
             then with_controls (on_floatingButtons (set_display "flex")) t
             else t in
    clearHideButtonsTimer t.

Definition startHideTimer (delay : Z) (t : Tracking) : Tracking :=
  if _goodbyeClicked t then t
  else if is_some (_hideButtonsTimer t) then t
  else
    let id := nextHideTimer t in
    mkTracking (manager t) (_goodbyeClicked t) (_isMouseOverButtons t)
               (Some id) (model_interactive t) (model_dragging t)
               (controls t)
               (hideTimers t ++
                  [mkHideTimer id (clock t + delay) delay
                     (is_some (lockIcon (controls t)))
                     (is_some (floatingButtons (controls t)))])
               (Pos.succ id) (clock t) (focused t).

(** The callback of the timer [tm]. *)
Definition hideButtonsTimerCallback (tm : HideTimer) (t : Tracking) : Tracking :=
  if _isMouseOverButtons t then
    startHideTimer (hide_delay tm) (with_hideButtonsTimer None t)
  else
    let t := with_manager (set_isFocusing false) t in
    let t := if held_lockIcon tm
             then with_controls (on_lockIcon (set_display "none")) t
             else t in
    let t := if held_floatingButtons tm && negb (_goodbyeClicked t)
             then with_controls (on_floatingButtons (set_display "none")) t
             else t in
    with_hideButtonsTimer None t.

Section MouseTracking.

(** [options.threshold], 70 when the option is not given. *)
Variable threshold : number.

(** The [pointermove] listener of the window; [box] is what
    [model.getBounds()] answers. *)
Definition onPointerMove (box : Outcome Rectangle) (cX cY : number)
    (t : Tracking) : Tracking :=
  let pointer := mkPoint cX cY in
  if model_interactive t && model_dragging t then t
  else if _goodbyeClicked t then
    let t := with_controls (on_lockIcon (set_display_important "none")) t in
    let t := with_controls (on_floatingButtons (set_display "none")) t in
    with_controls (on_returnButtonContainer (set_display "block")) t
  else
    match box with
    | Returned bounds =>
        let distance := proximityDistance bounds pointer in
        if lt distance threshold then
          let t := showButtons t in
          if isFocusing (manager t) then focus (x pointer) (y pointer) t
          else t
        else
          let t := with_manager (set_isFocusing false) t in
          let t := with_controls (on_lockIcon (set_display "none")) t in
          startHideTimer 1000 t
    | Thrown => t
    end.

(** The listeners of the floating buttons and of the lock icon. *)
Definition onMouseEnter (t : Tracking) : Tracking :=
  clearHideButtonsTimer (with_isMouseOverButtons true t).

Definition onMouseLeave (t : Tracking) : Tracking :=
  startHideTimer 1000 (with_isMouseOverButtons false t).

Inductive TrackingEvent :=
| model_pointerover
| model_pointerout
| window_pointermove (box : Outcome Rectangle) (cX cY : number)
| buttons_mouseenter
| buttons_mouseleave.

Definition track (e : TrackingEvent) : Tracking -> Tracking :=
  match e with
  | model_pointerover => showButtons
  | model_pointerout => startHideTimer 1000
  | window_pointermove box cX cY => onPointerMove box cX cY
  | buttons_mouseenter => onMouseEnter
  | buttons_mouseleave => onMouseLeave
  end.

(** What happens next: an event is delivered at time [t], or the host
    runs, at time [t], the callback of the oldest pending timer that is
    due.  A timer never fires early; it may fire late. *)
Inductive Action :=
| Deliver (t : Z) (e : TrackingEvent)
| Fire (t : Z).

Definition tick (t : Z) (s : Tracking) : Tracking :=
  with_clock (Z.max (clock s) t) s.

Definition act (a : Action) (s : Tracking) : Tracking :=
  match a with
  | Deliver t e => track e (tick t s)
  | Fire t =>
      let s := tick t s in
      match find (fun tm => hide_due tm <=? clock s) (hideTimers s) with
      | Some tm =>
          hideButtonsTimerCallback tm
            (with_hideTimers
               (filter (fun tm' => negb (Pos.eqb (hide_id tm') (hide_id tm)))) s)
      | None => s
      end
  end.

Definition acts (l : list Action) (s : Tracking) : Tracking :=
  fold_left (fun s a => act a s) l s.

End MouseTracking.

(** The threshold of a call of [enableMouseTracking]. *)
Definition threshold_of (options : option number) : number :=
  match options with Some t => t | None => of_Z 70 end.

(** The field [_hideButtonsTimer] is set exactly while a timer is
    pending, and at most one is. *)
Definition hide_slot (s : Tracking) : Prop :=
  match hideTimers s with
  | [] => _hideButtonsTimer s = None
  | [tm] => _hideButtonsTimer s = Some (hide_id tm)
  | _ => False
  end.

Definition displayed (v : string) (element : option DisplayStyle) : Prop :=
  match element with Some st => display st = v | None => True end.

Definition is_mouseleave (a : Action) : bool :=
  match a with Deliver _ buttons_mouseleave => true | _ => false end.

(** The pointer position of a move that is nearer to the bounding box
    than the threshold. *)
Definition nearby (threshold : number) (a : Action) : list Point :=
  match a with
  | Deliver _ (window_pointermove (Returned bounds) cX cY) =>
      if lt (proximityDistance bounds (mkPoint cX cY)) threshold
      then [mkPoint cX cY] else []
  | _ => []
  end.

(** The pointer leaves the model, or the buttons. *)
Definition leaving (e : TrackingEvent) : bool :=
  match e with
  | model_pointerout | buttons_mouseleave => true
  | _ => false
  end.

(** A pending timer and nothing else of the state that matters for it. *)
Definition pending (due_ : Z) (c : Controls) (s : Tracking) : Prop :=
  _goodbyeClicked s = false /\ controls s = c /\
  exists tm, hideTimers s = [tm] /\ _hideButtonsTimer s = Some (hide_id tm) /\
             hide_due tm = due_ /\
             held_lockIcon tm = is_some (lockIcon c) /\
             held_floatingButtons tm = is_some (floatingButtons c).

(** Events delivered at their times. *)
Definition deliveries (l : list (Z * TrackingEvent)) : list Action :=
  map (fun te => Deliver (fst te) (snd te)) l.

(** ** The listeners the setup functions register *)

(** What a listener is registered on: the window, the canvas
    ([this.pixi_app.view]) or a model. *)
Inductive EventTarget := Window | View | OnModel (model : ref).

(** The kinds of the events listened to. *)
Inductive EventType :=
| Pointerdown | Pointerup | Pointercancel | Pointermove
| Pointerover | Pointerout | Wheel | Touchstart | Touchmove | Touchend.

(** A registered listener.  Every evaluation of a function expression
    makes a new function object; [callback] is its identity. *)
Record Registration := mkRegistration
  { target : EventTarget; event_type : EventType; callback : nat }.

(** The registrations, in the order they were made, the fields of the
    manager and of the canvas in which the setup functions remember what
    they registered, the [interactive] property of the models, and the
    number of function objects made so far. *)
Record Page := mkPage
  { registrations : list Registration;
    _dragEndListener : option nat;
    _dragMoveListener : option nat;
    _mouseTrackingListener : option nat;
    lastWheelListener : option nat;
    lastTouchStartListener : option nat;
    lastTouchMoveListener : option nat;
    lastTouchEndListener : option nat;
    interactive : ref -> bool;
    functions : nat }.

Definition EventTarget_eqb (a b : EventTarget) : bool :=
  match a, b with
  | Window, Window | View, View => true
  | OnModel r, OnModel r' => Nat.eqb r r'
  | _, _ => false
  end.

Definition EventType_eqb (a b : EventType) : bool :=
  match a, b with
  | Pointerdown, Pointerdown | Pointerup, Pointerup
  | Pointercancel, Pointercancel | Pointermove, Pointermove
  | Pointerover, Pointerover | Pointerout, Pointerout
  | Wheel, Wheel | Touchstart, Touchstart | Touchmove, Touchmove
  | Touchend, Touchend => true
  | _, _ => false
  end.

Definition same_registration (a b : Registration) : bool :=
  EventTarget_eqb (target a) (target b) &&
  EventType_eqb (event_type a) (event_type b) &&
  Nat.eqb (callback a) (callback b).

Definition with_registrations (f : list Registration -> list Registration)
    (p : Page) : Page :=
  mkPage (f (registrations p)) (_dragEndListener p) (_dragMoveListener p)
         (_mouseTrackingListener p) (lastWheelListener p)
         (lastTouchStartListener p) (lastTouchMoveListener p)
         (lastTouchEndListener p) (interactive p) (functions p).

(** [target.addEventListener(type, callback)]: a listener that is
    already registered for the event is not registered again. *)
Definition addEventListener (t : EventTarget) (ty : EventType) (f : nat)
    (p : Page) : Page :=
  let r := mkRegistration t ty f in
  if existsb (same_registration r) (registrations p) then p
  else with_registrations (fun l => l ++ [r]) p.

Definition removeEventListener (t : EventTarget) (ty : EventType) (f : nat)
    (p : Page) : Page :=
  let r := mkRegistration t ty f in
  with_registrations (filter (fun r' => negb (same_registration r r'))) p.

(** [model.on(type, callback)] of the renderer's event emitter: the
    listener is added whatever is registered already. *)
Definition on (model : ref) (ty : EventType) (f : nat) (p : Page) : Page :=
  with_registrations (fun l => l ++ [mkRegistration (OnModel model) ty f]) p.

(** A remembered listener is removed, if there is one. *)
Definition remove_remembered (t : EventTarget) (ty : EventType)
    (remembered : option nat) (p : Page) : Page :=
  match remembered with
  | Some f => removeEventListener t ty f p
  | None => p
  end.

(** A new function object. *)
Definition new_functions (n : nat) (p : Page) : Page :=
  mkPage (registrations p) (_dragEndListener p) (_dragMoveListener p)
         (_mouseTrackingListener p) (lastWheelListener p)
         (lastTouchStartListener p) (lastTouchMoveListener p)
         (lastTouchEndListener p) (interactive p) (functions p + n).

(** [setupDragAndDrop]: the function objects registered are the
    [pointerdown] listener, [onDragEnd] and [onDragMove]. *)
Definition setupDragAndDrop (model : ref) (p : Page) : Page :=
  let onPointerDown := functions p in
  let onDragEnd := (functions p + 1)%nat in
  let onDragMove := (functions p + 2)%nat in
  let p := new_functions 3 p in
  let p := mkPage (registrations p) (_dragEndListener p) (_dragMoveListener p)
             (_mouseTrackingListener p) (lastWheelListener p)
             (lastTouchStartListener p) (lastTouchMoveListener p)
             (lastTouchEndListener p)
             (fun r => if Nat.eqb r model then true else interactive p r)
             (functions p) in
  let p := on model Pointerdown onPointerDown p in
  let p := match _dragEndListener p with
           | Some f => removeEventListener Window Pointercancel f
                         (removeEventListener Window Pointerup f p)
           | None => p
           end in
  let p := remove_remembered Window Pointermove (_dragMoveListener p) p in
  let p := mkPage (registrations p) (Some onDragEnd) (Some onDragMove)
             (_mouseTrackingListener p) (lastWheelListener p)
             (lastTouchStartListener p) (lastTouchMoveListener p)
             (lastTouchEndListener p) (interactive p) (functions p) in
  let p := addEventListener Window Pointerup onDragEnd p in
  let p := addEventListener Window Pointercancel onDragEnd p in
  addEventListener Window Pointermove onDragMove p.

Definition setupWheelZoom (model : ref) (p : Page) : Page :=
  let onWheelScroll := functions p in
  let p := new_functions 1 p in
  let p := remove_remembered View Wheel (lastWheelListener p) p in
  let p := addEventListener View Wheel onWheelScroll p in
  mkPage (registrations p) (_dragEndListener p) (_dragMoveListener p)
         (_mouseTrackingListener p) (Some onWheelScroll)
         (lastTouchStartListener p) (lastTouchMoveListener p)
         (lastTouchEndListener p) (interactive p) (functions p).

Definition setupTouchZoom (model : ref) (p : Page) : Page :=
  let onTouchStart := functions p in
  let onTouchMove := (functions p + 1)%nat in
  let onTouchEnd := (functions p + 2)%nat in
  let p := new_functions 3 p in
  let p := remove_remembered View Touchstart (lastTouchStartListener p) p in
  let p := remove_remembered View Touchmove (lastTouchMoveListener p) p in
  let p := remove_remembered View Touchend (lastTouchEndListener p) p in
  let p := addEventListener View Touchstart onTouchStart p in
  let p := addEventListener View Touchmove onTouchMove p in
  let p := addEventListener View Touchend onTouchEnd p in
  mkPage (registrations p) (_dragEndListener p) (_dragMoveListener p)
         (_mouseTrackingListener p) (lastWheelListener p)
         (Some onTouchStart) (Some onTouchMove) (Some onTouchEnd)
         (interactive p) (functions p).

(** The listeners [enableMouseTracking] registers on the model and on
    the window. *)
Definition enableMouseTracking_listeners (model : ref) (p : Page) : Page :=
  let onPointerOver := functions p in
  let onPointerOut := (functions p + 1)%nat in
  let onPointerMove := (functions p + 2)%nat in
  let p := new_functions 3 p in
  let p := on model Pointerover onPointerOver p in
  let p := on model Pointerout onPointerOut p in
  let p := remove_remembered Window Pointermove (_mouseTrackingListener p) p in
  let p := mkPage (registrations p) (_dragEndListener p) (_dragMoveListener p)
             (Some onPointerMove) (lastWheelListener p)
             (lastTouchStartListener p) (lastTouchMoveListener p)
             (lastTouchEndListener p) (interactive p) (functions p) in
  addEventListener Window Pointermove onPointerMove p.

(** A call of a setup function. *)
Inductive Setup :=
| DragAndDrop (model : ref)
| WheelZoom (model : ref)
| TouchZoom (model : ref)
| MouseTracking (model : ref).

Definition setup (c : Setup) : Page -> Page :=
  match c with
  | DragAndDrop model => setupDragAndDrop model
  | WheelZoom model => setupWheelZoom model
  | TouchZoom model => setupTouchZoom model
  | MouseTracking model => enableMouseTracking_listeners model
  end.

Definition setups (l : list Setup) (p : Page) : Page :=
  fold_left (fun p c => setup c p) l p.

(** A page on which nothing was set up. *)
Definition blank_page : Page :=
  mkPage [] None None None None None None None (fun _ => false) 0.

(** The listeners registered on a target for an event, oldest first. *)
Definition listeners_on (t : EventTarget) (ty : EventType) (p : Page)
  : list nat :=
  map callback
      (filter (fun r => EventTarget_eqb (target r) t &&
                        EventType_eqb (event_type r) ty)
              (registrations p)).

(** The listener a field remembers, as a list. *)
Definition remembered (o : option nat) : list nat :=
  match o with Some f => [f] | None => [] end.

(** A call of [setupDragAndDrop] on [model]. *)
Definition is_DragAndDrop (model : ref) (c : Setup) : bool :=
  match c with DragAndDrop m => Nat.eqb m model | _ => false end.

(** Every registered function object was made before now. *)
Definition made (p : Page) : Prop :=
  forall r, In r (registrations p) -> (callback r < functions p)%nat.

(** The window and the canvas carry the remembered listeners and no
    others. *)
Definition tidy (p : Page) : Prop :=
  listeners_on Window Pointerup p = remembered (_dragEndListener p) /\
  listeners_on Window Pointercancel p = remembered (_dragEndListener p) /\
  (listeners_on Window Pointermove p
   = remembered (_dragMoveListener p) ++ remembered (_mouseTrackingListener p)
   \/
   listeners_on Window Pointermove p
   = remembered (_mouseTrackingListener p) ++ remembered (_dragMoveListener p)) /\
  listeners_on View Wheel p = remembered (lastWheelListener p) /\
  listeners_on View Touchstart p = remembered (lastTouchStartListener p) /\
  listeners_on View Touchmove p = remembered (lastTouchMoveListener p) /\
  listeners_on View Touchend p = remembered (lastTouchEndListener p).

(** A registration on the target [t] for the event [ty]. *)
Definition selects (t : EventTarget) (ty : EventType) (r : Registration) : bool :=
  EventTarget_eqb (target r) t && EventType_eqb (event_type r) ty.

(** [listeners_on] on a list of registrations. *)
Definition on_list (t : EventTarget) (ty : EventType) (l : list Registration)
  : list nat :=
  map callback (filter (selects t ty) l).

(** What the fields remember was made before now, and the two
    [pointermove] listeners of the window are not the same function. *)
Definition remembered_made (p : Page) : Prop :=
  (forall f, _dragEndListener p = Some f -> (f < functions p)%nat) /\
  (forall f, _dragMoveListener p = Some f -> (f < functions p)%nat) /\
  (forall f, _mouseTrackingListener p = Some f -> (f < functions p)%nat) /\
  (forall f, lastWheelListener p = Some f -> (f < functions p)%nat) /\
  (forall f, lastTouchStartListener p = Some f -> (f < functions p)%nat) /\
  (forall f, lastTouchMoveListener p = Some f -> (f < functions p)%nat) /\
  (forall f, lastTouchEndListener p = Some f -> (f < functions p)%nat) /\
  (forall f, _dragMoveListener p = Some f -> _mouseTrackingListener p <> Some f).

(** The registrations after a remembered listener was removed. *)
Definition removed (t : EventTarget) (ty : EventType) (o : option nat)
    (l : list Registration) : list Registration :=
  match o with
  | Some f => filter (fun r' => negb (same_registration (mkRegistration t ty f) r')) l
  | None => l
  end.

(** What every setup function keeps. *)
Definition settled (p : Page) : Prop := made p /\ remembered_made p /\ tidy p.

(** *** Further concrete inputs *)

(** The same with the model locked. *)
Definition locked_state : State :=
  mkState (mkManager true false (Some 0%nat) (Some "m.json"%string) None)
          (drag idle_state) (zoom idle_state) (models idle_state)
          [] 1%positive 0 [].

(** No model is loaded, nothing is in progress. *)
Definition empty_state : State :=
  mkState (mkManager false false None None None)
          (drag idle_state) (zoom idle_state) (models idle_state)
          [] 1%positive 0 [].

(** An inline style that accepts the keywords ['auto'] and ['none'] and
    the empty string, which removes the declaration. *)
Definition css_keywords (v : string) : option string :=
  if String.eqb v EmptyString || String.eqb v "auto" || String.eqb v "none"
  then Some v else None.

(** A container, a wrapper in it, two buttons in the wrapper and the
    canvas. *)
Definition page : Document :=
  [ mkElement "live2d-floating-buttons" [] None "auto" None;
    mkElement EmptyString ["live2d-btn-wrapper"%string] (Some 0%nat)
              EmptyString None;
    mkElement "live2d-btn-mic" ["live2d-floating-btn"%string] (Some 1%nat)
              "auto" None;
    mkElement "live2d-btn-chat" ["live2d-floating-btn"%string] (Some 1%nat)
              EmptyString None;
    mkElement "live2d-canvas" [] None EmptyString None ].

(** The three controls are in the document and hidden; nothing is
    pending. *)
Definition hidden_controls : Controls :=
  mkControls (Some (mkDisplayStyle "none" false))
             (Some (mkDisplayStyle "none" false))
             (Some (mkDisplayStyle "none" false)).

(** The tracking of a manager [th] before any event: the model is
    interactive and not dragged. *)
Definition tracking_state (th : Manager) (goodbye over : bool) : Tracking :=
  mkTracking th goodbye over None true false hidden_controls [] 1%positive 0 [].

(** The pointer far from the box [0,0]-[100,100], and near it. *)
Definition move_far : TrackingEvent :=
  window_pointermove (Returned box100) (of_Z 500) (of_Z 500).

Definition move_near : TrackingEvent :=
  window_pointermove (Returned box100) (of_Z 120) (of_Z 50).

(** * Properties *)

(** ** Facts about binary64 arithmetic

    What the properties below need of [SpecFloat]'s operations: how
    [binary_round_aux] cuts and rounds a mantissa, that multiplying or
    dividing by the wheel factor 1.1 moves a normal value strictly and
    keeps any positive value positive, and that the order and the sign
    of a difference of finite values are those of their values. *)

Module Binary64.

(** *** The literals of the source *)

(** Division rounds to nearest, so the quotient of two integers is the
    binary64 value nearest to the decimal literal. *)
Example literals_are_nearest :
  lit_0_1 = div (of_Z 1) (of_Z 10) /\
  lit_0_5 = div (of_Z 1) (of_Z 2) /\
  lit_1_1 = div (of_Z 11) (of_Z 10) /\
  lit_2_0 = of_Z 2.
Proof. repeat split. Qed.

Example literals_are_wf :
  wf lit_0_1 = true /\ wf lit_0_5 = true /\
  wf lit_1_1 = true /\ wf lit_2_0 = true.
Proof. repeat split. Qed.

(** *** Digits *)

(** [digits2_pos p] is the number of binary digits of [p]. *)
Lemma digits2_pos_bounds p :
  2 ^ (Zpos (digits2_pos p) - 1) <= Zpos p < 2 ^ Zpos (digits2_pos p).
Proof.
  induction p as [p IH|p IH|]; cbn [digits2_pos].
  - rewrite Pos2Z.inj_succ.
    replace (Z.succ (Zpos (digits2_pos p)) - 1) with (Z.succ (Zpos (digits2_pos p) - 1)) by lia.
    rewrite !Z.pow_succ_r by lia. lia.
  - rewrite Pos2Z.inj_succ.
    replace (Z.succ (Zpos (digits2_pos p)) - 1) with (Z.succ (Zpos (digits2_pos p) - 1)) by lia.
    rewrite !Z.pow_succ_r by lia. lia.
  - cbn. lia.
Qed.

Lemma digits2_pos_unique p k :
  2 ^ (k - 1) <= Zpos p < 2 ^ k -> Zpos (digits2_pos p) = k.
Proof.
  intros [L U]. pose proof (digits2_pos_bounds p) as [L' U'].
  assert (0 < k).
  { destruct (Z.ltb_spec 0 k); [assumption|].
    destruct (Z.eq_dec k 0) as [->|]; [cbn in U; lia|].
    rewrite Z.pow_neg_r in U by lia. lia. }
  destruct (Z.lt_trichotomy (Zpos (digits2_pos p)) k) as [C|[C|C]]; [|assumption|].
  - assert (2 ^ Zpos (digits2_pos p) <= 2 ^ (k - 1)) by (apply Z.pow_le_mono_r; lia). lia.
  - assert (2 ^ k <= 2 ^ (Zpos (digits2_pos p) - 1)) by (apply Z.pow_le_mono_r; lia). lia.
Qed.

Lemma Zdigits2_unique m k :
  2 ^ (k - 1) <= m < 2 ^ k -> 0 < m -> Zdigits2 m = k.
Proof.
  intros B P. destruct m as [|p|p]; try lia. cbn. now apply digits2_pos_unique.
Qed.

(** *** Shifting a mantissa right *)

Lemma shr_1_m mrs : 0 <= shr_m mrs -> shr_m (shr_1 mrs) = shr_m mrs / 2.
Proof.
  destruct mrs as [m r s]. cbn [shr_m]. intros Hm.
  destruct m as [|[p|p|]|p]; cbn [shr_1 shr_m]; try lia.
  - reflexivity.
  - apply Z.div_unique with (r := 1); lia.
  - apply Z.div_unique with (r := 0); lia.
  - reflexivity.
Qed.

(** Shifting right [p] times divides the mantissa by 2^p. *)
Lemma iter_pos_shr_m p : forall mrs,
  0 <= shr_m mrs -> shr_m (iter_pos shr_1 p mrs) = shr_m mrs / 2 ^ Zpos p.
Proof.
  induction p as [p IH|p IH|]; intros mrs Hm; cbn [iter_pos].
  - assert (H1 : 0 <= shr_m (shr_1 mrs)).
    { rewrite shr_1_m by assumption. apply Z.div_pos; lia. }
    assert (H2 : 0 <= shr_m (iter_pos shr_1 p (shr_1 mrs))).
    { rewrite IH by assumption. apply Z.div_pos; [assumption|]. apply Z.pow_pos_nonneg; lia. }
    rewrite IH, IH, shr_1_m by assumption.
    rewrite !Z.div_div by (try apply Z.pow_pos_nonneg; lia).
    f_equal. rewrite <- Z.pow_add_r by lia.
    rewrite <- (Z.pow_1_r 2) at 1. rewrite <- Z.pow_add_r by lia. f_equal. lia.
  - assert (H2 : 0 <= shr_m (iter_pos shr_1 p mrs)).
    { rewrite IH by assumption. apply Z.div_pos; [assumption|]. apply Z.pow_pos_nonneg; lia. }
    rewrite IH, IH by assumption.
    rewrite !Z.div_div by (try apply Z.pow_pos_nonneg; lia).
    f_equal. rewrite <- Z.pow_add_r by lia. f_equal. lia.
  - rewrite shr_1_m by assumption. reflexivity.
Qed.

(** *** Rounding *)

Lemma shr_record_of_loc_m m l : shr_m (shr_record_of_loc m l) = m.
Proof. now destruct l as [|[]]. Qed.

Lemma loc_of_shr_record_of_loc m l : loc_of_shr_record (shr_record_of_loc m l) = l.
Proof. now destruct l as [|[]]. Qed.

(** [shr_fexp] leaves the mantissa and exponent [shifted] computes. *)
Lemma shr_fexp_spec m e l :
  0 <= m ->
  (shr_m (fst (shr_fexp prec emax m e l)), snd (shr_fexp prec emax m e l))
  = shifted m e.
Proof.
  intros Hm. unfold shr_fexp, shifted, shr.
  destruct (fexp prec emax (Zdigits2 m + e) - e) as [|n|n]; cbn [fst snd].
  - now rewrite shr_record_of_loc_m.
  - rewrite iter_pos_shr_m by (now rewrite shr_record_of_loc_m).
    now rewrite shr_record_of_loc_m.
  - now rewrite shr_record_of_loc_m.
Qed.

Lemma shr_fexp_loc m e l :
  fexp prec emax (Zdigits2 m + e) - e <= 0 ->
  loc_of_shr_record (fst (shr_fexp prec emax m e l)) = l.
Proof.
  intros Hn. unfold shr_fexp, shr.
  destruct (fexp prec emax (Zdigits2 m + e) - e) as [|n|n]; cbn [fst]; try lia;
    apply loc_of_shr_record_of_loc.
Qed.

(** Rounding to nearest-even keeps the mantissa or adds one. *)
Lemma rne_bounds m l : m <= round_nearest_even m l <= m + 1.
Proof. destruct l as [|[]]; cbn; try destruct (Z.even m); lia. Qed.

(** [binary_round_aux] cuts the mantissa, rounds it, cuts it once more
    in case rounding carried into a new digit, and finishes.  When the
    first cut shifts nothing the rounding is decided by the location
    [lx] that was passed in. *)
Lemma bra_spec sx mx ex lx :
  0 <= mx ->
  exists l',
    let m1 := fst (shifted mx ex) in
    let e1 := snd (shifted mx ex) in
    let m2 := round_nearest_even m1 l' in
    (fexp prec emax (Zdigits2 mx + ex) - ex <= 0 -> l' = lx) /\
    binary_round_aux prec emax sx mx ex lx
    = finish sx (fst (shifted m2 e1)) (snd (shifted m2 e1)).
Proof.
  intros Hm. unfold binary_round_aux.
  pose proof (shr_fexp_spec mx ex lx Hm) as E1.
  pose proof (shr_fexp_loc mx ex lx) as L1.
  destruct (shr_fexp prec emax mx ex lx) as [mrs' e'] eqn:S1. cbn [fst snd] in E1, L1.
  exists (loc_of_shr_record mrs'). cbn zeta.
  split; [exact L1|].
  rewrite <- E1. cbn [fst snd].
  assert (H1 : 0 <= shr_m mrs').
  { replace (shr_m mrs') with (fst (shifted mx ex)) by (now rewrite <- E1).
    unfold shifted.
    destruct (Z.ltb_spec 0 (fexp prec emax (Zdigits2 mx + ex) - ex));
      cbn [fst]; [|assumption].
    apply Z.div_pos; [assumption|]. apply Z.pow_pos_nonneg; lia. }
  assert (H2 : 0 <= round_nearest_even (shr_m mrs') (loc_of_shr_record mrs')).
  { pose proof (rne_bounds (shr_m mrs') (loc_of_shr_record mrs')). lia. }
  pose proof (shr_fexp_spec _ e' loc_Exact H2) as E2.
  destruct (shr_fexp prec emax _ e' loc_Exact) as [mrs'' e''].
  cbn [fst snd] in E2. rewrite <- E2. cbn [fst snd]. reflexivity.
Qed.

(** Replace the closed powers of two by their values, for [lia]. *)
Ltac pow2 :=
  repeat match goal with
  | |- context [2 ^ ?k] =>
      let v := eval vm_compute in (2 ^ k) in
      lazymatch v with
      | Zpos _ => change (2 ^ k) with v
      end
  | H : context [2 ^ ?k] |- _ =>
      let v := eval vm_compute in (2 ^ k) in
      lazymatch v with
      | Zpos _ => change (2 ^ k) with v in H
      end
  end.

(** A positive normal value has a 53-bit mantissa. *)
Lemma normal_positive_inv a :
  normal_positive a = true ->
  exists m e, a = S754_finite false m e /\
    2 ^ 52 <= Zpos m < 2 ^ 53 /\ -1074 <= e <= 971.
Proof.
  unfold normal_positive, wf. intros H. apply andb_true_iff in H as [V C].
  destruct a as [s|s| |s m e]; try (destruct s; discriminate); try discriminate.
  unfold SFclassify in C. destruct s.
  - destruct (_ =? _); discriminate.
  - destruct (Z.eqb_spec (Zpos (digits2_pos m)) prec) as [D|]; [|discriminate].
    exists m, e. split; [reflexivity|].
    pose proof (digits2_pos_bounds m) as B. rewrite D in B.
    cbn in V. unfold bounded, canonical_mantissa in V.
    apply andb_true_iff in V as [V1 V2].
    apply Z.eqb_eq in V1. apply Z.leb_le in V2.
    rewrite D in V1. unfold fexp, emin, prec, emax in *.
    split; [exact B|]. lia.
Qed.

(** [shifted] on a mantissa of [d] digits: cut by [n] bits, or kept. *)
Lemma shifted_shift m e d n :
  0 < m -> 2 ^ (d - 1) <= m < 2 ^ d ->
  n = Z.max (d + e - 53) (-1074) - e -> 0 < n ->
  shifted m e = (m / 2 ^ n, e + n).
Proof.
  intros Hm Hd Hn Hp. unfold shifted.
  rewrite (Zdigits2_unique m d Hd Hm).
  unfold fexp, emin, prec, emax.
  replace (Z.max (d + e - 53) (3 - 1024 - 53) - e) with n by lia.
  destruct (Z.ltb_spec 0 n); [reflexivity | lia].
Qed.

Lemma shifted_keep m e d :
  0 < m -> 2 ^ (d - 1) <= m < 2 ^ d ->
  Z.max (d + e - 53) (-1074) <= e ->
  shifted m e = (m, e).
Proof.
  intros Hm Hd Hn. unfold shifted.
  rewrite (Zdigits2_unique m d Hd Hm).
  unfold fexp, emin, prec, emax.
  destruct (Z.ltb_spec 0 (Z.max (d + e - 53) (3 - 1024 - 53) - e)); [lia | reflexivity].
Qed.

(** A finite positive value is below what [finish] returns for a larger
    exponent, or for the same exponent and a larger mantissa. *)
Lemma ltb_finish m e m3 e3 :
  0 < m3 -> (e < e3 \/ (e = e3 /\ Zpos m < m3)) ->
  SFltb (S754_finite false m e) (finish false m3 e3) = true.
Proof.
  intros Hm H. destruct m3 as [|p|p]; try lia. cbn [finish].
  destruct (e3 <=? emax - prec); [|reflexivity].
  unfold SFltb, SFcompare.
  destruct H as [H|[-> H]].
  - apply Z.compare_lt_iff in H. now rewrite H.
  - rewrite Z.compare_refl. change (Pos.compare_cont Eq m p) with (Pos.compare m p).
    apply Pos.compare_lt_iff in H. now rewrite H.
Qed.

(** Multiplying a positive normal value by 1.1 gives a strictly larger
    value (possibly +Infinity).  The product of the mantissas has 105 or
    106 binary digits; in either case the rounded mantissa, at its
    exponent, is above the old one. *)
Lemma mul_1_1_increases a :
  normal_positive a = true -> lt a (mul a lit_1_1) = true.
Proof.
  intros H. destruct (normal_positive_inv a H) as (m & e & -> & Bm & Be).
  unfold lt, mul, lit_1_1. cbn [SFmul xorb].
  destruct (bra_spec false (Zpos (m * 4953959590107546)) (e + -52) loc_Exact)
    as (l' & _ & ->); [lia|].
  set (P := Zpos (m * 4953959590107546)).
  assert (EP : P = Zpos m * 4953959590107546) by (unfold P; lia).
  pow2.
  destruct (Z.lt_ge_cases P (2 ^ 105)) as [C|C]; pow2.
  - rewrite (shifted_shift P (e + -52) 105 52) by (pow2; lia).
    cbn [fst snd].
    set (m1 := P / 2 ^ 52).
    assert (B1 : Zpos m + 1 <= m1 < 2 ^ 53).
    { unfold m1. pow2. split.
      - apply Z.div_le_lower_bound; lia.
      - apply Z.div_lt_upper_bound; lia. }
    pose proof (rne_bounds m1 l') as R. set (m2 := round_nearest_even m1 l') in *.
    pow2.
    destruct (Z.eq_dec m2 (2 ^ 53)) as [E2|N2]; pow2.
    + rewrite (shifted_shift m2 (e + -52 + 52) 54 1) by (pow2; lia).
      cbn [fst snd]. apply ltb_finish.
      * rewrite E2. reflexivity.
      * left. lia.
    + rewrite (shifted_keep m2 (e + -52 + 52) 53) by (pow2; lia).
      cbn [fst snd]. apply ltb_finish; [lia|]. right. lia.
  - rewrite (shifted_shift P (e + -52) 106 53) by (pow2; lia).
    cbn [fst snd].
    set (m1 := P / 2 ^ 53).
    assert (B1 : 2 ^ 52 <= m1 < 2 ^ 53).
    { unfold m1. pow2. split.
      - apply Z.div_le_lower_bound; lia.
      - apply Z.div_lt_upper_bound; lia. }
    pose proof (rne_bounds m1 l') as R. set (m2 := round_nearest_even m1 l') in *.
    pow2.
    destruct (Z.eq_dec m2 (2 ^ 53)) as [E2|N2]; pow2.
    + rewrite (shifted_shift m2 (e + -52 + 53) 54 1) by (pow2; lia).
      cbn [fst snd]. apply ltb_finish.
      * rewrite E2. reflexivity.
      * left. lia.
    + rewrite (shifted_keep m2 (e + -52 + 53) 53) by (pow2; lia).
      cbn [fst snd]. apply ltb_finish; [lia|]. left. lia.
Qed.

(** [SFdiv_core_binary] divides the dividend's mantissa, shifted left by
    [s] bits, by the divisor's, and locates the remainder. *)
Lemma div_core_spec m1 e1 m2 e2 s :
  0 < m1 ->
  s = e1 - e2 - Z.min (fexp prec emax (Zdigits2 m1 + e1 - (Zdigits2 m2 + e2))) (e1 - e2) ->
  0 <= s ->
  SFdiv_core_binary prec emax m1 e1 m2 e2
  = (m1 * 2 ^ s / m2, e1 - e2 - s, new_location m2 ((m1 * 2 ^ s) mod m2)).
Proof.
  intros Hm Hs Hp. unfold SFdiv_core_binary.
  rewrite <- Hs.
  replace (Z.min (fexp prec emax (Zdigits2 m1 + e1 - (Zdigits2 m2 + e2))) (e1 - e2))
    with (e1 - e2 - s) by lia.
  assert (E : match s with
              | 0 => m1
              | Zpos _ => Z.shiftl m1 s
              | Zneg _ => 0
              end = m1 * 2 ^ s).
  { destruct s as [|p|p]; [rewrite Z.pow_0_r; lia | | lia].
    apply Z.shiftl_mul_pow2. lia. }
  rewrite E. unfold Z.div, Z.modulo.
  destruct (Z.div_eucl (m1 * 2 ^ s) m2) as [q r]. reflexivity.
Qed.

Lemma finish_ltb m3 e3 m e :
  0 < m3 -> e3 <= 971 -> (e3 < e \/ (e3 = e /\ m3 < Zpos m)) ->
  SFltb (finish false m3 e3) (S754_finite false m e) = true.
Proof.
  intros Hm He H. destruct m3 as [|p|p]; try lia. cbn [finish].
  unfold emax, prec. destruct (Z.leb_spec e3 (1024 - 53)); [|lia].
  unfold SFltb, SFcompare.
  destruct H as [H|[-> H]].
  - apply Z.compare_lt_iff in H. now rewrite H.
  - rewrite Z.compare_refl. change (Pos.compare_cont Eq p m) with (Pos.compare p m).
    apply Pos.compare_lt_iff in H. now rewrite H.
Qed.

(** Dividing a positive normal value by 1.1 gives a strictly smaller
    value. *)
Lemma div_1_1_decreases a :
  normal_positive a = true -> lt (div a lit_1_1) a = true.
Proof.
  intros H. destruct (normal_positive_inv a H) as (m & e & -> & Bm & Be).
  unfold lt, div, lit_1_1. cbn [SFdiv xorb].
  assert (D1 : Zdigits2 (Zpos m) = 53) by (apply Zdigits2_unique; [exact Bm | lia]).
  assert (D2 : Zdigits2 4953959590107546 = 53) by reflexivity.
  pow2.
  destruct (Z.eq_dec e (-1074)) as [Ee|Ne].
  - (* the smallest exponent: the quotient stays at that exponent *)
    subst e.
    rewrite (div_core_spec (Zpos m) (-1074) 4953959590107546 (-52) 52).
    2: lia. 2: (rewrite D1, D2; reflexivity). 2: lia.
    set (q := Zpos m * 2 ^ 52 / 4953959590107546).
    set (lz := new_location _ _).
    assert (Bq : 2 ^ 51 <= q /\ q + 1 < Zpos m).
    { unfold q. pow2. split.
      - apply Z.div_le_lower_bound; lia.
      - assert (Zpos m * 4503599627370496 / 4953959590107546 < Zpos m - 1); [|lia].
        apply Z.div_lt_upper_bound; lia. }
    destruct (bra_spec false q (-1074 - -52 - 52) lz) as (l' & _ & ->); [lia|].
    pow2.
    assert (K1 : shifted q (-1074 - -52 - 52) = (q, -1074)).
    { destruct (Z.lt_ge_cases q (2 ^ 52)); pow2.
      - now rewrite (shifted_keep q _ 52) by (pow2; lia).
      - now rewrite (shifted_keep q _ 53) by (pow2; lia). }
    rewrite K1. cbn [fst snd].
    pose proof (rne_bounds q l') as R. set (m2 := round_nearest_even q l') in *.
    assert (K2 : shifted m2 (-1074) = (m2, -1074)).
    { destruct (Z.lt_ge_cases m2 (2 ^ 52)); pow2.
      - now rewrite (shifted_keep m2 _ 52) by (pow2; lia).
      - now rewrite (shifted_keep m2 _ 53) by (pow2; lia). }
    rewrite K2. cbn [fst snd]. apply finish_ltb; lia.
  - rewrite (div_core_spec (Zpos m) e 4953959590107546 (-52) 53);
      [|lia|rewrite D1, D2; unfold fexp, emin, prec, emax; lia|lia].
    set (q := Zpos m * 2 ^ 53 / 4953959590107546).
    set (lz := new_location _ _).
    assert (Bq : 2 ^ 52 <= q < 2 ^ 54 /\ q * 4953959590107546 <= Zpos m * 2 ^ 53).
    { unfold q. pow2. split; [split|].
      - apply Z.div_le_lower_bound; lia.
      - apply Z.div_lt_upper_bound; lia.
      - rewrite Z.mul_comm. apply Z.mul_div_le. lia. }
    destruct (bra_spec false q (e - -52 - 53) lz) as (l' & _ & ->); [lia|].
    pow2.
    destruct (Z.lt_ge_cases q (2 ^ 53)) as [C|C]; pow2.
    + rewrite (shifted_keep q _ 53) by (pow2; lia). cbn [fst snd].
      pose proof (rne_bounds q l') as R. set (m2 := round_nearest_even q l') in *.
      destruct (Z.eq_dec m2 (2 ^ 53)) as [E2|N2]; pow2.
      * rewrite (shifted_shift m2 _ 54 1) by (pow2; lia).
        cbn [fst snd]. rewrite E2.
        apply finish_ltb; [reflexivity | lia |]. right. split; [lia|].
        change (9007199254740992 / 2 ^ 1) with 4503599627370496. lia.
      * rewrite (shifted_keep m2 _ 53) by (pow2; lia). cbn [fst snd].
        apply finish_ltb; lia.
    + rewrite (shifted_shift q _ 54 1) by (pow2; lia). cbn [fst snd].
      set (m1 := q / 2 ^ 1).
      assert (B1 : 2 ^ 52 <= m1 /\ m1 + 1 < Zpos m).
      { unfold m1. change (2 ^ 1) with 2. pow2. split.
        - apply Z.div_le_lower_bound; lia.
        - assert (q / 2 < Zpos m - 1); [|lia].
          apply Z.div_lt_upper_bound; lia. }
      pose proof (rne_bounds m1 l') as R. set (m2 := round_nearest_even m1 l') in *.
      pow2.
      rewrite (shifted_keep m2 _ 53) by (pow2; lia). cbn [fst snd].
      apply finish_ltb; lia.
Qed.

(** *** The wheel factor keeps a scale positive *)
Lemma Zdigits2_bounds m : 0 < m -> 2 ^ (Zdigits2 m - 1) <= m < 2 ^ Zdigits2 m.
Proof. destruct m as [|p|p]; try lia. intros _. apply digits2_pos_bounds. Qed.

Lemma Zdigits2_pos m : 0 < m -> 0 < Zdigits2 m.
Proof. destruct m; cbn; lia. Qed.

(** A mantissa that stands for at least 2^-1074 is not cut to zero, and
    no exponent below -1074 comes out. *)
Lemma shifted_positive m e :
  1 <= m -> -1074 < Zdigits2 m + e ->
  1 <= fst (shifted m e) /\ -1074 <= snd (shifted m e).
Proof.
  intros Hm Hv. unfold shifted, fexp, emin, prec, emax.
  pose proof (Zdigits2_bounds m ltac:(lia)) as [L U].
  pose proof (Zdigits2_pos m ltac:(lia)) as D.
  set (d := Zdigits2 m) in *.
  destruct (Z.ltb_spec 0 (Z.max (d + e - 53) (3 - 1024 - 53) - e)) as [C|C];
    cbn [fst snd]; [|lia].
  split; [|lia].
  set (n := Z.max (d + e - 53) (3 - 1024 - 53) - e) in *.
  apply Z.div_le_lower_bound; [apply Z.pow_pos_nonneg; lia|].
  rewrite Z.mul_1_r.
  transitivity (2 ^ (d - 1)); [|exact L].
  apply Z.pow_le_mono_r; lia.
Qed.

Lemma finish_positive m e :
  1 <= m -> -1074 <= e -> positive_number (finish false m e).
Proof.
  intros Hm He. destruct m as [|p|p]; try lia. cbn [finish].
  destruct (e <=? emax - prec); cbn; [exact He | exact I].
Qed.

(** Rounding a value of at least 2^-1074 gives a positive number. *)
Lemma bra_positive mx ex lx :
  1 <= mx -> -1074 < Zdigits2 mx + ex ->
  positive_number (binary_round_aux prec emax false mx ex lx).
Proof.
  intros Hm Hv.
  destruct (bra_spec false mx ex lx) as (l' & _ & ->); [lia|].
  destruct (shifted_positive mx ex Hm Hv) as [M1 E1].
  pose proof (rne_bounds (fst (shifted mx ex)) l') as R.
  set (m2 := round_nearest_even _ _) in *.
  set (e1 := snd (shifted mx ex)) in *.
  assert (H2 : -1074 < Zdigits2 m2 + e1).
  { pose proof (Zdigits2_pos m2 ltac:(lia)). lia. }
  destruct (shifted_positive m2 e1 ltac:(lia) H2) as [M3 E3].
  now apply finish_positive.
Qed.

(** Multiplying by 1.1 keeps a positive number positive. *)
Lemma mul_1_1_positive a :
  positive_number a -> positive_number (mul a lit_1_1).
Proof.
  destruct a as [s|[]| |[] m e]; cbn [positive_number]; try contradiction.
  - intros _. exact I.
  - intros He. unfold mul, lit_1_1. cbn [SFmul xorb].
    apply bra_positive; [lia|].
    assert (2 ^ 52 <= Zpos (m * 4953959590107546)) by (pow2; lia).
    pose proof (Zdigits2_bounds (Zpos (m * 4953959590107546)) ltac:(lia)) as [_ U].
    assert (52 < Zdigits2 (Zpos (m * 4953959590107546))).
    { apply (Z.pow_lt_mono_r_iff 2); [lia| |lia].
      pose proof (Zdigits2_pos (Zpos (m * 4953959590107546)) ltac:(lia)). lia. }
    lia.
Qed.

(** Dividing by 1.1 keeps a positive number positive: when the quotient
    of the mantissas is zero the remainder is more than half the divisor
    and rounding gives the smallest positive value. *)
Lemma div_1_1_positive a :
  positive_number a -> positive_number (div a lit_1_1).
Proof.
  destruct a as [s|[]| |[] m e]; cbn [positive_number]; try contradiction.
  - intros _. exact I.
  - intros He. unfold div, lit_1_1. cbn [SFdiv xorb].
    pose proof (Zdigits2_bounds (Zpos m) ltac:(lia)) as [L U].
    pose proof (Zdigits2_pos (Zpos m) ltac:(lia)) as D.
    set (d := Zdigits2 (Zpos m)) in *.
    set (s := e - -52 - Z.min (fexp prec emax (d + e - (Zdigits2 4953959590107546 + -52)))
                              (e - -52)).
    assert (Hs : 0 <= s) by (unfold s; lia).
    rewrite (div_core_spec (Zpos m) e 4953959590107546 (-52) s); [|lia|reflexivity|exact Hs].
    set (m' := Zpos m * 2 ^ s).
    assert (Hm' : 0 < m').
    { unfold m'. apply Z.mul_pos_pos; [lia|]. apply Z.pow_pos_nonneg; lia. }
    assert (Ee : -1074 <= e - -52 - s).
    { unfold s, fexp, emin, prec, emax. lia. }
    pose proof (Z.div_mod m' 4953959590107546 ltac:(lia)) as DM.
    pose proof (Z.mod_pos_bound m' 4953959590107546 ltac:(lia)) as MB.
    set (q := m' / 4953959590107546) in *.
    set (r := m' mod 4953959590107546) in *.
    assert (Hq : 0 <= q) by (apply Z.div_pos; lia).
    destruct (Z.eq_dec q 0) as [Q0|Qn].
    + (* the quotient is zero: the remainder is more than half the divisor *)
      assert (Hr : r = m') by lia.
      assert (S52 : 52 <= s).
      { destruct (Z.lt_ge_cases s 52) as [C|C]; [exfalso|exact C].
        assert (Hd : s = 106 - d \/ (s = 0 /\ 106 <= d)).
        { unfold s, fexp, emin, prec, emax in *.
          change (Zdigits2 4953959590107546) with 53 in *. lia. }
        assert (2 ^ 105 <= m'); [|pow2; lia].
        destruct Hd as [Hd|[Hd Hd']].
        - unfold m'. rewrite Hd.
          replace 105 with ((d - 1) + (106 - d)) by lia.
          rewrite Z.pow_add_r by lia.
          apply Z.mul_le_mono_nonneg_r; [apply Z.pow_nonneg; lia | exact L].
        - unfold m'. rewrite Hd, Z.pow_0_r, Z.mul_1_r.
          transitivity (2 ^ (d - 1)); [apply Z.pow_le_mono_r; lia | exact L]. }
      assert (Hbig : 2 ^ 52 <= m').
      { unfold m'.
        transitivity (1 * 2 ^ s); [rewrite Z.mul_1_l; apply Z.pow_le_mono_r; lia|].
        apply Z.mul_le_mono_nonneg_r; [apply Z.pow_nonneg; lia | lia]. }
      assert (Hl : new_location 4953959590107546 r = loc_Inexact Gt).
      { unfold new_location. cbn [Z.even]. unfold new_location_even.
        destruct (Z.eqb_spec r 0) as [R0|_]; [pow2; lia|].
        assert (2 * r > 4953959590107546) by (pow2; lia).
        now rewrite (proj2 (Z.compare_gt_iff _ _)) by lia. }
      rewrite Hl, Q0.
      destruct (bra_spec false 0 (e - -52 - s) (loc_Inexact Gt)) as (l' & Hl' & ->); [lia|].
      assert (K : shifted 0 (e - -52 - s) = (0, e - -52 - s)).
      { unfold shifted, fexp, emin, prec, emax. cbn [Zdigits2].
        destruct (Z.ltb_spec 0 (Z.max (0 + (e - -52 - s) - 53) (3 - 1024 - 53) - (e - -52 - s)));
          [lia | reflexivity]. }
      rewrite K in *. cbn [fst snd] in *.
      rewrite Hl' by (unfold fexp, emin, prec, emax; cbn [Zdigits2]; lia).
      cbn [round_nearest_even]. change (0 + 1) with 1.
      assert (H1 : -1074 < Zdigits2 1 + (e - -52 - s))
        by (change (Zdigits2 1) with 1; lia).
      destruct (shifted_positive 1 (e - -52 - s) ltac:(lia) H1) as [M3 E3].
      now apply finish_positive.
    + apply bra_positive; [lia|].
      pose proof (Zdigits2_pos q ltac:(lia)). lia.
Qed.

(** *** Order and subtraction of finite numbers *)
(** What [valid_binary] says of a finite value. *)
Lemma bounded_inv m e :
  bounded prec emax m e = true ->
  2 ^ (Zpos (digits2_pos m) - 1) <= Zpos m < 2 ^ Zpos (digits2_pos m) /\
  Zpos (digits2_pos m) <= 53 /\ -1074 <= e <= 971 /\
  (-1074 < e -> Zpos (digits2_pos m) = 53).
Proof.
  unfold bounded, canonical_mantissa, fexp, emin, prec, emax. intros H.
  apply andb_true_iff in H as [H1 H2].
  apply Z.eqb_eq in H1. apply Z.leb_le in H2.
  split; [apply digits2_pos_bounds|]. lia.
Qed.

(** Between canonical values the larger exponent is the larger value. *)
Lemma canonical_lt m1 e1 m2 e2 :
  bounded prec emax m1 e1 = true -> bounded prec emax m2 e2 = true ->
  e1 < e2 -> Zpos m1 * 2 ^ (e1 + 1074) < Zpos m2 * 2 ^ (e2 + 1074).
Proof.
  intros B1 B2 He.
  destruct (bounded_inv m1 e1 B1) as ((_ & U1) & D1 & E1 & _).
  destruct (bounded_inv m2 e2 B2) as ((L2 & _) & _ & E2 & N2).
  rewrite N2 in L2 by lia.
  assert (U1' : Zpos m1 < 2 ^ 53).
  { eapply Z.lt_le_trans; [exact U1|]. apply Z.pow_le_mono_r; lia. }
  replace (e2 + 1074) with ((e2 - e1) + (e1 + 1074)) by lia.
  rewrite (Z.pow_add_r 2 (e2 - e1) (e1 + 1074)) by lia.
  assert (A : 0 < 2 ^ (e1 + 1074)) by (apply Z.pow_pos_nonneg; lia).
  assert (K : 2 ^ 1 <= 2 ^ (e2 - e1)) by (apply Z.pow_le_mono_r; lia).
  change (2 ^ 1) with 2 in K. change (53 - 1) with 52 in L2. pow2.
  set (a := 2 ^ (e1 + 1074)) in *. set (k := 2 ^ (e2 - e1)) in *.
  assert (Zpos m1 * a < 9007199254740992 * a) by (apply Z.mul_lt_mono_pos_r; lia).
  assert (9007199254740992 <= Zpos m2 * k) by nia.
  assert (9007199254740992 * a <= Zpos m2 * k * a) by (apply Z.mul_le_mono_nonneg_r; lia).
  lia.
Qed.

(** [SFcompare] on finite values compares their values. *)
Lemma compare_Zval a b :
  finite_wf a = true -> finite_wf b = true ->
  SFcompare a b = Some (Zval a ?= Zval b).
Proof.
  unfold finite_wf, wf. intros Ha Hb.
  apply andb_true_iff in Ha as [Va Fa]. apply andb_true_iff in Hb as [Vb Fb].
  destruct a as [sa|sa| |sa ma ea]; try discriminate;
  destruct b as [sb|sb| |sb mb eb]; try discriminate; cbn [SFcompare Zval].
  - reflexivity.
  - assert (0 < Zpos mb * 2 ^ (eb + 1074)).
    { apply Z.mul_pos_pos; [lia|]. apply Z.pow_pos_nonneg; [lia|].
      cbn in Vb. apply bounded_inv in Vb. lia. }
    destruct sb; cbn [cond_Zopp]; f_equal; symmetry;
      [apply Z.compare_gt_iff | apply Z.compare_lt_iff]; lia.
  - assert (0 < Zpos ma * 2 ^ (ea + 1074)).
    { apply Z.mul_pos_pos; [lia|]. apply Z.pow_pos_nonneg; [lia|].
      cbn in Va. apply bounded_inv in Va. lia. }
    destruct sa; cbn [cond_Zopp]; f_equal; symmetry;
      [apply Z.compare_lt_iff | apply Z.compare_gt_iff]; lia.
  - cbn in Va, Vb.
    pose proof (bounded_inv ma ea Va) as (_ & _ & Ea & _).
    pose proof (bounded_inv mb eb Vb) as (_ & _ & Eb & _).
    assert (Pa : 0 < Zpos ma * 2 ^ (ea + 1074)).
    { apply Z.mul_pos_pos; [lia|]. apply Z.pow_pos_nonneg; lia. }
    assert (Pb : 0 < Zpos mb * 2 ^ (eb + 1074)).
    { apply Z.mul_pos_pos; [lia|]. apply Z.pow_pos_nonneg; lia. }
    assert (Same : ea = eb ->
      (Zpos ma * 2 ^ (ea + 1074) ?= Zpos mb * 2 ^ (eb + 1074))
      = Pos.compare_cont Eq ma mb).
    { intros ->. change (Pos.compare_cont Eq ma mb) with (Zpos ma ?= Zpos mb).
      assert (0 < 2 ^ (eb + 1074)) by (apply Z.pow_pos_nonneg; lia).
      destruct (Z.compare_spec (Zpos ma) (Zpos mb)) as [E|E|E].
      - rewrite E. apply Z.compare_refl.
      - apply Z.compare_lt_iff. apply Z.mul_lt_mono_pos_r; assumption.
      - apply Z.compare_gt_iff. apply Z.mul_lt_mono_pos_r; assumption. }
    f_equal.
    destruct sa, sb; cbn [cond_Zopp].
    + rewrite Z.compare_opp.
      destruct (Z.compare_spec ea eb) as [E|E|E].
      * rewrite Z.compare_antisym, Same by exact E. reflexivity.
      * symmetry. apply Z.compare_gt_iff. now apply canonical_lt.
      * symmetry. apply Z.compare_lt_iff. now apply canonical_lt.
    + symmetry. apply Z.compare_lt_iff. lia.
    + symmetry. apply Z.compare_gt_iff. lia.
    + destruct (Z.compare_spec ea eb) as [E|E|E].
      * now rewrite Same.
      * symmetry. apply Z.compare_lt_iff. now apply canonical_lt.
      * symmetry. apply Z.compare_gt_iff. now apply canonical_lt.
Qed.

Lemma iter_xO_val m d : Zpos (Pos.iter xO m d) = Zpos m * 2 ^ Zpos d.
Proof.
  apply (Pos.iter_ind positive xO m (fun p r => Zpos r = Zpos m * 2 ^ Zpos p)).
  - rewrite Z.pow_1_r. lia.
  - intros p r IH. rewrite Pos2Z.inj_succ, Z.pow_succ_r by lia.
    rewrite Pos2Z.inj_xO, IH. ring.
Qed.

(** Aligning a mantissa to a smaller exponent multiplies it. *)
Lemma shl_align_val mx ex ez :
  ez <= ex ->
  Zpos (fst (shl_align mx ex ez)) = Zpos mx * 2 ^ (ex - ez) /\
  snd (shl_align mx ex ez) = ez.
Proof.
  intros H. unfold shl_align.
  destruct (ez - ex) as [|d|d] eqn:E; cbn [fst snd]; try lia.
  - replace (ex - ez) with 0 by lia. rewrite Z.pow_0_r. lia.
  - rewrite iter_xO_val. replace (ex - ez) with (Zpos d) by lia. lia.
Qed.

(** Rounding is symmetric in the sign. *)
Lemma bra_opp s mx ex lx :
  binary_round_aux prec emax (negb s) mx ex lx
  = SFopp (binary_round_aux prec emax s mx ex lx).
Proof.
  unfold binary_round_aux.
  destruct (shr_fexp prec emax mx ex lx) as [mrs' e'].
  destruct (shr_fexp prec emax _ e' loc_Exact) as [mrs'' e''].
  destruct (shr_m mrs''); cbn [SFopp]; try reflexivity.
  destruct (e'' <=? emax - prec); reflexivity.
Qed.

Lemma binary_round_opp s m e :
  binary_round prec emax (negb s) m e = SFopp (binary_round prec emax s m e).
Proof.
  unfold binary_round. destruct (shl_align m e _) as [mz ez]. apply bra_opp.
Qed.

Lemma binary_round_positive m e :
  -1074 <= e -> positive_number (binary_round prec emax false m e).
Proof.
  intros He. unfold binary_round.
  set (t := fexp prec emax (Zpos (digits2_pos m) + e)).
  assert (Ht : -1074 <= t) by (unfold t, fexp, emin, prec, emax; lia).
  destruct (shl_align m e t) as [mz ez] eqn:E.
  apply bra_positive; [lia|].
  pose proof (Zdigits2_pos (Zpos mz) ltac:(lia)).
  assert (-1074 <= ez); [|lia].
  unfold shl_align in E. destruct (t - e) as [|d|d] eqn:Et; injection E as <- <-; lia.
Qed.

Lemma SFopp_involutive a : SFopp (SFopp a) = a.
Proof. destruct a as [[]|[]| |[] m e]; reflexivity. Qed.

(** The sign of a difference of finite numbers is the sign of the
    difference of their values. *)
Lemma sub_sign a b :
  finite_wf a = true -> finite_wf b = true ->
  match Zval a ?= Zval b with
  | Lt => negative_number (sub a b) /\ sub b a = SFopp (sub a b)
  | Eq => is_zero (sub a b)
  | Gt => positive_number (sub a b) /\ sub b a = SFopp (sub a b)
  end.
Proof.
  unfold finite_wf, wf. intros Ha Hb.
  apply andb_true_iff in Ha as [Va Fa]. apply andb_true_iff in Hb as [Vb Fb].
  destruct a as [sa|sa| |sa ma ea]; try discriminate;
  destruct b as [sb|sb| |sb mb eb]; try discriminate.
  - cbn. now destruct sa, sb.
  - cbn in Vb. pose proof (bounded_inv mb eb Vb) as (_ & _ & Eb & _).
    assert (0 < Zpos mb * 2 ^ (eb + 1074)).
    { apply Z.mul_pos_pos; [lia|]. apply Z.pow_pos_nonneg; lia. }
    unfold sub. cbn [SFsub Zval]. destruct sb; cbn [cond_Zopp negb].
    + rewrite (proj2 (Z.compare_gt_iff _ _)) by lia.
      split; [cbn; lia | reflexivity].
    + rewrite (proj2 (Z.compare_lt_iff _ _)) by lia.
      split; [unfold negative_number; cbn; lia | reflexivity].
  - cbn in Va. pose proof (bounded_inv ma ea Va) as (_ & _ & Ea & _).
    assert (0 < Zpos ma * 2 ^ (ea + 1074)).
    { apply Z.mul_pos_pos; [lia|]. apply Z.pow_pos_nonneg; lia. }
    unfold sub. cbn [SFsub Zval]. destruct sa; cbn [cond_Zopp negb].
    + rewrite (proj2 (Z.compare_lt_iff _ _)) by lia.
      split; [unfold negative_number; cbn; lia | reflexivity].
    + rewrite (proj2 (Z.compare_gt_iff _ _)) by lia.
      split; [cbn; lia | reflexivity].
  - cbn in Va, Vb.
    pose proof (bounded_inv ma ea Va) as (_ & _ & Ea & _).
    pose proof (bounded_inv mb eb Vb) as (_ & _ & Eb & _).
    unfold sub. cbn [SFsub Zval].
    rewrite (Z.min_comm eb ea).
    set (ez := Z.min ea eb).
    destruct (shl_align_val ma ea ez ltac:(unfold ez; lia)) as [A1 _].
    destruct (shl_align_val mb eb ez ltac:(unfold ez; lia)) as [B1 _].
    set (za := cond_Zopp sa (Zpos (fst (shl_align ma ea ez)))).
    set (zb := cond_Zopp sb (Zpos (fst (shl_align mb eb ez)))).
    assert (P : 0 < 2 ^ (ez + 1074)) by (apply Z.pow_pos_nonneg; unfold ez; lia).
    assert (Ea' : cond_Zopp sa (Zpos ma * 2 ^ (ea + 1074)) = za * 2 ^ (ez + 1074)).
    { unfold za. rewrite A1.
      replace (ea + 1074) with ((ea - ez) + (ez + 1074)) by lia.
      rewrite (Z.pow_add_r 2 (ea - ez)) by (unfold ez; lia).
      destruct sa; cbn [cond_Zopp]; ring. }
    assert (Eb' : cond_Zopp sb (Zpos mb * 2 ^ (eb + 1074)) = zb * 2 ^ (ez + 1074)).
    { unfold zb. rewrite B1.
      replace (eb + 1074) with ((eb - ez) + (ez + 1074)) by lia.
      rewrite (Z.pow_add_r 2 (eb - ez)) by (unfold ez; lia).
      destruct sb; cbn [cond_Zopp]; ring. }
    rewrite Ea', Eb'.
    assert (Ez : -1074 <= ez) by (unfold ez; lia).
    replace (zb - za) with (- (za - zb)) by ring.
    set (p2 := 2 ^ (ez + 1074)) in *.
    destruct (za - zb) as [|d|d] eqn:D.
    + assert (E0 : za = zb) by lia. rewrite E0, Z.compare_refl. exact I.
    + assert (C : zb * p2 < za * p2) by (apply Z.mul_lt_mono_pos_r; lia).
      rewrite (proj2 (Z.compare_gt_iff _ _)) by exact C.
      cbn [Z.opp binary_normalize]. split.
      * now apply binary_round_positive.
      * apply (binary_round_opp false).
    + assert (C : za * p2 < zb * p2) by (apply Z.mul_lt_mono_pos_r; lia).
      rewrite (proj2 (Z.compare_lt_iff _ _)) by exact C.
      cbn [Z.opp binary_normalize]. split.
      * unfold negative_number. rewrite (binary_round_opp false), SFopp_involutive.
        now apply binary_round_positive.
      * rewrite (binary_round_opp false), SFopp_involutive. reflexivity.
Qed.

Lemma lt_Zval a b :
  finite_wf a = true -> finite_wf b = true -> lt a b = (Zval a <? Zval b).
Proof.
  intros Ha Hb. unfold lt, SFltb, Z.ltb. now rewrite compare_Zval.
Qed.

Lemma le_Zval a b :
  finite_wf a = true -> finite_wf b = true -> le a b = (Zval a <=? Zval b).
Proof.
  intros Ha Hb. unfold le, SFleb, Z.leb. rewrite compare_Zval by assumption.
  now destruct (Zval a ?= Zval b).
Qed.

Lemma mul_opp_opp t : mul (SFopp t) (SFopp t) = mul t t.
Proof. destruct t as [[]|[]| |[] m e]; reflexivity. Qed.

Lemma mul_zero_zero t : is_zero t -> mul t t = zero.
Proof. destruct t as [[]|[]| |[] m e]; cbn; intros H; try contradiction; reflexivity. Qed.

(** [Math.max(a1, 0, a3)] by the signs of [a1] and [a3]. *)
Lemma max_nonpositive a1 a3 :
  nonpositive_number a1 -> nonpositive_number a3 -> Math_max [a1; zero; a3] = zero.
Proof.
  unfold nonpositive_number, negative_number.
  destruct a1 as [[]|[]| |[] m1 e1]; cbn [SFopp positive_number is_zero negb];
    intros [H1|H1]; try contradiction;
  destruct a3 as [[]|[]| |[] m3 e3]; cbn [SFopp positive_number is_zero negb];
    intros [H3|H3]; try contradiction; reflexivity.
Qed.

Lemma max_first a1 a3 :
  positive_number a1 -> negative_number a3 -> Math_max [a1; zero; a3] = a1.
Proof.
  unfold negative_number.
  destruct a1 as [[]|[]| |[] m1 e1]; cbn [SFopp positive_number is_zero negb];
    intros H1; try contradiction;
  destruct a3 as [[]|[]| |[] m3 e3]; cbn [SFopp positive_number is_zero negb];
    intros H3; try contradiction; reflexivity.
Qed.

Lemma max_last a1 a3 :
  negative_number a1 -> positive_number a3 -> Math_max [a1; zero; a3] = a3.
Proof.
  unfold negative_number.
  destruct a1 as [[]|[]| |[] m1 e1]; cbn [SFopp positive_number is_zero negb];
    intros H1; try contradiction;
  destruct a3 as [[]|[]| |[] m3 e3]; cbn [SFopp positive_number is_zero negb];
    intros H3; try contradiction; reflexivity.
Qed.

(** On one axis: the gap [Math.max(lo - p, 0, p - hi)] has the square of
    the distance from [p] to the nearest coordinate of [lo, hi], and is
    +0 when [p] is within. *)
Lemma axis_gap lo hi p :
  finite_wf lo = true -> finite_wf hi = true -> finite_wf p = true ->
  le lo hi = true ->
  let g := Math_max [sub lo p; zero; sub p hi] in
  let t := sub p (nearest_coordinate lo hi p) in
  mul g g = mul t t /\ (le lo p && le p hi = true -> g = zero).
Proof.
  intros Hlo Hhi Hp Hle.
  rewrite le_Zval in Hle by assumption. apply Z.leb_le in Hle.
  unfold nearest_coordinate, gt.
  rewrite !le_Zval, !lt_Zval by assumption.
  pose proof (sub_sign lo p Hlo Hp) as S1.
  pose proof (sub_sign p hi Hp Hhi) as S3.
  pose proof (sub_sign p p Hp Hp) as S0. rewrite Z.compare_refl in S0.
  destruct (Z.ltb_spec (Zval p) (Zval lo)) as [C1|C1].
  - (* left of the interval *)
    rewrite (proj2 (Z.compare_gt_iff _ _)) in S1 by lia.
    rewrite (proj2 (Z.compare_lt_iff _ _)) in S3 by lia.
    destruct S1 as [P1 O1], S3 as [N3 _]. cbn zeta.
    rewrite (max_first _ _ P1 N3). split.
    + rewrite O1. symmetry. apply mul_opp_opp.
    + destruct (Z.leb_spec (Zval lo) (Zval p)); [lia | discriminate].
  - destruct (Z.ltb_spec (Zval hi) (Zval p)) as [C3|C3].
    + (* right of the interval *)
      rewrite (proj2 (Z.compare_lt_iff _ _)) in S1 by lia.
      rewrite (proj2 (Z.compare_gt_iff _ _)) in S3 by lia.
      destruct S1 as [N1 _], S3 as [P3 _]. cbn zeta.
      rewrite (max_last _ _ N1 P3). split; [reflexivity|].
      destruct (Z.leb_spec (Zval p) (Zval hi)); [lia|].
      rewrite andb_false_r. discriminate.
    + (* within the interval *)
      assert (N1 : nonpositive_number (sub lo p)).
      { destruct (Z.compare_spec (Zval lo) (Zval p)); [now right | left; tauto | lia]. }
      assert (N3 : nonpositive_number (sub p hi)).
      { destruct (Z.compare_spec (Zval p) (Zval hi)); [now right | left; tauto | lia]. }
      cbn zeta. rewrite (max_nonpositive _ _ N1 N3). split; [|reflexivity].
      symmetry. now apply mul_zero_zero.
Qed.

End Binary64.

Import Binary64.

(** ** Facts about the handlers *)

(** Case analysis on the next [match] of the goal whose scrutinee has no
    [match] inside. *)
Ltac destr :=
  match goal with
  | |- context [match ?c with _ => _ end] =>
      lazymatch c with
      | context [match _ with _ => _ end] => fail
      | _ => destruct c eqn:?
      end
  end.

Ltac unfold_m :=
  unfold bind, emit, get, ret, modify, lift, throw, try_catch, call_method in *.

Ltac run_handler :=
  unfold exec, handle, onPointerDown, onDragMove, onDragEnd, onWheelScroll,
    onTouchStart, onTouchMove, onTouchEnd, _debouncedSavePosition,
    clearTimeout, setTimeout;
  unfold_m; repeat (cbn; try destr).

(** A list of effects that is given, or read off the goal, is quiet. *)
Ltac quiet_tac :=
  first [ exists []; rewrite app_nil_r; split; [reflexivity | repeat split]
        | eexists; split; [reflexivity | repeat split] ].

(** *** Traces *)

Lemma added_ext s s' l : trace s' = trace s ++ l -> added s s' = l.
Proof.
  intros E. unfold added. rewrite E, skipn_app, Nat.sub_diag, skipn_all.
  reflexivity.
Qed.

Lemma added_log s l : added s (log l s) = l.
Proof. now apply added_ext. Qed.

Lemma save_calls_app l1 l2 :
  save_calls (l1 ++ l2) = (save_calls l1 + save_calls l2)%nat.
Proof. unfold save_calls. now rewrite filter_app, length_app. Qed.

Lemma check_calls_app l1 l2 :
  check_calls (l1 ++ l2) = (check_calls l1 + check_calls l2)%nat.
Proof. unfold check_calls. now rewrite filter_app, length_app. Qed.

Lemma storage_calls_app l1 l2 :
  storage_calls (l1 ++ l2) = (storage_calls l1 + storage_calls l2)%nat.
Proof. unfold storage_calls. now rewrite filter_app, length_app. Qed.

Lemma quiet_app l1 l2 : quiet l1 -> quiet l2 -> quiet (l1 ++ l2).
Proof.
  unfold quiet. rewrite save_calls_app, check_calls_app, storage_calls_app. lia.
Qed.

Lemma carried_app l1 l2 : carried (l1 ++ l2) = carried l1 ++ carried l2.
Proof. unfold carried. apply flat_map_app. Qed.

Lemma quiet_carried l : quiet l -> carried l = [].
Proof.
  intros (_ & _ & H). induction l as [|e l IH]; [reflexivity|].
  unfold storage_calls in *. destruct e; cbn in *; try (apply IH; assumption).
  discriminate.
Qed.

Lemma point_eta p : mkPoint (x p) (y p) = p.
Proof. now destruct p. Qed.

(** *** The save routine *)

(** [_savePositionAfterInteraction] returns normally and changes nothing
    but the trace; it calls the storage collaborator at most once, with
    the position and scale of the current model, and does call it when
    the model and its path are set and the four numbers are finite. *)
Lemma save_spec host s :
  exists rest,
    _savePositionAfterInteraction host s
      = (Returned tt, log (Call_savePositionAfterInteraction :: rest) s) /\
    save_calls rest = 0%nat /\ check_calls rest = 0%nat /\
    (storage_calls rest <= 1)%nat /\
    (carried rest = [] \/
     exists r, currentModel (this s) = Some r /\
       carried rest = [(position (models s r), scale (models s r))]) /\
    (forall r p, currentModel (this s) = Some r ->
       truthy_path (_lastLoadedModelPath (this s)) = Some p ->
       all_finite (models s r) = true ->
       carried rest = [(position (models s r), scale (models s r))]).
Proof.
  unfold _savePositionAfterInteraction, all_finite. unfold_m. unfold log.
  repeat (cbn; try destr);
  rewrite <- ?app_assoc; cbn;
  eexists; (split; [reflexivity|]); cbn; rewrite ?point_eta;
  do 3 (split; [first [reflexivity | lia]|]);
  (split; [first [now left | right; eexists; split; reflexivity] |]);
  intros r' p' Hr Hp Hf; try discriminate;
  try (injection Hr as <-); try reflexivity.
  all: rewrite !andb_true_iff in Hf; destruct Hf as (((F1 & F2) & F3) & F4);
       rewrite F1, F2, F3, F4 in *; discriminate.
Qed.

(** C6.  An invocation of the post-interaction save with a position or
    scale component that is not a finite number is skipped entirely: the
    routine returns having done nothing but being entered.  The storage
    collaborator is not called, the host is not queried, no timer is
    armed, and nothing is left that would call again. *)
Theorem save_skipped_when_not_finite host s r :
  currentModel (this s) = Some r ->
  all_finite (models s r) = false ->
  _savePositionAfterInteraction host s
    = (Returned tt, log [Call_savePositionAfterInteraction] s) /\
  storage_calls (added s (snd (_savePositionAfterInteraction host s))) = 0%nat /\
  timers (snd (_savePositionAfterInteraction host s)) = timers s.
Proof.
  intros Hc Hf.
  assert (E : _savePositionAfterInteraction host s
              = (Returned tt, log [Call_savePositionAfterInteraction] s)).
  { unfold _savePositionAfterInteraction. unfold_m. unfold log. cbn.
    rewrite Hc. destruct (truthy_path _); [|reflexivity]. cbn.
    unfold all_finite in Hf.
    destruct (isFinite (x (position (models s r)))),
             (isFinite (y (position (models s r)))),
             (isFinite (x (scale (models s r)))),
             (isFinite (y (scale (models s r))));
      cbn in *; try discriminate; reflexivity. }
  rewrite E. cbn [snd]. rewrite added_log. repeat split.
Qed.

(** The position [{x: NaN, y: 0}] never reaches the storage. *)
Lemma save_skipped_when_not_finite_witness :
  let s := state_with (mkPoint NaN zero) (mkPoint (of_Z 1) (of_Z 1)) in
  _savePositionAfterInteraction browser_host s
    = (Returned tt, log [Call_savePositionAfterInteraction] s) /\
  storage_calls (added s (snd (_savePositionAfterInteraction browser_host s)))
    = 0%nat /\
  timers (snd (_savePositionAfterInteraction browser_host s)) = timers s.
Proof.
  apply (save_skipped_when_not_finite browser_host _ 0%nat); reflexivity.
Defined.

Arguments _savePositionAfterInteraction : simpl never.

(** *** The relocation check *)

Ltac use_save_spec :=
  match goal with
  | |- context [_savePositionAfterInteraction ?h ?st] =>
      let rest := fresh "rest" in
      let E := fresh "E" in
      let C := fresh "Carried" in
      destruct (save_spec h st) as (rest & E & ? & ? & ? & _ & C);
      rewrite E; clear E
  end.

Lemma storage_calls_carried l : List.length (carried l) = storage_calls l.
Proof.
  unfold storage_calls. induction l as [|e l IH]; [reflexivity|].
  destruct e; cbn; try exact IH. now rewrite <- IH.
Qed.

(** [_checkAndSwitchDisplay] returns normally; it saves exactly when it
    reports a switch, as its last step, and without a switch it changes
    nothing but the trace. *)
Lemma check_spec host model s :
  exists b rest s',
    _checkAndSwitchDisplay host model s = (Returned b, s') /\
    trace s' = trace s ++ Call_checkAndSwitchDisplay :: rest /\
    check_calls rest = 0%nat /\
    save_calls rest = (if b then 1 else 0)%nat /\
    (storage_calls rest <= (if b then 1 else 0))%nat /\
    (b = false -> s' = log (Call_checkAndSwitchDisplay :: rest) s) /\
    this s' = this s /\ timers s' = timers s /\
    (b = true -> forall r p,
       currentModel (this s') = Some r ->
       truthy_path (_lastLoadedModelPath (this s')) = Some p ->
       all_finite (models s' r) = true ->
       carried rest = [(position (models s' r), scale (models s' r))]).
Proof.
  unfold _checkAndSwitchDisplay. unfold_m. unfold log.
  repeat (cbn; try use_save_spec; try destr); unfold log; cbn;
  rewrite <- ?app_assoc; cbn;
  do 3 eexists; (split; [reflexivity|]); cbn;
  (split; [rewrite <- ?app_assoc; cbn; reflexivity|]);
  rewrite ?save_calls_app, ?check_calls_app, ?storage_calls_app; cbn;
  do 3 (split; [unfold save_calls, check_calls, storage_calls in *; lia|]);
  (split; [first [reflexivity | discriminate]|]);
  do 2 (split; [reflexivity|]);
  try discriminate.
  all: intros _ r' p' Hr Hp Hf;
       match goal with C : forall r p, _ -> _ -> _ -> carried _ = _ |- _ =>
         exact (C r' p' Hr Hp Hf) end.
Qed.

Arguments _checkAndSwitchDisplay : simpl never.

(** *** The end of a drag *)

(** C1.  A drag that is in progress when pointer-up or pointer-cancel
    arrives ends with exactly one call of the save routine.  The handler
    clears the drag flag, restores the cursor and the buttons, and runs
    the relocation check first; the check saves once itself when it
    reports a display switch and not at all otherwise; the generic save
    runs after it if and only if it reported no switch.  So the relocation
    check is entered once, the save routine once, and the storage
    collaborator is called at most once; it is called exactly once, with
    the final position and scale, when the model path is set and these
    are finite. *)
Theorem drag_end_saves_exactly_once host model s :
  isDragging (drag s) = true ->
  let s0 := log [DisableButtonEventPropagation]
              (log [SetCursor grab] (set_drag (set_isDragging false) s)) in
  exists (displaySwitched : bool) (s1 s' : State)
         (relocation generic : list Effect),
    onDragEnd host model s = (Returned tt, s') /\
    _checkAndSwitchDisplay host model s0 = (Returned displaySwitched, s1) /\
    trace s1 = trace s0 ++ Call_checkAndSwitchDisplay :: relocation /\
    trace s' = trace s1 ++ generic /\
    check_calls relocation = 0%nat /\ check_calls generic = 0%nat /\
    save_calls relocation = (if displaySwitched then 1 else 0)%nat /\
    save_calls generic = (if displaySwitched then 0 else 1)%nat /\
    (if displaySwitched then s' = s1
     else _savePositionAfterInteraction host s1 = (Returned tt, s')) /\
    check_calls (added s s') = 1%nat /\
    save_calls (added s s') = 1%nat /\
    (storage_calls (added s s') <= 1)%nat /\
    (forall r path,
        currentModel (this s') = Some r ->
        truthy_path (_lastLoadedModelPath (this s')) = Some path ->
        all_finite (models s' r) = true ->
        carried (added s s') = [(position (models s' r), scale (models s' r))]).
Proof.
  intros Hd s0.
  destruct (check_spec host model s0)
    as (b & rel & s1 & E1 & T1 & C1 & S1 & St1 & F1 & _ & _ & K1).
  assert (E : onDragEnd host model s
              = if b then (Returned tt, s1)
                else _savePositionAfterInteraction host s1).
  { unfold onDragEnd. unfold_m. cbn. rewrite Hd. cbn.
    fold (set_isDragging false (drag s)).
    change (mkState _ _ _ _ _ _ _ _) with s0.
    rewrite E1. now destruct b. }
  assert (T0 : trace s0
               = trace s ++ [SetCursor grab; DisableButtonEventPropagation]).
  { unfold s0, log. cbn. now rewrite <- app_assoc. }
  destruct b.
  - exists true, s1, s1, rel, []. rewrite app_nil_r.
    assert (Tr : trace s1
                 = trace s ++ [SetCursor grab; DisableButtonEventPropagation]
                   ++ Call_checkAndSwitchDisplay :: rel).
    { rewrite T1, T0. now rewrite <- app_assoc. }
    rewrite (added_ext _ _ _ Tr).
    split; [exact E|]. split; [exact E1|]. split; [exact T1|].
    rewrite check_calls_app, save_calls_app, storage_calls_app.
    rewrite C1, S1.
    do 9 (split; [first [reflexivity
                        | unfold check_calls, save_calls, storage_calls in *;
                          cbn in St1 |- *; lia]|]).
    intros r path Hr Hp Hf. exact (K1 eq_refl r path Hr Hp Hf).
  - destruct (save_spec host s1) as (gen & E2 & S2 & C2 & St2 & _ & K2).
    exists false, s1, (log (Call_savePositionAfterInteraction :: gen) s1), rel,
      (Call_savePositionAfterInteraction :: gen).
    assert (Tr : trace (log (Call_savePositionAfterInteraction :: gen) s1)
                 = trace s ++ [SetCursor grab; DisableButtonEventPropagation]
                   ++ (Call_checkAndSwitchDisplay :: rel)
                   ++ Call_savePositionAfterInteraction :: gen).
    { unfold log at 1. cbn [trace]. rewrite T1, T0. now rewrite <- !app_assoc. }
    rewrite (added_ext _ _ _ Tr).
    split; [now rewrite E|]. split; [exact E1|]. split; [exact T1|].
    split; [reflexivity|].
    assert (Crel : carried rel = []).
    { apply length_zero_iff_nil. rewrite storage_calls_carried. cbn in St1. lia. }
    rewrite !check_calls_app, !save_calls_app, !storage_calls_app.
    change (check_calls (Call_savePositionAfterInteraction :: gen))
      with (check_calls gen).
    change (save_calls (Call_savePositionAfterInteraction :: gen))
      with (S (save_calls gen)).
    change (storage_calls (Call_savePositionAfterInteraction :: gen))
      with (storage_calls gen).
    change (check_calls (Call_checkAndSwitchDisplay :: rel))
      with (S (check_calls rel)).
    change (save_calls (Call_checkAndSwitchDisplay :: rel))
      with (save_calls rel).
    change (storage_calls (Call_checkAndSwitchDisplay :: rel))
      with (storage_calls rel).
    rewrite C1, S1, S2, C2.
    do 8 (split; [first [reflexivity | assumption
                        | unfold check_calls, save_calls, storage_calls in *;
                          cbn in St1 |- *; lia]|]).
    intros r path Hr Hp Hf.
    rewrite !carried_app.
    change (carried (Call_checkAndSwitchDisplay :: rel)) with (carried rel).
    change (carried (Call_savePositionAfterInteraction :: gen))
      with (carried gen).
    rewrite Crel. cbn [app carried flat_map].
    exact (K2 r path Hr Hp Hf).
Qed.

Lemma drag_end_saves_exactly_once_witness :
  let s0 := log [DisableButtonEventPropagation]
              (log [SetCursor grab]
                   (set_drag (set_isDragging false) dragging_state)) in
  exists (displaySwitched : bool) (s1 s' : State)
         (relocation generic : list Effect),
    onDragEnd desktop_host 0%nat dragging_state = (Returned tt, s') /\
    _checkAndSwitchDisplay desktop_host 0%nat s0
      = (Returned displaySwitched, s1) /\
    trace s1 = trace s0 ++ Call_checkAndSwitchDisplay :: relocation /\
    trace s' = trace s1 ++ generic /\
    check_calls relocation = 0%nat /\ check_calls generic = 0%nat /\
    save_calls relocation = (if displaySwitched then 1 else 0)%nat /\
    save_calls generic = (if displaySwitched then 0 else 1)%nat /\
    (if displaySwitched then s' = s1
     else _savePositionAfterInteraction desktop_host s1 = (Returned tt, s')) /\
    check_calls (added dragging_state s') = 1%nat /\
    save_calls (added dragging_state s') = 1%nat /\
    (storage_calls (added dragging_state s') <= 1)%nat /\
    (forall r path,
        currentModel (this s') = Some r ->
        truthy_path (_lastLoadedModelPath (this s')) = Some path ->
        all_finite (models s' r) = true ->
        carried (added dragging_state s')
        = [(position (models s' r), scale (models s' r))]).
Proof.
  apply (drag_end_saves_exactly_once desktop_host 0%nat dragging_state).
  reflexivity.
Defined.

(** The two outcomes on concrete hosts.  In the browser there is no
    relocation and the generic save stores the dragged position; on the
    desktop the window moves to the right display and the only save is the
    one of the relocation, with the new display origin. *)
Example drag_end_in_browser :
  trace (exec (onDragEnd browser_host 0%nat) dragging_state)
  = [SetCursor grab; DisableButtonEventPropagation;
     Call_checkAndSwitchDisplay;
     Call_savePositionAfterInteraction;
     SaveUserPreferences "m.json" (mkPoint (of_Z 10) (of_Z 20))
                         (mkPoint (of_Z 1) (of_Z 1)) None].
Proof. vm_compute. reflexivity. Qed.

Example drag_end_on_desktop :
  trace (exec (onDragEnd desktop_host 0%nat) dragging_state)
  = [SetCursor grab; DisableButtonEventPropagation;
     Call_checkAndSwitchDisplay; GetAllDisplays; GetCurrentDisplay;
     MoveWindowToDisplay (of_Z 900) (of_Z 200);
     Call_savePositionAfterInteraction; GetCurrentDisplay;
     SaveUserPreferences "m.json" (mkPoint (of_Z 100) (of_Z 200))
                         (mkPoint (of_Z 1) (of_Z 1))
                         (Some (mkDisplayInfo (of_Z 0) (of_Z 0)))].
Proof. vm_compute. reflexivity. Qed.

(** *** Drag gestures, event by event *)

Lemma handle_all_app host model l1 l2 s :
  handle_all host model (l1 ++ l2) s
  = handle_all host model l2 (handle_all host model l1 s).
Proof. unfold handle_all. apply fold_left_app. Qed.

(** A single-contact [pointerdown] on an unlocked model starts a drag and
    captures the offset between pointer and model origin. *)
Lemma pointerdown_step host model s touches g :
  isLocked (this s) = false -> multi_touch touches = false ->
  let s' := exec (handle host model (pointerdown touches g)) s in
  isDragging (drag s') = true /\
  dragStartPos (drag s')
    = mkPoint (sub (x g) (x (position (models s model))))
              (sub (y g) (y (position (models s model)))) /\
  models s' = models s /\
  trace s' = trace s ++ [SetCursor grabbing; EnableButtonEventPropagation].
Proof.
  intros Hl Hm. unfold exec, handle, onPointerDown. unfold_m. cbn.
  rewrite Hl, Hm. cbn. rewrite <- app_assoc. auto.
Qed.

(** A single-contact move of a drag puts the model at the pointer minus
    the captured offset, and does nothing else. *)
Lemma single_move_step host model s e :
  single_contact_move e = true -> isDragging (drag s) = true ->
  let s' := exec (handle host model e) s in
  drag s' = drag s /\
  position (models s' model)
    = dragged_to (dragStartPos (drag s)) e (position (models s model)) /\
  trace s' = trace s.
Proof.
  destruct e; try discriminate. cbn [single_contact_move]. intros Hm Hd.
  apply negb_true_iff in Hm.
  unfold exec, handle, onDragMove. unfold_m. cbn. rewrite Hd, Hm. cbn.
  rewrite Nat.eqb_refl. cbn. auto.
Qed.

(** The events of a second contact leave the drag state and the position
    of the model alone, and neither check nor save. *)
Lemma second_contact_step host model s e :
  second_contact_event e = true ->
  let s' := exec (handle host model e) s in
  drag s' = drag s /\
  position (models s' model) = position (models s model) /\
  exists l, trace s' = trace s ++ l /\ quiet l.
Proof.
  destruct e; try discriminate; cbn [second_contact_event]; intros He.
  - unfold exec, handle, onPointerDown. unfold_m. cbn. rewrite He.
    destruct (isLocked (this s)); cbn;
      (split; [reflexivity | split; [reflexivity | quiet_tac]]).
  - run_handler; (split; [reflexivity | split; [reflexivity | quiet_tac]]).
  - run_handler; (split; [reflexivity | split; [reflexivity | quiet_tac]]).
Qed.

(** Through the events of a gesture the drag stays on, and the model is
    where the last single-contact move put it. *)
Lemma gesture_fold host model body : forall s,
  forallb gesture_event body = true -> isDragging (drag s) = true ->
  let s1 := handle_all host model body s in
  drag s1 = drag s /\
  position (models s1 model)
    = position_after (dragStartPos (drag s)) body (position (models s model)) /\
  exists l, trace s1 = trace s ++ l /\ quiet l.
Proof.
  induction body as [|e body IH] using rev_ind; intros s Hall Hd.
  - cbn. repeat split. exists []. rewrite app_nil_r. repeat split.
  - rewrite forallb_app in Hall. apply andb_true_iff in Hall as [Hall He].
    cbn in He. rewrite andb_true_r in He.
    rewrite handle_all_app. cbn [handle_all fold_left].
    destruct (IH s Hall Hd) as (D1 & P1 & l1 & T1 & Q1).
    fold (handle_all host model body s) in *.
    unfold position_after. rewrite rev_app_distr. cbn [rev app find].
    unfold gesture_event in He.
    destruct (single_contact_move e) eqn:Hs.
    + destruct (single_move_step host model (handle_all host model body s) e Hs)
        as (D2 & P2 & T2); [congruence|].
      split; [congruence|]. split.
      * rewrite P2, D1. destruct e; try discriminate. reflexivity.
      * exists l1. split; [congruence | exact Q1].
    + cbn in He.
      destruct (second_contact_step host model
                  (handle_all host model body s) e He)
        as (D2 & P2 & l2 & T2 & Q2).
      split; [congruence|]. split.
      * rewrite P2, P1. reflexivity.
      * exists (l1 ++ l2). split; [|now apply quiet_app].
        rewrite T2, T1. now rewrite app_assoc.
Qed.

(** A move that reports more than one touch during a drag clears the drag
    flag, restores the cursor and returns before the model is moved. *)
Lemma interrupt_step host model s touches cX cY :
  multi_touch touches = true -> isDragging (drag s) = true ->
  exec (handle host model (pointermove touches cX cY)) s
  = log [SetCursor grab] (set_drag (set_isDragging false) s).
Proof.
  intros Hm Hd. unfold exec, handle, onDragMove. unfold_m. cbn.
  now rewrite Hd, Hm.
Qed.

(** With no drag in progress, pointer-up and pointer-cancel do nothing. *)
Lemma drag_end_idle host model s e :
  drag_end_event e = true -> isDragging (drag s) = false ->
  handle host model e s = (Returned tt, s).
Proof.
  intros He Hd. destruct e; try discriminate;
    unfold handle, onDragEnd; unfold_m; cbn; now rewrite Hd.
Qed.

Lemma ends_fold host model ups : forall s,
  forallb drag_end_event ups = true -> isDragging (drag s) = false ->
  handle_all host model ups s = s.
Proof.
  induction ups as [|e ups IH]; intros s Hall Hd; [reflexivity|].
  cbn in Hall. apply andb_true_iff in Hall as [He Hall].
  cbn [handle_all fold_left]. unfold exec.
  rewrite (drag_end_idle host model s e He Hd). cbn. now apply IH.
Qed.

(** C7.  A drag is started with a single contact and goes on through
    single-contact moves; a second contact appears (its touch events and
    its own pointer-down arrive, in any order among the moves), and then
    a move reports more than one touch.  Before that move the model is
    exactly where the last single-contact move put it: at that move's
    pointer position minus the offset captured at pointer-down (or where
    it was, if there was no such move).  The interrupting move turns the
    drag off and does not move the model. *)
Theorem interrupted_drag_keeps_position host model s touches g body
    touches2 cX cY :
  isLocked (this s) = false ->
  multi_touch touches = false ->
  forallb gesture_event body = true ->
  multi_touch touches2 = true ->
  let start := mkPoint (sub (x g) (x (position (models s model))))
                       (sub (y g) (y (position (models s model)))) in
  let s1 := handle_all host model (pointerdown touches g :: body) s in
  let s2 := exec (handle host model (pointermove touches2 cX cY)) s1 in
  isDragging (drag s1) = true /\
  position (models s1 model)
    = position_after start body (position (models s model)) /\
  position (models s2 model) = position (models s1 model) /\
  isDragging (drag s2) = false.
Proof.
  intros Hl Hm Hbody Hm2 start s1 s2.
  destruct (pointerdown_step host model s touches g Hl Hm) as (D0 & S0 & M0 & T0).
  destruct (gesture_fold host model body _ Hbody D0) as (D1 & P1 & l1 & T1 & Q1).
  assert (E1 : s1 = handle_all host model body
                      (exec (handle host model (pointerdown touches g)) s))
    by reflexivity.
  rewrite <- E1 in *.
  assert (Hd1 : isDragging (drag s1) = true) by congruence.
  split; [exact Hd1|]. split.
  - rewrite P1, S0, M0. reflexivity.
  - unfold s2. rewrite interrupt_step by assumption. cbn. split; reflexivity.
Qed.

(** Down at (15,25) on a model at (10,20), a move to (100,200), a second
    finger, one more single-contact move to (110,200), and a two-touch
    move to (300,300): the model stays at (105,195). *)
Lemma interrupted_drag_keeps_position_witness :
  let two := [touch_at 110 200; touch_at 400 400] in
  let s1 := handle_all browser_host 0%nat
              [pointerdown (Some [touch_at 15 25]) (mkPoint (of_Z 15) (of_Z 25));
               pointermove None (of_Z 100) (of_Z 200);
               touchstart two;
               pointermove None (of_Z 110) (of_Z 200)] idle_state in
  let s2 := exec (handle browser_host 0%nat
                    (pointermove (Some two) (of_Z 300) (of_Z 300))) s1 in
  isDragging (drag s1) = true /\
  position (models s1 0%nat) = mkPoint (of_Z 105) (of_Z 195) /\
  position (models s2 0%nat) = position (models s1 0%nat) /\
  isDragging (drag s2) = false.
Proof.
  apply (interrupted_drag_keeps_position browser_host 0%nat idle_state
           (Some [touch_at 15 25]) (mkPoint (of_Z 15) (of_Z 25))
           [pointermove None (of_Z 100) (of_Z 200);
            touchstart [touch_at 110 200; touch_at 400 400];
            pointermove None (of_Z 110) (of_Z 200)]
           (Some [touch_at 110 200; touch_at 400 400]) (of_Z 300) (of_Z 300));
    reflexivity.
Defined.

(** C10.  A drag cancelled by a second contact never settles.  The move
    that cancels it clears the drag flag, so the pointer-up and
    pointer-cancel events that follow find no drag in progress and do
    nothing at all: over the whole gesture, from pointer-down to the last
    pointer-up, the relocation check is never entered, the save routine
    is never entered and the storage collaborator is never called. *)
Theorem cancelled_drag_never_settles host model s touches g body
    touches2 cX cY ups :
  isLocked (this s) = false ->
  multi_touch touches = false ->
  forallb gesture_event body = true ->
  multi_touch touches2 = true ->
  forallb drag_end_event ups = true ->
  let s2 := handle_all host model
              (pointerdown touches g :: body
                 ++ [pointermove touches2 cX cY]) s in
  let s3 := handle_all host model ups s2 in
  isDragging (drag s2) = false /\
  s3 = s2 /\
  check_calls (added s s3) = 0%nat /\
  save_calls (added s s3) = 0%nat /\
  storage_calls (added s s3) = 0%nat.
Proof.
  intros Hl Hm Hbody Hm2 Hups s2 s3.
  destruct (pointerdown_step host model s touches g Hl Hm) as (D0 & S0 & M0 & T0).
  destruct (gesture_fold host model body _ Hbody D0) as (D1 & P1 & l1 & T1 & Q1).
  assert (E2 : s2 = exec (handle host model (pointermove touches2 cX cY))
            (handle_all host model body
               (exec (handle host model (pointerdown touches g)) s))).
  { unfold s2.
    change (pointerdown touches g :: body ++ [pointermove touches2 cX cY])
      with ([pointerdown touches g] ++ body ++ [pointermove touches2 cX cY]).
    now rewrite !handle_all_app. }
  rewrite interrupt_step in E2 by congruence.
  assert (D3 : isDragging (drag s2) = false) by (rewrite E2; reflexivity).
  assert (E3 : s3 = s2) by (apply ends_fold; assumption).
  split; [exact D3|]. split; [exact E3|].
  assert (T3 : trace s3 = trace s ++
            ([SetCursor grabbing; EnableButtonEventPropagation] ++ l1)
            ++ [SetCursor grab]).
  { rewrite E3, E2. unfold log, set_drag. cbn [trace].
    rewrite T1, T0. now rewrite !app_assoc. }
  rewrite (added_ext _ _ _ T3).
  destruct Q1 as (Q1s & Q1c & Q1t).
  rewrite check_calls_app, save_calls_app, storage_calls_app.
  rewrite check_calls_app, save_calls_app, storage_calls_app.
  rewrite Q1s, Q1c, Q1t. cbn. auto.
Qed.

Lemma cancelled_drag_never_settles_witness :
  let two := [touch_at 100 200; touch_at 400 400] in
  let s2 := handle_all browser_host 0%nat
              (pointerdown (Some [touch_at 15 25]) (mkPoint (of_Z 15) (of_Z 25))
                 :: [pointermove None (of_Z 100) (of_Z 200); touchstart two]
                 ++ [pointermove (Some two) (of_Z 300) (of_Z 300)])
              idle_state in
  let s3 := handle_all browser_host 0%nat [pointerup; pointercancel] s2 in
  isDragging (drag s2) = false /\
  s3 = s2 /\
  check_calls (added idle_state s3) = 0%nat /\
  save_calls (added idle_state s3) = 0%nat /\
  storage_calls (added idle_state s3) = 0%nat.
Proof.
  apply (cancelled_drag_never_settles browser_host 0%nat idle_state
           (Some [touch_at 15 25]) (mkPoint (of_Z 15) (of_Z 25))
           [pointermove None (of_Z 100) (of_Z 200);
            touchstart [touch_at 100 200; touch_at 400 400]]
           (Some [touch_at 100 200; touch_at 400 400]) (of_Z 300) (of_Z 300)
           [pointerup; pointercancel]);
    reflexivity.
Defined.

(** *** Drag and pinch together *)

(** The drag flag and the zoom flag can be true together: a pointer-down
    with one touch starts the drag, and the touch-start of the second
    finger starts the pinch without cancelling the drag. *)
Lemma drag_and_zoom_flags_both_true :
  let s := handle_all browser_host 0%nat
             [pointerdown (Some [touch_at 15 25]) (mkPoint (of_Z 15) (of_Z 25));
              touchstart [touch_at 15 25; touch_at 400 400]]
             idle_state in
  isDragging (drag idle_state) = false /\
  isTouchZooming (zoom idle_state) = false /\
  isDragging (drag s) = true /\ isTouchZooming (zoom s) = true.
Proof. vm_compute. repeat split. Qed.

(** C3, as the code has it.  The drag is cancelled by the first
    pointer-move event that reports more than one touch: after such an
    event the drag flag is false in every state.  The touch-start that
    makes the pinch active leaves the drag state as it is, so the two
    flags are true together from then until that move.  A pointer-down
    that reports more than one touch never starts a drag. *)
Theorem multi_touch_move_cancels_drag host model :
  (forall s touches cX cY,
      multi_touch touches = true ->
      isDragging (drag (exec (handle host model (pointermove touches cX cY)) s))
        = false) /\
  (forall s touches,
      drag (exec (handle host model (touchstart touches)) s) = drag s) /\
  (forall s touches g,
      multi_touch touches = true ->
      exec (handle host model (pointerdown touches g)) s = s).
Proof.
  split; [|split].
  - intros s touches cX cY Hm. unfold exec, handle, onDragMove. unfold_m. cbn.
    destruct (isDragging (drag s)) eqn:Hd; cbn; [now rewrite Hm | exact Hd].
  - intros s touches. run_handler; reflexivity.
  - intros s touches g Hm. unfold exec, handle, onPointerDown. unfold_m. cbn.
    rewrite Hm. now destruct (isLocked (this s)).
Qed.

Lemma multi_touch_move_cancels_drag_witness :
  let two := Some [touch_at 15 25; touch_at 400 400] in
  isDragging (drag (exec (handle browser_host 0%nat
                            (pointermove two (of_Z 300) (of_Z 300)))
                         dragging_state)) = false /\
  exec (handle browser_host 0%nat (pointerdown two (mkPoint (of_Z 15) (of_Z 25))))
       idle_state = idle_state.
Proof.
  split.
  - apply (proj1 (multi_touch_move_cancels_drag browser_host 0%nat)).
    reflexivity.
  - apply (proj2 (proj2 (multi_touch_move_cancels_drag browser_host 0%nat))).
    reflexivity.
Defined.

(** *** The debounced save *)

(** A wheel event on an unlocked, loaded model writes [wheelScale] on
    both axes, cancels the pending save timer if there is one and arms a
    new one, due 500 ms from now. *)
Lemma wheel_step s d r :
  isLocked (this s) = false -> currentModel (this s) = Some r ->
  single_slot s ->
  let s' := exec (onWheelScroll d) s in
  timers s' = [mkTimer (nextTimer s) (now s + 500)] /\
  _savePositionDebounceTimer (this s') = Some (nextTimer s) /\
  isLocked (this s') = false /\ currentModel (this s') = Some r /\
  _lastLoadedModelPath (this s') = _lastLoadedModelPath (this s) /\
  now s' = now s /\
  models s' r = scale_set (wheelScale d (x (scale (models s r)))) (models s r) /\
  exists l, trace s' = trace s ++ l /\ quiet l.
Proof.
  intros Hl Hc Hs. unfold single_slot in Hs.
  unfold exec, onWheelScroll, _debouncedSavePosition, clearTimeout, setTimeout.
  unfold_m. cbn. rewrite Hl, Hc. cbn.
  destruct (timers s) as [|tm [|tm' tl]] eqn:Ht; [| |contradiction].
  - destruct (_savePositionDebounceTimer (this s)); cbn; rewrite ?Ht; cbn;
      rewrite ?Nat.eqb_refl;
      repeat (split; [first [reflexivity | assumption]|]);
      rewrite <- ?app_assoc; quiet_tac.
  - rewrite Hs. cbn. rewrite ?Ht. cbn. rewrite Pos.eqb_refl. cbn.
    rewrite ?Nat.eqb_refl.
    repeat (split; [first [reflexivity | assumption]|]);
    rewrite <- ?app_assoc; quiet_tac.
Qed.

Lemma filter_none {A} (f : A -> bool) l :
  (forall a, In a l -> f a = false) -> filter f l = [].
Proof.
  induction l as [|a l IH]; intros H; [reflexivity|]. cbn.
  rewrite (H a (or_introl eq_refl)). apply IH. intros b I. apply H. now right.
Qed.

Lemma filter_all {A} (f : A -> bool) l :
  (forall a, In a l -> f a = true) -> filter f l = l.
Proof.
  induction l as [|a l IH]; intros H; [reflexivity|]. cbn.
  rewrite (H a (or_introl eq_refl)). f_equal. apply IH.
  intros b I. apply H. now right.
Qed.

(** While no timer is due, time passing changes the clock only. *)
Lemma advance_idle host t s :
  (forall tm, In tm (timers s) -> t < due tm) ->
  advance host t s = set_now (Z.max (now s) t) s.
Proof.
  intros H. unfold advance.
  assert (D : forall tm, In tm (timers s) -> is_due t tm = false).
  { intros tm I. apply H in I. unfold is_due. apply Z.leb_gt. lia. }
  rewrite filter_none by exact D.
  unfold set_timers. rewrite filter_all by (intros tm I; now rewrite D).
  cbn. destruct s; reflexivity.
Qed.

Lemma dispatch_wheel host model r s t d :
  isLocked (this s) = false -> currentModel (this s) = Some r ->
  single_slot s -> now s <= t ->
  (forall tm, In tm (timers s) -> t < due tm) ->
  let s' := dispatch host model (t, wheel d) s in
  armed r t s' /\
  models s' r = scale_set (wheelScale d (x (scale (models s r)))) (models s r) /\
  _lastLoadedModelPath (this s') = _lastLoadedModelPath (this s) /\
  exists l, trace s' = trace s ++ l /\ quiet l.
Proof.
  intros Hl Hc Hs Hn Hd. unfold dispatch. cbn [fst snd handle].
  rewrite advance_idle by exact Hd.
  destruct (wheel_step (set_now (Z.max (now s) t) s) d r Hl Hc Hs)
    as (W1 & W2 & W3 & W4 & W5 & W6 & W7 & W8).
  cbn [now set_now nextTimer] in *.
  repeat split; try assumption.
  - rewrite W6. lia.
  - eexists. split; [exact W1|]. cbn. split; [|exact W2]. lia.
Qed.

Lemma armed_ready r tprev s t :
  armed r tprev s -> tprev <= t < tprev + 500 ->
  isLocked (this s) = false /\ currentModel (this s) = Some r /\
  single_slot s /\ now s <= t /\ (forall tm, In tm (timers s) -> t < due tm).
Proof.
  intros (Hl & Hc & Hn & tm & Ht & Hd & Hf) Hr. unfold single_slot.
  rewrite Ht. repeat split; try assumption; try lia.
  intros tm' [<-|[]]. lia.
Qed.

(** Through a burst the timer is re-armed by every event and never
    fires. *)
Lemma burst_run host model r l : forall s tprev,
  armed r tprev s -> burst tprev l ->
  let s' := run host model (wheel_events l) s in
  armed r (last_time tprev l) s' /\
  position (models s' r) = position (models s r) /\
  x (scale (models s' r)) = burstScale l (x (scale (models s r))) /\
  (l <> [] -> y (scale (models s' r)) = x (scale (models s' r))) /\
  _lastLoadedModelPath (this s') = _lastLoadedModelPath (this s) /\
  exists eff, trace s' = trace s ++ eff /\ quiet eff.
Proof.
  induction l as [|[t d] l IH]; intros s tprev Ha Hb.
  - cbn. split; [exact Ha|]. do 2 (split; [reflexivity|]).
    split; [congruence|]. split; [reflexivity|].
    exists []. rewrite app_nil_r. repeat split.
  - destruct Hb as [Hr Hb].
    destruct (armed_ready r tprev s t Ha Hr) as (Hl & Hc & Hs & Hn & Hd).
    destruct (dispatch_wheel host model r s t d Hl Hc Hs Hn Hd)
      as (A1 & M1 & P1 & l1 & T1 & Q1).
    destruct (IH (dispatch host model (t, wheel d) s) t A1 Hb)
      as (A2 & Pos2 & X2 & Y2 & P2 & l2 & T2 & Q2).
    change (run host model (wheel_events ((t, d) :: l)) s)
      with (run host model (wheel_events l) (dispatch host model (t, wheel d) s)).
    change (last_time tprev ((t, d) :: l)) with (last_time t l).
    change (burstScale ((t, d) :: l) (x (scale (models s r))))
      with (burstScale l (wheelScale d (x (scale (models s r))))).
    split; [exact A2|]. split; [rewrite Pos2, M1; reflexivity|].
    split; [rewrite X2, M1; reflexivity|].
    split.
    + intros _. destruct l as [|td l']; [|apply Y2; discriminate].
      cbn. rewrite M1. reflexivity.
    + split; [congruence|]. exists (l1 ++ l2). split; [|now apply quiet_app].
      rewrite T2, T1. now rewrite app_assoc.
Qed.

(** Once 500 ms have passed since the last event the timer fires, once. *)
Lemma advance_fire host r t s T :
  armed r t s -> t + 500 <= T ->
  let s' := advance host T s in
  timers s' = [] /\ models s' = models s /\
  exists rest,
    trace s' = trace s ++ Call_savePositionAfterInteraction :: rest /\
    save_calls rest = 0%nat /\
    (carried rest = [] \/
     carried rest = [(position (models s r), scale (models s r))]) /\
    (forall p, truthy_path (_lastLoadedModelPath (this s)) = Some p ->
       all_finite (models s r) = true ->
       carried rest = [(position (models s r), scale (models s r))]).
Proof.
  intros (Hl & Hc & Hn & tm & Ht & Hd & Hf) HT.
  unfold advance. rewrite Ht. cbn [filter].
  assert (D : is_due T tm = true) by (unfold is_due; apply Z.leb_le; lia).
  rewrite D. cbn [fold_left negb].
  unfold fire, savePositionTimerCallback, exec, try_catch.
  match goal with
  | |- context [_savePositionAfterInteraction host ?st] =>
      destruct (save_spec host st) as (rest & E & S & _ & _ & C1 & C2);
      rewrite E
  end.
  unfold set_timers, set_now, log in *. cbn in *. rewrite Ht. cbn.
  rewrite D. cbn.
  split; [reflexivity|]. split; [reflexivity|].
  exists rest. split; [reflexivity|]. split; [exact S|]. split.
  - destruct C1 as [C1 | (r' & Hr' & C1)]; [now left | right].
    rewrite Hc in Hr'. now injection Hr' as <-.
  - intros p Hp Hfin. now apply (C2 r p).
Qed.

(** Only a wheel event arms or cancels a timer. *)
Lemma handle_keeps_timers host model e s :
  (forall d, e <> wheel d) ->
  let s' := exec (handle host model e) s in
  timers s' = timers s /\
  _savePositionDebounceTimer (this s') = _savePositionDebounceTimer (this s).
Proof.
  intros Hw. destruct e.
  - run_handler; split; reflexivity.
  - unfold exec, handle, onDragEnd. unfold_m. cbn.
    destruct (isDragging (drag s)); [|split; reflexivity]. cbn.
    match goal with
    | |- context [_checkAndSwitchDisplay host model ?st] =>
        destruct (check_spec host model st)
          as (b & rel & s1 & E1 & _ & _ & _ & _ & _ & Th & Ti & _);
        rewrite E1
    end.
    destruct b; cbn; [now rewrite Th, Ti|].
    destruct (save_spec host s1) as (gen & E2 & _). rewrite E2. cbn.
    now rewrite Th, Ti.
  - unfold exec, handle, onDragEnd. unfold_m. cbn.
    destruct (isDragging (drag s)); [|split; reflexivity]. cbn.
    match goal with
    | |- context [_checkAndSwitchDisplay host model ?st] =>
        destruct (check_spec host model st)
          as (b & rel & s1 & E1 & _ & _ & _ & _ & _ & Th & Ti & _);
        rewrite E1
    end.
    destruct b; cbn; [now rewrite Th, Ti|].
    destruct (save_spec host s1) as (gen & E2 & _). rewrite E2. cbn.
    now rewrite Th, Ti.
  - run_handler; split; reflexivity.
  - exfalso. now apply (Hw deltaY).
  - run_handler; split; reflexivity.
  - run_handler; split; reflexivity.
  - unfold exec, handle, onTouchEnd. unfold_m.
    destruct (List.length touches <? 2)%nat; [|split; reflexivity]. cbn.
    destruct (isTouchZooming (zoom s)); [|split; reflexivity].
    destruct (save_spec host s) as (gen & E2 & _). rewrite E2. cbn.
    split; reflexivity.
Qed.

(** The single-slot discipline holds in every state the event loop
    reaches from a state in which it holds, such as one with no timer. *)
Lemma single_slot_handle host model e s :
  single_slot s -> single_slot (exec (handle host model e) s).
Proof.
  intros Hs.
  assert (Hk : (forall d, e <> wheel d) ->
               single_slot (exec (handle host model e) s)).
  { intros Hw. destruct (handle_keeps_timers host model e s Hw) as [Ht Hf].
    unfold single_slot in *. cbn zeta in Ht, Hf. now rewrite Ht, Hf. }
  destruct e; try (apply Hk; discriminate).
  cbn [handle].
  destruct (isLocked (this s)) eqn:Hl.
  { unfold exec, onWheelScroll. unfold_m. cbn. rewrite Hl. exact Hs. }
  destruct (currentModel (this s)) as [r|] eqn:Hc.
  - destruct (wheel_step s deltaY r Hl Hc Hs) as (W1 & W2 & _).
    unfold single_slot. now rewrite W1, W2.
  - unfold exec, onWheelScroll. unfold_m. cbn. rewrite Hl, Hc. exact Hs.
Qed.

Lemma single_slot_advance host t s :
  single_slot s -> single_slot (advance host t s).
Proof.
  unfold single_slot, advance. intros Hs.
  destruct (timers s) as [|tm [|tm' tl]] eqn:Ht; [| |contradiction].
  - cbn. rewrite Ht. cbn. exact I.
  - cbn [filter]. destruct (is_due t tm) eqn:D; cbn [negb fold_left].
    + unfold fire, savePositionTimerCallback, exec, try_catch.
      match goal with
      | |- context [_savePositionAfterInteraction host ?st] =>
          destruct (save_spec host st) as (rest & E & _); rewrite E
      end.
      cbn. rewrite Ht. cbn. rewrite D. cbn. exact I.
    + cbn. rewrite Ht. cbn. rewrite D. cbn. exact Hs.
Qed.

Lemma single_slot_run host model tes : forall s,
  single_slot s -> single_slot (run host model tes s).
Proof.
  induction tes as [|te tes IH]; intros s Hs; [exact Hs|].
  cbn [run fold_left]. apply IH. unfold dispatch.
  now apply single_slot_handle, single_slot_advance.
Qed.

(** C8.  A burst of wheel events on an unlocked, loaded model, each less
    than 500 ms after the one before, followed by 500 ms of quiet.
    Events are handled at their times and a timer fires when it is due;
    the burst starts in a state of the single-slot discipline (every
    reachable state is one) in which no timer is due yet.
    During the burst the save routine is never entered and exactly one
    timer is pending at the end, due 500 ms after the last event: every
    event cancels the pending timer and arms one.  After the quiet the
    save routine has been entered exactly once and no timer is pending;
    a call of the storage collaborator carries the scale the last event
    of the burst produced, and there is exactly such a call when the
    model path is set and position and scale are finite. *)
Theorem wheel_burst_saves_once host model s r t0 d0 rest T :
  isLocked (this s) = false ->
  currentModel (this s) = Some r ->
  single_slot s ->
  now s <= t0 ->
  (forall tm, In tm (timers s) -> t0 < due tm) ->
  burst t0 rest ->
  last_time t0 rest + 500 <= T ->
  let events := (t0, d0) :: rest in
  let v := burstScale events (x (scale (models s r))) in
  let s1 := run host model (wheel_events events) s in
  let s2 := advance host T s1 in
  (exists tm, timers s1 = [tm] /\ due tm = last_time t0 rest + 500) /\
  save_calls (added s s1) = 0%nat /\
  scale (models s1 r) = mkPoint v v /\
  timers s2 = [] /\
  save_calls (added s s2) = 1%nat /\
  (forall p sc, In (p, sc) (carried (added s s2)) -> sc = mkPoint v v) /\
  (forall path,
      truthy_path (_lastLoadedModelPath (this s)) = Some path ->
      all_finite (models s1 r) = true ->
      carried (added s s2) = [(position (models s r), mkPoint v v)]).
Proof.
  intros Hl Hc Hs Hn Hd Hb HT events v s1 s2.
  destruct (dispatch_wheel host model r s t0 d0 Hl Hc Hs Hn Hd)
    as (A0 & M0 & P0 & l0 & T0 & Q0).
  destruct (burst_run host model r rest _ t0 A0 Hb)
    as (A1 & Pos1 & X1 & Y1 & P1 & l1 & T1 & Q1).
  change (run host model (wheel_events rest)
            (dispatch host model (t0, wheel d0) s)) with s1 in *.
  assert (Hv : x (scale (models s1 r)) = v).
  { rewrite X1, M0. reflexivity. }
  assert (Hy : y (scale (models s1 r)) = v).
  { destruct rest as [|td rest'].
    - unfold s1. cbn. rewrite M0. reflexivity.
    - rewrite Y1 by discriminate. exact Hv. }
  assert (Hsc : scale (models s1 r) = mkPoint v v).
  { rewrite <- (point_eta (scale (models s1 r))). now rewrite Hv, Hy. }
  assert (Hpos : position (models s1 r) = position (models s r)).
  { rewrite Pos1, M0. reflexivity. }
  assert (Tr1 : trace s1 = trace s ++ (l0 ++ l1)).
  { rewrite T1, T0. now rewrite app_assoc. }
  assert (Q01 : quiet (l0 ++ l1)) by now apply quiet_app.
  destruct (advance_fire host r _ s1 T A1 HT)
    as (F1 & F2 & more & T2 & S2 & C2 & C3).
  fold s2 in F1, F2, T2.
  assert (Tr2 : trace s2
                = trace s ++ (l0 ++ l1)
                    ++ Call_savePositionAfterInteraction :: more).
  { rewrite T2, Tr1. now rewrite <- app_assoc. }
  split.
  { destruct A1 as (_ & _ & _ & tm & Htm & Hdue & _). now exists tm. }
  split; [rewrite (added_ext _ _ _ Tr1); apply Q01|].
  split; [exact Hsc|]. split; [exact F1|].
  rewrite (added_ext _ _ _ Tr2).
  split.
  { rewrite save_calls_app. destruct Q01 as (-> & _). cbn.
    unfold save_calls in S2. now rewrite S2. }
  rewrite carried_app, (quiet_carried _ Q01). cbn [app carried flat_map].
  fold (carried more). rewrite Hsc, Hpos in *.
  split.
  - intros p sc I. destruct C2 as [C2|C2]; rewrite C2 in I; [contradiction|].
    destruct I as [I|[]]. now injection I as _ <-.
  - intros path Hp Hfin. apply (C3 path); [congruence | exact Hfin].
Qed.

(** Three wheel events at 0, 100 and 450 ms, then quiet until 1000 ms:
    one save, with the scale 1 * 1.1 * 1.1 / 1.1. *)
Lemma wheel_burst_saves_once_witness :
  let events := [(0, of_Z (-1)); (100, of_Z (-1)); (450, of_Z 1)] in
  let v := div (mul (mul (of_Z 1) lit_1_1) lit_1_1) lit_1_1 in
  let s1 := run browser_host 0%nat (wheel_events events) idle_state in
  let s2 := advance browser_host 1000 s1 in
  (exists tm, timers s1 = [tm] /\ due tm = 950) /\
  save_calls (added idle_state s1) = 0%nat /\
  scale (models s1 0%nat) = mkPoint v v /\
  timers s2 = [] /\
  save_calls (added idle_state s2) = 1%nat /\
  carried (added idle_state s2) = [(mkPoint (of_Z 10) (of_Z 20), mkPoint v v)].
Proof.
  assert (B : burst 0 [(100, of_Z (-1)); (450, of_Z 1)]) by (cbn; lia).
  assert (Q : last_time 0 [(100, of_Z (-1)); (450, of_Z 1)] + 500 <= 1000)
    by (cbn; lia).
  destruct (wheel_burst_saves_once browser_host 0%nat idle_state 0%nat
              0 (of_Z (-1)) [(100, of_Z (-1)); (450, of_Z 1)] 1000
              eq_refl eq_refl I (Z.le_refl 0)
              (fun tm (H : In tm []) => match H with end) B Q)
    as (H1 & H2 & H3 & H4 & H5 & _ & H7).
  split; [exact H1|]. split; [exact H2|]. split; [exact H3|].
  split; [exact H4|]. split; [exact H5|].
  apply (H7 "m.json"%string); reflexivity.
Defined.

(** *** Pinch zoom *)

Lemma ltb_leb a b : SFltb a b = true -> SFleb a b = true.
Proof. unfold SFltb, SFleb. now destruct (SFcompare a b) as [[]|]. Qed.

(** [Math.max(0.1, Math.min(2.0, v))] lies in [0.1, 2.0] for every [v]
    that is a number, infinite or not; a NaN goes through unchanged. *)
Lemma clamp_in_range v :
  isNaN v = false ->
  le lit_0_1 (Math_max [lit_0_1; Math_min [lit_2_0; v]]) = true /\
  le (Math_max [lit_0_1; Math_min [lit_2_0; v]]) lit_2_0 = true.
Proof.
  intros Hv.
  assert (Emin : Math_min [lit_2_0; v] = if lt v lit_2_0 then v else lit_2_0).
  { unfold Math_min. cbn [existsb isNaN lit_2_0 orb]. rewrite Hv.
    cbn [fold_left]. now destruct v as [[]|[]| |[] m e]. }
  rewrite Emin.
  destruct (lt v lit_2_0) eqn:L2.
  - assert (Emax : Math_max [lit_0_1; v] = if gt v lit_0_1 then v else lit_0_1).
    { unfold Math_max. cbn [existsb isNaN lit_0_1 orb]. rewrite Hv.
      cbn [fold_left]. now destruct v as [[]|[]| |[] m e]. }
    rewrite Emax. destruct (gt v lit_0_1) eqn:L1.
    + split; [apply ltb_leb; exact L1 | apply ltb_leb; exact L2].
    + split; reflexivity.
  - split; reflexivity.
Qed.

Lemma clamp_NaN : Math_max [lit_0_1; Math_min [lit_2_0; NaN]] = NaN.
Proof. reflexivity. Qed.

(** The scale a two-finger move writes is the clamped product whenever
    that product is a number. *)
Lemma pinchScale_in_range initialScale initialDistance currentDistance :
  isNaN (mul initialScale (div currentDistance initialDistance)) = false ->
  le lit_0_1 (pinchScale initialScale initialDistance currentDistance) = true /\
  le (pinchScale initialScale initialDistance currentDistance) lit_2_0 = true.
Proof. intros H. unfold pinchScale. now apply clamp_in_range. Qed.

(** A baseline distance of zero with the fingers apart is clamped: the
    ratio is infinite and the scale written is 2.0. *)
Example pinch_zero_baseline_fingers_apart :
  pinchScale (of_Z 1) zero (of_Z 5) = lit_2_0.
Proof. reflexivity. Qed.

(** C2, where the code departs from it.  Two touches start a pinch at
    the same point, so the baseline distance is 0; a two-finger move
    arrives with the touches still at one point, so the current distance
    is 0 as well.  The ratio 0 / 0 is NaN, [Math.min] and [Math.max]
    return NaN, and the scale written to the model is NaN on both axes:
    it is not in [0.1, 2.0]. *)
Theorem pinch_zero_baseline_writes_NaN :
  let same := [touch_at 100 100; touch_at 100 100] in
  let s1 := exec (handle browser_host 0%nat (touchstart same)) idle_state in
  let s2 := exec (handle browser_host 0%nat (touchmove same)) s1 in
  isTouchZooming (zoom s1) = true /\
  initialDistance (zoom s1) = zero /\
  initialScale (zoom s1) = of_Z 1 /\
  pinchScale (of_Z 1) zero zero = NaN /\
  scale (models s2 0%nat) = mkPoint NaN NaN /\
  le lit_0_1 (x (scale (models s2 0%nat))) = false /\
  le (x (scale (models s2 0%nat))) lit_2_0 = false.
Proof. vm_compute. repeat split. Qed.

(** *** Wheel zoom *)

(** What a wheel event does to the model, whatever the timers are. *)
Lemma wheel_models s d r :
  isLocked (this s) = false -> currentModel (this s) = Some r ->
  let s' := exec (onWheelScroll d) s in
  isLocked (this s') = false /\ currentModel (this s') = Some r /\
  models s' r = scale_set (wheelScale d (x (scale (models s r)))) (models s r).
Proof.
  intros Hl Hc.
  unfold exec, onWheelScroll, _debouncedSavePosition, clearTimeout, setTimeout.
  unfold_m. cbn. rewrite Hl, Hc. cbn.
  destruct (_savePositionDebounceTimer (this s)); cbn; rewrite Nat.eqb_refl;
    repeat split; assumption.
Qed.

Lemma wheels_fold host model r deltas : forall s,
  isLocked (this s) = false -> currentModel (this s) = Some r ->
  x (scale (models (handle_all host model (map wheel deltas) s) r))
  = fold_left (fun v d => wheelScale d v) deltas (x (scale (models s r))).
Proof.
  induction deltas as [|d deltas IH]; intros s Hl Hc; [reflexivity|].
  destruct (wheel_models s d r Hl Hc) as (Hl' & Hc' & M).
  cbn [map handle_all fold_left handle].
  change (fold_left (fun s0 e => exec (handle host model e) s0)
            (map wheel deltas) (exec (onWheelScroll d) s))
    with (handle_all host model (map wheel deltas) (exec (onWheelScroll d) s)).
  rewrite (IH _ Hl' Hc'), M. reflexivity.
Qed.

Lemma positive_number_gt a : positive_number a -> gt a zero = true.
Proof. destruct a as [[]|[]| |[] m e]; cbn; intros H; try contradiction; reflexivity. Qed.

Lemma gt_positive_number a :
  wf a = true -> gt a zero = true -> positive_number a.
Proof.
  destruct a as [[]|[]| |[] m e]; cbn; intros V H; try discriminate; try exact I.
  apply bounded_inv in V. lia.
Qed.

Lemma wheelScale_positive d v :
  positive_number v -> positive_number (wheelScale d v).
Proof.
  intros H. unfold wheelScale.
  destruct (lt d zero); [now apply mul_1_1_positive | now apply div_1_1_positive].
Qed.

Lemma wheelScale_fold_positive deltas : forall v,
  positive_number v ->
  positive_number (fold_left (fun v d => wheelScale d v) deltas v).
Proof.
  induction deltas as [|d deltas IH]; intros v H; [exact H|].
  cbn [fold_left]. apply IH. now apply wheelScale_positive.
Qed.

(** Wheel events alone take the scale from 1 to +Infinity, and there a
    wheel event with a negative delta multiplies by 1.1 and leaves the
    scale as it is: it does not strictly increase. *)
Lemma wheel_up_stalls_at_infinity :
  let s := state_with (mkPoint zero zero) (mkPoint Infinity Infinity) in
  let s' := exec (onWheelScroll (of_Z (-1))) s in
  wheel_repeat 7500 (of_Z (-1)) (of_Z 1) = Infinity /\
  lt (of_Z (-1)) zero = true /\
  gt (x (scale (models s 0%nat))) zero = true /\
  x (scale (models s' 0%nat)) = mul (x (scale (models s 0%nat))) lit_1_1 /\
  x (scale (models s' 0%nat)) = x (scale (models s 0%nat)) /\
  lt (x (scale (models s 0%nat))) (x (scale (models s' 0%nat))) = false.
Proof. vm_compute. repeat split. Qed.

(** C5, as the code has it.  A wheel event handled on an unlocked, loaded
    model writes one scale on both axes.  With a negative delta it is the
    old scale times 1.1, and strictly larger for every positive normal
    old scale (from 2^-1022 to the largest finite value; the product may
    be +Infinity).  With a positive delta it is the old scale divided by
    1.1, and strictly smaller for every positive normal old scale.  From
    a positive scale, every sequence of wheel events leaves the scale
    strictly positive. *)
Theorem wheel_scale_moves_and_stays_positive host model s r deltaY deltas :
  isLocked (this s) = false ->
  currentModel (this s) = Some r ->
  let old := x (scale (models s r)) in
  let s' := exec (onWheelScroll deltaY) s in
  let new := x (scale (models s' r)) in
  scale (models s' r) = mkPoint new new /\
  (lt deltaY zero = true ->
     new = mul old lit_1_1 /\
     (normal_positive old = true -> lt old new = true)) /\
  (gt deltaY zero = true ->
     new = div old lit_1_1 /\
     (normal_positive old = true -> lt new old = true)) /\
  (wf old = true -> gt old zero = true ->
     gt (x (scale (models (handle_all host model (map wheel deltas) s) r))) zero
     = true).
Proof.
  intros Hl Hc old s' new.
  destruct (wheel_models s deltaY r Hl Hc) as (_ & _ & M).
  assert (En : new = wheelScale deltaY old) by (unfold new, s'; now rewrite M).
  split; [unfold new, s'; now rewrite M|].
  split; [|split].
  - intros Hd. rewrite En. unfold wheelScale. rewrite Hd.
    split; [reflexivity|]. apply mul_1_1_increases.
  - intros Hd. rewrite En. unfold wheelScale.
    assert (Hn : lt deltaY zero = false).
    { unfold gt, lt, SFltb in *.
      destruct deltaY as [[]|[]| |[] m e]; cbn in *; congruence. }
    rewrite Hn. split; [reflexivity|]. apply div_1_1_decreases.
  - intros Hw Hp. rewrite (wheels_fold host model r deltas s Hl Hc).
    apply positive_number_gt, wheelScale_fold_positive.
    now apply gt_positive_number.
Qed.

Lemma wheel_scale_moves_and_stays_positive_witness :
  let s' := exec (onWheelScroll (of_Z (-1))) idle_state in
  let new := x (scale (models s' 0%nat)) in
  scale (models s' 0%nat) = mkPoint new new /\
  new = mul (of_Z 1) lit_1_1 /\
  lt (of_Z 1) new = true /\
  gt (x (scale (models
        (handle_all browser_host 0%nat
           (map wheel [of_Z 1; of_Z (-1); of_Z 1; of_Z 1]) idle_state) 0%nat)))
     zero = true.
Proof.
  destruct (wheel_scale_moves_and_stays_positive browser_host 0%nat idle_state
              0%nat (of_Z (-1)) [of_Z 1; of_Z (-1); of_Z 1; of_Z 1]
              eq_refl eq_refl) as (H1 & H2 & _ & H4).
  destruct (H2 eq_refl) as [H2a H2b].
  split; [exact H1|]. split; [exact H2a|]. split; [exact (H2b eq_refl)|].
  exact (H4 eq_refl eq_refl).
Defined.

(** Wheel events alone take the scale from 1 down to 5 * 2^-1074, and
    there a wheel event with a delta of zero divides by 1.1 and leaves
    the scale as it is: it does not strictly decrease. *)
Lemma zero_delta_stalls_at_tiny_scale :
  let tiny := S754_finite false 5 (-1074) in
  let s := state_with (mkPoint zero zero) (mkPoint tiny tiny) in
  let s' := exec (onWheelScroll zero) s in
  wheel_repeat 18000 (of_Z 1) (of_Z 1) = tiny /\
  wf tiny = true /\ gt tiny zero = true /\
  x (scale (models s' 0%nat)) = div (x (scale (models s 0%nat))) lit_1_1 /\
  x (scale (models s' 0%nat)) = x (scale (models s 0%nat)) /\
  lt (x (scale (models s' 0%nat))) (x (scale (models s 0%nat))) = false.
Proof. vm_compute. repeat split. Qed.

(** C9, as the code has it.  A wheel event whose delta is exactly zero
    (of either sign), handled on an unlocked, loaded model, takes the
    branch that divides: the scale written on both axes is the old scale
    divided by 1.1.  It is strictly smaller than the old scale for every
    positive normal old scale (from 2^-1022 to the largest finite
    value). *)
Theorem wheel_zero_delta_divides s r deltaY :
  isLocked (this s) = false ->
  currentModel (this s) = Some r ->
  is_zero deltaY ->
  let old := x (scale (models s r)) in
  let s' := exec (onWheelScroll deltaY) s in
  let new := x (scale (models s' r)) in
  scale (models s' r) = mkPoint new new /\
  new = div old lit_1_1 /\
  (normal_positive old = true -> lt new old = true).
Proof.
  intros Hl Hc Hz old s' new.
  destruct (wheel_models s deltaY r Hl Hc) as (_ & _ & M).
  assert (En : new = div old lit_1_1).
  { unfold new, s'. rewrite M. cbn. unfold wheelScale.
    destruct deltaY as [[]|[]| |[] m e]; try contradiction; reflexivity. }
  split; [unfold new, s'; now rewrite M|].
  split; [exact En|].
  rewrite En. apply div_1_1_decreases.
Qed.

Lemma wheel_zero_delta_divides_witness :
  let s' := exec (onWheelScroll negzero) idle_state in
  let new := x (scale (models s' 0%nat)) in
  scale (models s' 0%nat) = mkPoint new new /\
  new = div (of_Z 1) lit_1_1 /\
  lt new (of_Z 1) = true.
Proof.
  destruct (wheel_zero_delta_divides idle_state 0%nat negzero eq_refl eq_refl I)
    as (H1 & H2 & H3).
  split; [exact H1|]. split; [exact H2|]. exact (H3 eq_refl).
Defined.

(** *** Proximity *)

Lemma not_le_lt a b :
  finite_wf a = true -> finite_wf b = true -> le a b = false -> lt b a = true.
Proof.
  intros Ha Hb. rewrite le_Zval, lt_Zval by assumption.
  intros H. apply Z.leb_gt in H. apply Z.ltb_lt. exact H.
Qed.

Lemma not_le_gt a b :
  finite_wf a = true -> finite_wf b = true -> le a b = false -> gt a b = true.
Proof. exact (not_le_lt a b). Qed.

(** Outside the box, the nearest point of the box lies on its boundary. *)
Lemma nearestPoint_on_boundary bounds pointer :
  well_formed_box bounds = true ->
  finite_wf (x pointer) = true -> finite_wf (y pointer) = true ->
  inside bounds pointer = false ->
  on_boundary bounds (nearestPoint bounds pointer).
Proof.
  unfold well_formed_box, inside, on_boundary, nearestPoint, nearest_coordinate.
  intros Hb Hx Hy Hi. cbn [x y].
  rewrite !andb_true_iff in Hb.
  destruct Hb as (((((Wl & Wr) & Wt) & Wb) & Lx) & Ly).
  destruct (le (left bounds) (x pointer)) eqn:E1.
  - destruct (le (x pointer) (right bounds)) eqn:E2.
    + destruct (le (top bounds) (y pointer)) eqn:E3.
      * destruct (le (y pointer) (bottom bounds)) eqn:E4; [discriminate|].
        rewrite (not_le_gt _ _ Hy Wb E4).
        destruct (lt (y pointer) (top bounds)); tauto.
      * rewrite (not_le_lt _ _ Wt Hy E3). tauto.
    + rewrite (not_le_gt _ _ Hx Wr E2).
      destruct (lt (x pointer) (left bounds)); tauto.
  - rewrite (not_le_lt _ _ Wl Hx E1). tauto.
Qed.

(** C4.  For a box with finite coordinates and a pointer with finite
    coordinates, the proximity distance of [onPointerMove] is exactly 0
    when the pointer is inside the box or on its boundary; in every case
    it equals the Euclidean distance from the pointer to the nearest
    point of the box, which lies on an edge or at a corner when the
    pointer is outside.  For the box [0,0]-[100,100] the pointer (150,40)
    is at distance 50 and the pointer (150,140) at the square root of
    50^2 + 40^2. *)
Theorem proximity_distance_is_distance_to_box bounds pointer :
  well_formed_box bounds = true ->
  finite_wf (x pointer) = true ->
  finite_wf (y pointer) = true ->
  (inside bounds pointer = true -> proximityDistance bounds pointer = zero) /\
  proximityDistance bounds pointer
    = euclideanDistance pointer (nearestPoint bounds pointer) /\
  (inside bounds pointer = false ->
     on_boundary bounds (nearestPoint bounds pointer)) /\
  proximityDistance box100 (mkPoint (of_Z 150) (of_Z 40)) = of_Z 50 /\
  proximityDistance box100 (mkPoint (of_Z 150) (of_Z 140))
    = sqrt (add (mul (of_Z 50) (of_Z 50)) (mul (of_Z 40) (of_Z 40))).
Proof.
  intros Hb Hx Hy.
  pose proof (nearestPoint_on_boundary bounds pointer Hb Hx Hy) as Hnear.
  unfold well_formed_box in Hb. rewrite !andb_true_iff in Hb.
  destruct Hb as (((((Wl & Wr) & Wt) & Wb) & Lx) & Ly).
  destruct (axis_gap (left bounds) (right bounds) (x pointer) Wl Wr Hx Lx)
    as [Gx Zx].
  destruct (axis_gap (top bounds) (bottom bounds) (y pointer) Wt Wb Hy Ly)
    as [Gy Zy].
  cbn zeta in *.
  split; [|split; [|split; [exact Hnear | split; reflexivity]]].
  - unfold inside. rewrite !andb_true_iff. intros (((I1 & I2) & I3) & I4).
    unfold proximityDistance.
    rewrite Zx by (now rewrite I1, I2). rewrite Zy by (now rewrite I3, I4).
    reflexivity.
  - unfold proximityDistance, euclideanDistance, nearestPoint. cbn [x y].
    now rewrite Gx, Gy.
Qed.

(** The pointer (150,140) is outside the box [0,0]-[100,100]; the nearest
    point is the corner (100,100). *)
Lemma proximity_distance_is_distance_to_box_witness :
  let pointer := mkPoint (of_Z 150) (of_Z 140) in
  inside box100 pointer = false /\
  nearestPoint box100 pointer = mkPoint (of_Z 100) (of_Z 100) /\
  proximityDistance box100 pointer
    = euclideanDistance pointer (mkPoint (of_Z 100) (of_Z 100)) /\
  on_boundary box100 (nearestPoint box100 pointer) /\
  proximityDistance box100 (mkPoint (of_Z 50) (of_Z 100)) = zero.
Proof.
  destruct (proximity_distance_is_distance_to_box box100
              (mkPoint (of_Z 150) (of_Z 140)) eq_refl eq_refl eq_refl)
    as (_ & H2 & H3 & _).
  destruct (proximity_distance_is_distance_to_box box100
              (mkPoint (of_Z 50) (of_Z 100)) eq_refl eq_refl eq_refl)
    as (H1 & _).
  split; [reflexivity|]. split; [reflexivity|]. split; [exact H2|].
  split; [exact (H3 eq_refl) | exact (H1 eq_refl)].
Defined.

(** ** Further properties of the handlers *)

Lemma locked_idle_step host model e s :
  isLocked (this s) = true -> isDragging (drag s) = false ->
  isTouchZooming (zoom s) = false ->
  exec (handle host model e) s = s.
Proof.
  intros Hl Hd Hz. destruct s as [th dr zm md tms nt nw tr].
  destruct zm as [d0 s0 z]. cbn in Hl, Hd, Hz. subst z.
  destruct e; unfold exec, handle, onPointerDown, onDragEnd, onDragMove,
    onWheelScroll, onTouchStart, onTouchMove, onTouchEnd; unfold_m; cbn;
    rewrite ?Hl, ?Hd; cbn; try reflexivity.
  destr; cbn; reflexivity.
Qed.

(** X1.  While the manager is locked and neither a drag nor a pinch is in
    progress, the handlers of [setupDragAndDrop], [setupWheelZoom] and
    [setupTouchZoom] ignore every event: after any sequence of pointer,
    wheel and touch events the state is the one before, and no effect
    was performed (no [preventDefault], no cursor change, no save). *)
Theorem locked_idle_ignores_events host model es : forall s,
  isLocked (this s) = true -> isDragging (drag s) = false ->
  isTouchZooming (zoom s) = false ->
  handle_all host model es s = s.
Proof.
  induction es as [|e es IH]; intros s Hl Hd Hz; [reflexivity|].
  cbn [handle_all fold_left].
  rewrite (locked_idle_step host model e s Hl Hd Hz).
  now apply IH.
Qed.

Lemma locked_idle_ignores_events_witness :
  handle_all browser_host 0%nat
    [pointerdown None (mkPoint (of_Z 15) (of_Z 25));
     pointermove None (of_Z 100) (of_Z 200); pointerup;
     wheel (of_Z 1); touchstart [touch_at 0 0; touch_at 30 40];
     touchmove [touch_at 0 0; touch_at 60 80]; touchend []] locked_state
  = locked_state.
Proof.
  exact (locked_idle_ignores_events browser_host 0%nat
    [pointerdown None (mkPoint (of_Z 15) (of_Z 25));
     pointermove None (of_Z 100) (of_Z 200); pointerup;
     wheel (of_Z 1); touchstart [touch_at 0 0; touch_at 30 40];
     touchmove [touch_at 0 0; touch_at 60 80]; touchend []] locked_state
    eq_refl eq_refl eq_refl).
Defined.

Lemma no_model_step host model e s :
  currentModel (this s) = None -> isTouchZooming (zoom s) = false ->
  zoom_event e = true ->
  exec (handle host model e) s = s.
Proof.
  intros Hc Hz He. destruct s as [th dr zm md tms nt nw tr].
  destruct zm as [d0 s0 z]. cbn in Hc, Hz. subst z.
  destruct e; try discriminate;
    unfold exec, handle, onWheelScroll, onTouchStart, onTouchMove, onTouchEnd;
    unfold_m; cbn; rewrite ?Hc; cbn;
    try (destruct (isLocked th); reflexivity).
  destr; cbn; reflexivity.
Qed.

(** X2.  While no model is loaded and no pinch is in progress, the wheel
    and touch listeners of the canvas ignore every event: after any
    sequence of wheel, touch-start, touch-move and touch-end events the
    state is the one before, and no effect was performed (no
    [preventDefault], no timer, no save). *)
Theorem zoom_without_model_does_nothing host model es : forall s,
  currentModel (this s) = None -> isTouchZooming (zoom s) = false ->
  forallb zoom_event es = true ->
  handle_all host model es s = s.
Proof.
  induction es as [|e es IH]; intros s Hc Hz Hes; [reflexivity|].
  cbn in Hes. apply andb_true_iff in Hes as [He Hes].
  cbn [handle_all fold_left].
  rewrite (no_model_step host model e s Hc Hz He).
  now apply IH.
Qed.

Lemma zoom_without_model_does_nothing_witness :
  handle_all browser_host 0%nat
    [wheel (of_Z 1); touchstart [touch_at 0 0; touch_at 30 40];
     touchmove [touch_at 0 0; touch_at 60 80]; touchend []; wheel (of_Z (-1))]
    empty_state
  = empty_state.
Proof.
  exact (zoom_without_model_does_nothing browser_host 0%nat
    [wheel (of_Z 1); touchstart [touch_at 0 0; touch_at 30 40];
     touchmove [touch_at 0 0; touch_at 60 80]; touchend []; wheel (of_Z (-1))]
    empty_state eq_refl eq_refl eq_refl).
Defined.

(** *** What reaches the storage *)

Lemma truthy_path_inv p path :
  truthy_path p = Some path -> p = Some path /\ path <> EmptyString.
Proof.
  destruct p as [[|c p]|]; cbn; intros H; try discriminate.
  injection H as <-. split; [reflexivity | discriminate].
Qed.

Lemma displayInfo_of_finite d i :
  displayInfo_of d = Some i ->
  isFinite (info_screenX i) = true /\ isFinite (info_screenY i) = true.
Proof.
  unfold displayInfo_of.
  repeat (cbn; try destr); intros H; try discriminate;
    injection H as <-; cbn;
    match goal with
    | H : (_ && _)%bool = true |- _ => apply andb_true_iff in H; exact H
    end.
Qed.

Lemma save_storable host s :
  exists rest,
    _savePositionAfterInteraction host s
      = (Returned tt, log (Call_savePositionAfterInteraction :: rest) s) /\
    Forall (storable (this s)) rest /\ Forall save_effect rest.
Proof.
  unfold _savePositionAfterInteraction. unfold_m. unfold log.
  destruct (currentModel (this s)) as [r|] eqn:Hc; cbn; rewrite ?Hc; cbn;
    [|exists []; split; [reflexivity | split; constructor]].
  destruct (truthy_path (_lastLoadedModelPath (this s))) as [path|] eqn:Hp;
    cbn; [|exists []; split; [reflexivity | split; constructor]].
  apply truthy_path_inv in Hp as [Hp Hne].
  destruct (negb (isFinite (x (position (models s r)))) ||
            negb (isFinite (y (position (models s r)))) ||
            negb (isFinite (x (scale (models s r)))) ||
            negb (isFinite (y (scale (models s r)))))%bool eqn:Hf; cbn;
    [exists []; split; [reflexivity | split; constructor]|].
  rewrite !orb_false_iff, !negb_false_iff in Hf.
  destruct Hf as (((F1 & F2) & F3) & F4).
  assert (Hm : currentModel (this s) <> None) by (rewrite Hc; discriminate).
  repeat (cbn; try destr); rewrite <- ?app_assoc; cbn;
    (eexists; split; [reflexivity|]);
    (split; [|repeat (constructor; cbn; auto)]);
    repeat (constructor; cbn; auto);
    repeat (split; [assumption|]); auto.
  destruct (displayInfo_of d) as [i|] eqn:Hi; [|exact I].
  now apply displayInfo_of_finite in Hi.
Qed.

Ltac use_save_storable :=
  match goal with
  | |- context [_savePositionAfterInteraction ?h ?st] =>
      let rest := fresh "rest" in
      let E := fresh "E" in
      let V := fresh "Valid" in
      let O := fresh "Only" in
      destruct (save_storable h st) as (rest & E & V & O);
      rewrite E; clear E
  end.

Lemma storable_ext th th' e :
  currentModel th' = currentModel th ->
  _lastLoadedModelPath th' = _lastLoadedModelPath th ->
  storable th e -> storable th' e.
Proof. intros H1 H2. destruct e; cbn; try tauto. now rewrite H1, H2. Qed.

Lemma Forall_storable_ext th th' l :
  currentModel th' = currentModel th ->
  _lastLoadedModelPath th' = _lastLoadedModelPath th ->
  Forall (storable th) l -> Forall (storable th') l.
Proof.
  intros H1 H2. apply Forall_impl. intros e. now apply storable_ext.
Qed.

Lemma check_storable host model s :
  exists b rest s',
    _checkAndSwitchDisplay host model s = (Returned b, s') /\
    trace s' = trace s ++ rest /\
    Forall (storable (this s)) rest /\
    this s' = this s.
Proof.
  unfold _checkAndSwitchDisplay. unfold_m. unfold log.
  repeat (cbn; try use_save_storable; try destr); unfold log; cbn;
  rewrite <- ?app_assoc; cbn;
  do 3 eexists; (split; [reflexivity|]); cbn;
  (split; [rewrite <- ?app_assoc; cbn; reflexivity|]);
  (split; [|reflexivity]);
  repeat (constructor; cbn; auto).
Qed.

Lemma handle_storable host model e s :
  let s' := exec (handle host model e) s in
  currentModel (this s') = currentModel (this s) /\
  _lastLoadedModelPath (this s') = _lastLoadedModelPath (this s) /\
  exists l, trace s' = trace s ++ l /\ Forall (storable (this s)) l.
Proof.
  destruct e; cbn [handle].
  - run_handler; rewrite <- ?app_assoc;
      (split; [congruence|]); (split; [congruence|]);
      first [ exists []; rewrite app_nil_r; split; [reflexivity|constructor]
            | eexists; split; [reflexivity | repeat (constructor; cbn; auto)] ].
  - unfold exec, onDragEnd. unfold_m. cbn.
    destruct (isDragging (drag s));
      [|do 2 (split; [reflexivity|]); exists []; rewrite app_nil_r;
        split; [reflexivity|constructor]].
    cbn.
    match goal with
    | |- context [_checkAndSwitchDisplay host model ?st] =>
        destruct (check_storable host model st) as (b & rel & s1 & E1 & T1 & V1 & Th1);
        rewrite E1
    end.
    cbn in T1, V1, Th1.
    destruct b; cbn.
    + rewrite Th1. do 2 (split; [reflexivity|]).
      eexists. split; [rewrite T1, <- !app_assoc; reflexivity|].
      repeat (constructor; cbn; auto).
    + destruct (save_storable host s1) as (gen & E2 & V2 & _). rewrite E2. cbn.
      rewrite Th1. do 2 (split; [reflexivity|]).
      eexists. split; [rewrite T1, <- !app_assoc; reflexivity|].
      rewrite Th1 in V2.
      repeat (constructor; cbn; auto).
      apply Forall_app. split; [exact V1|]. constructor; [exact I | exact V2].
  - unfold exec, onDragEnd. unfold_m. cbn.
    destruct (isDragging (drag s));
      [|do 2 (split; [reflexivity|]); exists []; rewrite app_nil_r;
        split; [reflexivity|constructor]].
    cbn.
    match goal with
    | |- context [_checkAndSwitchDisplay host model ?st] =>
        destruct (check_storable host model st) as (b & rel & s1 & E1 & T1 & V1 & Th1);
        rewrite E1
    end.
    cbn in T1, V1, Th1.
    destruct b; cbn.
    + rewrite Th1. do 2 (split; [reflexivity|]).
      eexists. split; [rewrite T1, <- !app_assoc; reflexivity|].
      repeat (constructor; cbn; auto).
    + destruct (save_storable host s1) as (gen & E2 & V2 & _). rewrite E2. cbn.
      rewrite Th1. do 2 (split; [reflexivity|]).
      eexists. split; [rewrite T1, <- !app_assoc; reflexivity|].
      rewrite Th1 in V2.
      repeat (constructor; cbn; auto).
      apply Forall_app. split; [exact V1|]. constructor; [exact I | exact V2].
  - run_handler; rewrite <- ?app_assoc;
      (split; [congruence|]); (split; [congruence|]);
      first [ exists []; rewrite app_nil_r; split; [reflexivity|constructor]
            | eexists; split; [reflexivity | repeat (constructor; cbn; auto)] ].
  - run_handler; rewrite <- ?app_assoc;
      (split; [congruence|]); (split; [congruence|]);
      first [ exists []; rewrite app_nil_r; split; [reflexivity|constructor]
            | eexists; split; [reflexivity | repeat (constructor; cbn; auto)] ].
  - run_handler; rewrite <- ?app_assoc;
      (split; [congruence|]); (split; [congruence|]);
      first [ exists []; rewrite app_nil_r; split; [reflexivity|constructor]
            | eexists; split; [reflexivity | repeat (constructor; cbn; auto)] ].
  - run_handler; rewrite <- ?app_assoc;
      (split; [congruence|]); (split; [congruence|]);
      first [ exists []; rewrite app_nil_r; split; [reflexivity|constructor]
            | eexists; split; [reflexivity | repeat (constructor; cbn; auto)] ].
  - unfold exec, onTouchEnd. unfold_m.
    destruct (List.length touches <? 2)%nat;
      [|do 2 (split; [reflexivity|]); exists []; rewrite app_nil_r;
        split; [reflexivity|constructor]].
    cbn.
    destruct (isTouchZooming (zoom s));
      [|do 2 (split; [reflexivity|]); exists []; rewrite app_nil_r;
        split; [reflexivity|constructor]].
    destruct (save_storable host s) as (gen & E2 & V2 & _). rewrite E2. cbn.
    do 2 (split; [reflexivity|]).
    eexists. split; [reflexivity|]. constructor; [exact I | exact V2].
Qed.

Lemma fire_storable host tm s :
  let s' := fire host tm s in
  this s' = this s /\
  exists l, trace s' = trace s ++ l /\ Forall (storable (this s)) l.
Proof.
  unfold fire, savePositionTimerCallback, exec, try_catch.
  destruct (save_storable host (set_now (Z.max (now s) (due tm)) s))
    as (rest & E & V & _).
  rewrite E. cbn. split; [reflexivity|].
  eexists. split; [reflexivity|]. constructor; [exact I | exact V].
Qed.

Lemma fires_storable host tms : forall s,
  let s' := fold_left (fun s tm => fire host tm s) tms s in
  this s' = this s /\
  exists l, trace s' = trace s ++ l /\ Forall (storable (this s)) l.
Proof.
  induction tms as [|tm tms IH]; intros s; cbn.
  - split; [reflexivity|]. exists []. rewrite app_nil_r. split; constructor.
  - destruct (fire_storable host tm s) as (Th1 & l1 & T1 & V1).
    destruct (IH (fire host tm s)) as (Th2 & l2 & T2 & V2).
    cbn zeta in Th2, T2.
    split; [congruence|]. exists (l1 ++ l2).
    split; [rewrite T2, T1; now rewrite app_assoc|].
    apply Forall_app. split; [exact V1|]. now rewrite <- Th1.
Qed.

Lemma advance_storable host t s :
  let s' := advance host t s in
  this s' = this s /\
  exists l, trace s' = trace s ++ l /\ Forall (storable (this s)) l.
Proof.
  unfold advance.
  destruct (fires_storable host (filter (is_due t) (timers s))
              (set_timers (filter (fun tm => negb (is_due t tm))) s))
    as (Th & l & T & V).
  cbn in *. split; [exact Th|]. exists l. split; [exact T | exact V].
Qed.

Lemma run_storable host model tes : forall s,
  let s' := run host model tes s in
  currentModel (this s') = currentModel (this s) /\
  _lastLoadedModelPath (this s') = _lastLoadedModelPath (this s) /\
  exists l, trace s' = trace s ++ l /\ Forall (storable (this s)) l.
Proof.
  induction tes as [|[t e] tes IH]; intros s; cbn [run fold_left].
  - do 2 (split; [reflexivity|]). exists []. rewrite app_nil_r.
    split; constructor.
  - change (dispatch host model (t, e) s)
      with (exec (handle host model e) (advance host t s)).
    destruct (advance_storable host t s) as (Th1 & l1 & T1 & V1).
    destruct (handle_storable host model e (advance host t s))
      as (C2 & P2 & l2 & T2 & V2).
    destruct (IH (exec (handle host model e) (advance host t s)))
      as (C3 & P3 & l3 & T3 & V3).
    cbn zeta in *. unfold run in *.
    rewrite Th1 in C2, P2, V2.
    split; [congruence|]. split; [congruence|].
    exists (l1 ++ l2 ++ l3).
    split; [rewrite T3, T2, T1; now rewrite <- !app_assoc|].
    apply Forall_app. split; [exact V1|].
    apply Forall_app. split; [exact V2|].
    now apply (Forall_storable_ext _ _ _ (eq_sym C2) (eq_sym P2)).
Qed.

(** X3.  Whatever the events and whenever they arrive, every call of the
    storage collaborator [saveUserPreferences] carries the path of the
    loaded model, which is not empty, a finite position, a finite scale
    and, when it names a display, a finite display origin; and it is
    made only while a model is loaded. *)
Theorem storage_receives_only_valid_data host model tes s :
  Forall (storable (this s)) (added s (run host model tes s)).
Proof.
  destruct (run_storable host model tes s) as (_ & _ & l & T & V).
  cbn zeta in T. now rewrite (added_ext _ _ _ T).
Qed.

(** *** The relocation check, in detail *)

Lemma save_effect_not_move l :
  Forall save_effect l -> move_calls l = 0%nat.
Proof.
  unfold move_calls. induction 1 as [|e l He _ IH]; [reflexivity|].
  destruct e; cbn in *; try contradiction; exact IH.
Qed.

Lemma save_effect_no_move l X Y :
  Forall save_effect l -> ~ In (MoveWindowToDisplay X Y) l.
Proof.
  intros F I. rewrite Forall_forall in F. exact (F _ I).
Qed.

Lemma relocation_frame host model s :
  exists b rest s',
    _checkAndSwitchDisplay host model s = (Returned b, s') /\
    trace s' = trace s ++ rest /\
    this s' = this s /\ drag s' = drag s /\ zoom s' = zoom s /\
    timers s' = timers s /\
    (forall r, r <> model -> models s' r = models s r) /\
    scale (models s' model) = scale (models s model) /\
    anchor (models s' model) = anchor (models s model) /\
    (b = false -> forall r, models s' r = models s r) /\
    (move_calls rest <= 1)%nat /\
    (b = true -> move_calls rest = 1%nat).
Proof.
  unfold _checkAndSwitchDisplay. unfold_m. unfold log.
  repeat (cbn; try use_save_storable; try destr); unfold log; cbn;
  rewrite <- ?app_assoc; cbn;
  do 3 eexists; (split; [reflexivity|]); cbn;
  (split; [rewrite <- ?app_assoc; cbn; reflexivity|]);
  do 4 (split; [reflexivity|]);
  (split; [intros r Hr; rewrite ?(proj2 (Nat.eqb_neq r model) Hr); reflexivity|]);
  rewrite ?Nat.eqb_refl; cbn;
  do 2 (split; [reflexivity|]);
  (split; [first [discriminate | reflexivity]|]);
  unfold move_calls; cbn;
  try match goal with
      | O : Forall save_effect ?r |- _ =>
          fold (move_calls r); rewrite (save_effect_not_move _ O)
      end;
  (split; [lia|]); first [discriminate | reflexivity].
Qed.

Lemma relocation_move host model s :
  exists b rest s',
    _checkAndSwitchDisplay host model s = (Returned b, s') /\
    trace s' = trace s ++ rest /\
    forall X Y, In (MoveWindowToDisplay X Y) rest ->
    exists es allDisplays currentDisplay bounds displays cur target,
      electronScreen host = Some es /\
      getAllDisplays es = Some allDisplays /\
      getCurrentDisplay es = Some currentDisplay /\
      getBounds host (models s model) = Returned bounds /\
      allDisplays (trace s ++ [Call_checkAndSwitchDisplay; GetAllDisplays])
        = Returned (Some displays) /\
      (2 <= List.length displays)%nat /\
      within_window host (modelCenter bounds) = false /\
      currentDisplay (trace s ++ [Call_checkAndSwitchDisplay; GetAllDisplays;
                                  GetCurrentDisplay])
        = Returned (Some cur) /\
      X = add (to_number (screenX cur)) (x (modelCenter bounds)) /\
      Y = add (to_number (screenY cur)) (y (modelCenter bounds)) /\
      In target displays /\ contains_point X Y target = true.
Proof.
  unfold _checkAndSwitchDisplay. unfold_m. unfold log.
  repeat (cbn; try use_save_storable; try destr); unfold log; cbn;
  rewrite <- ?app_assoc; cbn;
  do 3 eexists; (split; [reflexivity|]); cbn;
  (split; [rewrite <- ?app_assoc; cbn; reflexivity|]);
  intros X Y HI; cbn in HI;
  repeat (destruct HI as [HI|HI]; try discriminate);
  try contradiction;
  try (exfalso; eapply save_effect_no_move; eassumption).
  all: injection HI as <- <-.
  all: repeat match goal with
       | H : context [(_ ++ _) ++ _] |- _ => rewrite <- app_assoc in H; cbn in H
       end.
  all: match goal with
       | H : find_targetDisplay _ _ _ = Some _ |- _ =>
           apply find_some in H; destruct H as [Hin Hcont]
       end.
  all: match goal with
       | H : (_ <=? 1)%nat = false |- _ => apply Nat.leb_gt in H
       end.
  all: do 7 eexists;
       repeat match goal with |- _ /\ _ => split end;
       first [eassumption | reflexivity | lia].
Qed.

(** X4.  [_checkAndSwitchDisplay] always returns a boolean, whatever the
    host answers or throws.  It leaves the manager, the drag and pinch
    state, the timers, every other model and the scale and the anchor of
    its model as they were; when it reports no switch no model has
    changed at all.  It asks the host to move the window at most once,
    and exactly once when it reports a switch. *)
Theorem relocation_changes_only_the_position host model s :
  exists b s',
    _checkAndSwitchDisplay host model s = (Returned b, s') /\
    this s' = this s /\ drag s' = drag s /\ zoom s' = zoom s /\
    timers s' = timers s /\
    (forall r, r <> model -> models s' r = models s r) /\
    scale (models s' model) = scale (models s model) /\
    anchor (models s' model) = anchor (models s model) /\
    (b = false -> forall r, models s' r = models s r) /\
    (move_calls (added s s') <= 1)%nat /\
    (b = true -> move_calls (added s s') = 1%nat).
Proof.
  destruct (relocation_frame host model s)
    as (b & rest & s' & E & T & H).
  exists b, s'. rewrite (added_ext _ _ _ T). split; [exact E | exact H].
Qed.

(** X5.  [_checkAndSwitchDisplay] asks the host to move the window to a
    point only when the multi-monitor API is present, the host lists at
    least two displays, the centre of the model's bounding box is
    outside the window, the point is that centre in screen coordinates
    (the origin of the current display plus the centre) and one of the
    listed displays contains the point. *)
Theorem window_moves_only_onto_a_display host model s X Y :
  In (MoveWindowToDisplay X Y)
     (added s (snd (_checkAndSwitchDisplay host model s))) ->
  exists es allDisplays currentDisplay bounds displays cur target,
    electronScreen host = Some es /\
    getAllDisplays es = Some allDisplays /\
    getCurrentDisplay es = Some currentDisplay /\
    getBounds host (models s model) = Returned bounds /\
    allDisplays (trace s ++ [Call_checkAndSwitchDisplay; GetAllDisplays])
      = Returned (Some displays) /\
    (2 <= List.length displays)%nat /\
    within_window host (modelCenter bounds) = false /\
    currentDisplay (trace s ++ [Call_checkAndSwitchDisplay; GetAllDisplays;
                                GetCurrentDisplay])
      = Returned (Some cur) /\
    X = add (to_number (screenX cur)) (x (modelCenter bounds)) /\
    Y = add (to_number (screenY cur)) (y (modelCenter bounds)) /\
    In target displays /\ contains_point X Y target = true.
Proof.
  destruct (relocation_move host model s) as (b & rest & s' & E & T & H).
  rewrite E. cbn [snd]. rewrite (added_ext _ _ _ T). apply H.
Qed.

Lemma window_moves_only_onto_a_display_witness :
  exists es allDisplays currentDisplay bounds displays cur target,
    electronScreen desktop_host = Some es /\
    getAllDisplays es = Some allDisplays /\
    getCurrentDisplay es = Some currentDisplay /\
    getBounds desktop_host (models idle_state 0%nat) = Returned bounds /\
    allDisplays (trace idle_state ++ [Call_checkAndSwitchDisplay; GetAllDisplays])
      = Returned (Some displays) /\
    (2 <= List.length displays)%nat /\
    within_window desktop_host (modelCenter bounds) = false /\
    currentDisplay (trace idle_state ++ [Call_checkAndSwitchDisplay; GetAllDisplays;
                                GetCurrentDisplay])
      = Returned (Some cur) /\
    of_Z 900 = add (to_number (screenX cur)) (x (modelCenter bounds)) /\
    of_Z 200 = add (to_number (screenY cur)) (y (modelCenter bounds)) /\
    In target displays /\ contains_point (of_Z 900) (of_Z 200) target = true.
Proof.
  apply (window_moves_only_onto_a_display desktop_host 0%nat idle_state
           (of_Z 900) (of_Z 200)).
  vm_compute. auto 10.
Defined.

(** *** What a gesture leaves alone *)

Lemma save_models host s :
  models (snd (_savePositionAfterInteraction host s)) = models s.
Proof.
  destruct (save_storable host s) as (rest & E & _). now rewrite E.
Qed.

Lemma handle_frame host model e s :
  let s' := exec (handle host model e) s in
  (forall r, anchor (models s' r) = anchor (models s r)) /\
  (scales_model e = false ->
   forall r, scale (models s' r) = scale (models s r)) /\
  (moves_model e = false ->
   forall r, position (models s' r) = position (models s r)).
Proof.
  assert (End : forall s,
    let s' := exec (onDragEnd host model) s in
    (forall r, anchor (models s' r) = anchor (models s r)) /\
    (forall r, scale (models s' r) = scale (models s r))).
  { clear s. intros s. unfold exec, onDragEnd. unfold_m. cbn.
    destruct (isDragging (drag s)); [|split; reflexivity]. cbn.
    match goal with
    | |- context [_checkAndSwitchDisplay host model ?st] =>
        destruct (relocation_frame host model st)
          as (b & rel & s1 & E1 & _ & _ & _ & _ & _ & Ho & Hs & Ha & _);
        rewrite E1
    end.
    cbn in Ho, Hs, Ha.
    assert (A1 : forall r, anchor (models s1 r) = anchor (models s r)).
    { intros r. destruct (Nat.eq_dec r model) as [->|N];
        [exact Ha | now rewrite Ho]. }
    assert (S1 : forall r, scale (models s1 r) = scale (models s r)).
    { intros r. destruct (Nat.eq_dec r model) as [->|N];
        [exact Hs | now rewrite Ho]. }
    destruct b; cbn; [split; assumption|].
    destruct (save_storable host s1) as (gen & E2 & _). rewrite E2. cbn.
    split; assumption. }
  destruct e; cbn [handle scales_model moves_model].
  - run_handler; repeat split; reflexivity.
  - destruct (End s) as [A S]. repeat split; auto; discriminate.
  - destruct (End s) as [A S]. repeat split; auto; discriminate.
  - run_handler; (split; [|split]); try discriminate; intros;
      try reflexivity; destruct (Nat.eqb _ model); reflexivity.
  - run_handler; (split; [|split]); try discriminate; intros;
      try reflexivity; destruct (Nat.eqb _ _); reflexivity.
  - run_handler; repeat split; reflexivity.
  - run_handler; (split; [|split]); try discriminate; intros;
      try reflexivity; destruct (Nat.eqb _ _); reflexivity.
  - unfold exec, onTouchEnd. unfold_m.
    destruct (List.length touches <? 2)%nat; [|repeat split; reflexivity].
    cbn. destruct (isTouchZooming (zoom s)); [|repeat split; reflexivity].
    destruct (save_storable host s) as (gen & E2 & _). rewrite E2. cbn.
    repeat split; reflexivity.
Qed.

Lemma fires_models host tms : forall s,
  models (fold_left (fun s tm => fire host tm s) tms s) = models s.
Proof.
  induction tms as [|tm tms IH]; intros s; [reflexivity|]. cbn.
  rewrite IH. unfold fire, savePositionTimerCallback, exec, try_catch.
  destruct (save_storable host (set_now (Z.max (now s) (due tm)) s))
    as (rest & E & _).
  now rewrite E.
Qed.

Lemma advance_models host t s : models (advance host t s) = models s.
Proof. unfold advance. cbn. now rewrite fires_models. Qed.

(** X6.  Over any timed sequence of events, timers included, the handlers
    never change the anchor of a model; they change a scale only when a
    wheel or touch-move event is among the events, and a position only
    when a pointer-move, pointer-up or pointer-cancel event is. *)
Theorem gestures_keep_their_frame host model tes : forall s,
  let s' := run host model tes s in
  (forall r, anchor (models s' r) = anchor (models s r)) /\
  (forallb (fun te => negb (scales_model (snd te))) tes = true ->
   forall r, scale (models s' r) = scale (models s r)) /\
  (forallb (fun te => negb (moves_model (snd te))) tes = true ->
   forall r, position (models s' r) = position (models s r)).
Proof.
  induction tes as [|[t e] tes IH]; intros s; cbn [run fold_left].
  - repeat split; reflexivity.
  - change (dispatch host model (t, e) s)
      with (exec (handle host model e) (advance host t s)).
    destruct (handle_frame host model e (advance host t s)) as (A1 & S1 & P1).
    destruct (IH (exec (handle host model e) (advance host t s)))
      as (A2 & S2 & P2).
    cbn zeta in *. unfold run in *. rewrite advance_models in *.
    cbn [forallb snd].
    split; [intros r; now rewrite A2, A1|].
    split; intros H r; apply andb_true_iff in H as [He Ht];
      apply negb_true_iff in He.
    + now rewrite (S2 Ht), (S1 He).
    + now rewrite (P2 Ht), (P1 He).
Qed.

Lemma gestures_keep_their_frame_witness :
  let drag_gesture :=
    [(0, pointerdown None (mkPoint (of_Z 15) (of_Z 25)));
     (10, pointermove None (of_Z 100) (of_Z 200));
     (20, pointerup)] in
  let pinch_gesture :=
    [(0, touchstart [touch_at 0 0; touch_at 30 40]);
     (10, touchmove [touch_at 0 0; touch_at 60 80]);
     (20, touchend []); (30, wheel (of_Z 1))] in
  (forall r, scale (models (run desktop_host 0%nat drag_gesture idle_state) r)
             = scale (models idle_state r)) /\
  (forall r, position (models (run desktop_host 0%nat pinch_gesture idle_state) r)
             = position (models idle_state r)).
Proof.
  split; intros r.
  - apply (proj1 (proj2 (gestures_keep_their_frame desktop_host 0%nat
       [(0, pointerdown None (mkPoint (of_Z 15) (of_Z 25)));
        (10, pointermove None (of_Z 100) (of_Z 200));
        (20, pointerup)] idle_state))).
    reflexivity.
  - apply (proj2 (proj2 (gestures_keep_their_frame desktop_host 0%nat
       [(0, touchstart [touch_at 0 0; touch_at 30 40]);
        (10, touchmove [touch_at 0 0; touch_at 60 80]);
        (20, touchend []); (30, wheel (of_Z 1))] idle_state))).
    reflexivity.
Defined.

(** *** A pinch gesture *)

Lemma touchstart_step host model s t0 t1 r :
  isLocked (this s) = false -> currentModel (this s) = Some r ->
  exec (handle host model (touchstart [t0; t1])) s
  = log [PreventDefault]
        (set_zoom (fun _ => mkTouchZoomState (getTouchDistance t0 t1)
                              (x (scale (models s r))) true) s).
Proof.
  intros Hl Hc. unfold exec, handle, onTouchStart. unfold_m. cbn.
  now rewrite Hl, Hc.
Qed.

Lemma touchmove_step host model s e r :
  is_touchmove e = true ->
  isLocked (this s) = false -> currentModel (this s) = Some r ->
  isTouchZooming (zoom s) = true ->
  let s' := exec (handle host model e) s in
  this s' = this s /\ zoom s' = zoom s /\
  models s' r = pinched (initialScale (zoom s)) (initialDistance (zoom s))
                        [e] (models s r) /\
  exists l, trace s' = trace s ++ l /\ quiet l.
Proof.
  destruct e; try discriminate. intros _ Hl Hc Hz.
  unfold exec, handle, onTouchMove. unfold_m. cbn. rewrite Hl, Hc, Hz.
  destruct touches as [|t0 [|t1 [|t2 ts]]]; cbn;
    rewrite ?Nat.eqb_refl;
    do 3 (split; [reflexivity|]); quiet_tac.
Qed.

Lemma pinched_app v0 d0 l1 l2 m :
  pinched v0 d0 (l1 ++ l2) m = pinched v0 d0 l2 (pinched v0 d0 l1 m).
Proof. unfold pinched. apply fold_left_app. Qed.

Lemma touchmoves_fold host model r moves : forall s,
  forallb is_touchmove moves = true ->
  isLocked (this s) = false -> currentModel (this s) = Some r ->
  isTouchZooming (zoom s) = true ->
  let s' := handle_all host model moves s in
  this s' = this s /\ zoom s' = zoom s /\
  models s' r = pinched (initialScale (zoom s)) (initialDistance (zoom s))
                        moves (models s r) /\
  exists l, trace s' = trace s ++ l /\ quiet l.
Proof.
  induction moves as [|e moves IH]; intros s Hall Hl Hc Hz.
  - cbn. do 3 (split; [reflexivity|]). exists []. rewrite app_nil_r.
    repeat split.
  - cbn in Hall. apply andb_true_iff in Hall as [He Hall].
    destruct (touchmove_step host model s e r He Hl Hc Hz)
      as (Th1 & Z1 & M1 & l1 & T1 & Q1).
    cbn zeta in *.
    destruct (IH (exec (handle host model e) s) Hall)
      as (Th2 & Z2 & M2 & l2 & T2 & Q2); try congruence.
    cbn zeta in *. cbn [handle_all fold_left].
    fold (handle_all host model moves (exec (handle host model e) s)).
    split; [congruence|]. split; [congruence|]. split.
    + rewrite M2, M1, Z1.
      change (e :: moves) with ([e] ++ moves). now rewrite pinched_app.
    + exists (l1 ++ l2). split; [|now apply quiet_app].
      rewrite T2, T1. now rewrite app_assoc.
Qed.



(** *** The clamp of the pinch *)

Lemma clamp_value v :
  isNaN v = false ->
  Math_max [lit_0_1; Math_min [lit_2_0; v]]
  = if lt v lit_2_0 then (if gt v lit_0_1 then v else lit_0_1) else lit_2_0.
Proof.
  intros Hv.
  assert (Emin : Math_min [lit_2_0; v] = if lt v lit_2_0 then v else lit_2_0).
  { unfold Math_min. cbn [existsb isNaN lit_2_0 orb]. rewrite Hv.
    cbn [fold_left]. now destruct v as [[]|[]| |[] m e]. }
  rewrite Emin. destruct (lt v lit_2_0); [|reflexivity].
  unfold Math_max. cbn [existsb isNaN lit_0_1 orb]. rewrite Hv.
  cbn [fold_left]. now destruct v as [[]|[]| |[] m e].
Qed.

(** X8.  During a pinch a touch-move with two touches writes one value to
    both axes of the scale.  When the product of the baseline scale and
    the ratio of the distances is not NaN, that value lies in
    [0.1, 2.0]: it is the product when the product is strictly between
    the bounds, 0.1 when it is at most 0.1 and 2.0 when it is at least
    2.0, infinite products included. *)
Theorem two_finger_move_clamps_scale host model s r t0 t1 :
  isLocked (this s) = false ->
  currentModel (this s) = Some r ->
  isTouchZooming (zoom s) = true ->
  let product := mul (initialScale (zoom s))
                     (div (getTouchDistance t0 t1) (initialDistance (zoom s))) in
  isNaN product = false ->
  let s' := exec (handle host model (touchmove [t0; t1])) s in
  exists v,
    scale (models s' r) = mkPoint v v /\
    le lit_0_1 v = true /\ le v lit_2_0 = true /\
    v = (if lt product lit_2_0
         then (if gt product lit_0_1 then product else lit_0_1)
         else lit_2_0).
Proof.
  intros Hl Hc Hz product Hn s'.
  exists (pinchScale (initialScale (zoom s)) (initialDistance (zoom s))
                     (getTouchDistance t0 t1)).
  split.
  - unfold s', exec, handle, onTouchMove. unfold_m. cbn.
    rewrite Hl, Hc, Hz. cbn. now rewrite Nat.eqb_refl.
  - destruct (pinchScale_in_range _ _ _ Hn) as [L U].
    split; [exact L|]. split; [exact U|].
    unfold pinchScale. now apply clamp_value.
Qed.

(** From a baseline of 50 at scale 1, fingers 500 apart: the product is
    10 and the scale written is 2.0. *)
Lemma two_finger_move_clamps_scale_witness :
  let s := exec (handle browser_host 0%nat
                   (touchstart [touch_at 0 0; touch_at 30 40])) idle_state in
  let s' := exec (handle browser_host 0%nat
                    (touchmove [touch_at 0 0; touch_at 300 400])) s in
  exists v,
    scale (models s' 0%nat) = mkPoint v v /\
    le lit_0_1 v = true /\ le v lit_2_0 = true /\ v = lit_2_0.
Proof.
  exact (two_finger_move_clamps_scale browser_host 0%nat
           (exec (handle browser_host 0%nat
                    (touchstart [touch_at 0 0; touch_at 30 40])) idle_state)
           0%nat (touch_at 0 0) (touch_at 300 400)
           eq_refl eq_refl eq_refl eq_refl).
Defined.

(** *** The save timer *)

(** X9.  From a state with at most one pending timer of
    [_debouncedSavePosition], whose id the field
    [_savePositionDebounceTimer] holds, every timed sequence of events
    leads to such a state: timers of the debounced save do not pile
    up. *)
Theorem save_timer_is_single_slot host model tes s :
  single_slot s ->
  let s' := run host model tes s in
  (List.length (timers s') <= 1)%nat /\
  forall tm, In tm (timers s') ->
    _savePositionDebounceTimer (this s') = Some (timer_id tm).
Proof.
  intros Hs s'.
  pose proof (single_slot_run host model tes s Hs) as H.
  fold s' in H. unfold single_slot in H.
  destruct (timers s') as [|tm [|tm' tl]]; [| |contradiction].
  - split; [cbn; lia | intros tm []].
  - split; [cbn; lia | intros tm0 [<-|[]]; exact H].
Qed.

Lemma save_timer_is_single_slot_witness :
  let s' := run browser_host 0%nat
              [(0, wheel (of_Z 1)); (100, wheel (of_Z 1));
               (700, wheel (of_Z (-1))); (800, pointerup)] idle_state in
  (List.length (timers s') <= 1)%nat /\
  forall tm, In tm (timers s') ->
    _savePositionDebounceTimer (this s') = Some (timer_id tm).
Proof.
  exact (save_timer_is_single_slot browser_host 0%nat
           [(0, wheel (of_Z 1)); (100, wheel (of_Z 1));
            (700, wheel (of_Z (-1))); (800, pointerup)] idle_state I).
Defined.

(** *** A reported switch *)

Lemma display_switch_spec host model s s' :
  _checkAndSwitchDisplay host model s = (Returned true, s') ->
  exists es allDisplays currentDisplay move bounds displays cur target result,
    electronScreen host = Some es /\
    getAllDisplays es = Some allDisplays /\
    getCurrentDisplay es = Some currentDisplay /\
    moveWindowToDisplay es = Some move /\
    getBounds host (models s model) = Returned bounds /\
    allDisplays (trace s ++ [Call_checkAndSwitchDisplay; GetAllDisplays])
      = Returned (Some displays) /\
    currentDisplay (trace s ++ [Call_checkAndSwitchDisplay; GetAllDisplays;
                                GetCurrentDisplay])
      = Returned (Some cur) /\
    let X := add (to_number (screenX cur)) (x (modelCenter bounds)) in
    let Y := add (to_number (screenY cur)) (y (modelCenter bounds)) in
    find_targetDisplay X Y displays = Some target /\
    move (trace s ++ [Call_checkAndSwitchDisplay; GetAllDisplays;
                      GetCurrentDisplay; MoveWindowToDisplay X Y]) X Y
      = Returned (Some result) /\
    success result = true /\ sameDisplay result = false /\
    let m := models s model in
    let newX := add (sub X (to_number (screenX target)))
                    (mul (mul (sub (x (anchor m)) lit_0_5) (model_width host m))
                         (x (scale m))) in
    let m1 := set_x newX m in
    let newY := add (sub Y (to_number (screenY target)))
                    (mul (mul (sub (y (anchor m)) lit_0_5) (model_height host m1))
                         (y (scale m))) in
    models s' model = set_y newY m1.
Proof.
  unfold _checkAndSwitchDisplay. unfold_m. unfold log.
  repeat (cbn; try use_save_storable; try destr); unfold log; cbn;
  intros H; try discriminate.
  all: injection H as <-.
  all: repeat match goal with
       | H : context [(_ ++ _) ++ _] |- _ => rewrite <- app_assoc in H; cbn in H
       end.
  all: match goal with
       | H : (_ && negb _)%bool = true |- _ =>
           apply andb_true_iff in H; destruct H as [Hsucc Hsame];
           apply negb_true_iff in Hsame
       end.
  all: do 9 eexists;
       repeat match goal with |- _ /\ _ => split end;
       try eassumption; cbn; rewrite ?Nat.eqb_refl; try reflexivity.
Qed.

(** X10.  When [_checkAndSwitchDisplay] reports a switch, the host has
    answered the move request with success on a display other than the
    current one, and the model is at the position computed from the
    target display: the screen point of the old centre minus the origin
    of the target, plus (anchor - 0.5) times the size of the model times
    its scale, the x coordinate being written before the height is
    read. *)
Theorem display_switch_repositions_model host model s :
  fst (_checkAndSwitchDisplay host model s) = Returned true ->
  let s' := snd (_checkAndSwitchDisplay host model s) in
  exists es allDisplays currentDisplay move bounds displays cur target result,
    electronScreen host = Some es /\
    getAllDisplays es = Some allDisplays /\
    getCurrentDisplay es = Some currentDisplay /\
    moveWindowToDisplay es = Some move /\
    getBounds host (models s model) = Returned bounds /\
    allDisplays (trace s ++ [Call_checkAndSwitchDisplay; GetAllDisplays])
      = Returned (Some displays) /\
    currentDisplay (trace s ++ [Call_checkAndSwitchDisplay; GetAllDisplays;
                                GetCurrentDisplay])
      = Returned (Some cur) /\
    let X := add (to_number (screenX cur)) (x (modelCenter bounds)) in
    let Y := add (to_number (screenY cur)) (y (modelCenter bounds)) in
    find_targetDisplay X Y displays = Some target /\
    move (trace s ++ [Call_checkAndSwitchDisplay; GetAllDisplays;
                      GetCurrentDisplay; MoveWindowToDisplay X Y]) X Y
      = Returned (Some result) /\
    success result = true /\ sameDisplay result = false /\
    let m := models s model in
    let newX := add (sub X (to_number (screenX target)))
                    (mul (mul (sub (x (anchor m)) lit_0_5) (model_width host m))
                         (x (scale m))) in
    let m1 := set_x newX m in
    let newY := add (sub Y (to_number (screenY target)))
                    (mul (mul (sub (y (anchor m)) lit_0_5) (model_height host m1))
                         (y (scale m))) in
    models s' model = set_y newY m1.
Proof.
  intros H s'. apply (display_switch_spec host model s s'). subst s'.
  destruct (_checkAndSwitchDisplay host model s) as [o st].
  cbn [fst snd] in *. now subst o.
Qed.

Lemma display_switch_repositions_model_witness :
  let host := desktop_host in
  let model := 0%nat in
  let s := idle_state in
  let s' := snd (_checkAndSwitchDisplay host model s) in
  exists es allDisplays currentDisplay move bounds displays cur target result,
    electronScreen host = Some es /\
    getAllDisplays es = Some allDisplays /\
    getCurrentDisplay es = Some currentDisplay /\
    moveWindowToDisplay es = Some move /\
    getBounds host (models s model) = Returned bounds /\
    allDisplays (trace s ++ [Call_checkAndSwitchDisplay; GetAllDisplays])
      = Returned (Some displays) /\
    currentDisplay (trace s ++ [Call_checkAndSwitchDisplay; GetAllDisplays;
                                GetCurrentDisplay])
      = Returned (Some cur) /\
    let X := add (to_number (screenX cur)) (x (modelCenter bounds)) in
    let Y := add (to_number (screenY cur)) (y (modelCenter bounds)) in
    find_targetDisplay X Y displays = Some target /\
    move (trace s ++ [Call_checkAndSwitchDisplay; GetAllDisplays;
                      GetCurrentDisplay; MoveWindowToDisplay X Y]) X Y
      = Returned (Some result) /\
    success result = true /\ sameDisplay result = false /\
    let m := models s model in
    let newX := add (sub X (to_number (screenX target)))
                    (mul (mul (sub (x (anchor m)) lit_0_5) (model_width host m))
                         (x (scale m))) in
    let m1 := set_x newX m in
    let newY := add (sub Y (to_number (screenY target)))
                    (mul (mul (sub (y (anchor m)) lit_0_5) (model_height host m1))
                         (y (scale m))) in
    models s' model = set_y newY m1.
Proof.
  apply (display_switch_repositions_model desktop_host 0%nat idle_state).
  vm_compute. reflexivity.
Defined.

(** ** A pinch back to its baseline *)

(** *** Exact shifts *)

(** Shifting out a zero bit leaves the location exact. *)
Lemma shr_1_exact mrs :
  shr_r mrs = false -> shr_s mrs = false -> 0 <= shr_m mrs ->
  (2 | shr_m mrs) ->
  shr_r (shr_1 mrs) = false /\ shr_s (shr_1 mrs) = false.
Proof.
  destruct mrs as [m r s]. cbn [shr_m shr_r shr_s]. intros -> -> Hm [k Hk].
  destruct m as [|[p|p|]|p]; cbn; try lia; auto.
Qed.

Lemma divide_half m n :
  0 <= n -> (2 ^ (n + n) | m) -> (2 ^ n | m) /\ (2 ^ n | m / 2 ^ n).
Proof.
  intros Hn [k Hk]. rewrite Z.pow_add_r in Hk by lia.
  assert (P : 0 < 2 ^ n) by (apply Z.pow_pos_nonneg; lia).
  split.
  - exists (k * 2 ^ n). lia.
  - exists k. subst m. rewrite Z.mul_assoc. now rewrite Z.div_mul by lia.
Qed.

Lemma iter_pos_shr_exact p : forall mrs,
  shr_r mrs = false -> shr_s mrs = false -> 0 <= shr_m mrs ->
  (2 ^ Zpos p | shr_m mrs) ->
  shr_r (iter_pos shr_1 p mrs) = false /\ shr_s (iter_pos shr_1 p mrs) = false.
Proof.
  induction p as [p IH|p IH|]; intros mrs Hr Hs Hm Hd; cbn [iter_pos].
  - assert (D2 : (2 | shr_m mrs)).
    { apply Z.divide_trans with (2 ^ Zpos p~1); [|exact Hd].
      replace (Zpos p~1) with (Z.succ (Zpos p~0)) by lia.
      rewrite Z.pow_succ_r by lia. exists (2 ^ Zpos p~0). ring. }
    destruct (shr_1_exact mrs Hr Hs Hm D2) as [R1 S1].
    assert (M1 : 0 <= shr_m (shr_1 mrs)).
    { rewrite shr_1_m by assumption. apply Z.div_pos; lia. }
    assert (D1 : (2 ^ (Zpos p + Zpos p) | shr_m (shr_1 mrs))).
    { rewrite shr_1_m by assumption. destruct Hd as [k Hk]. exists k.
      rewrite Hk. replace (Zpos p~1) with (Zpos p + Zpos p + 1) by lia.
      rewrite (Z.pow_add_r 2 (Zpos p + Zpos p) 1) by lia.
      rewrite Z.pow_1_r, Z.mul_assoc. now rewrite Z.div_mul by lia. }
    destruct (divide_half _ (Zpos p) ltac:(lia) D1) as [Da Db].
    destruct (IH (shr_1 mrs) R1 S1 M1 Da) as [R2 S2].
    apply IH; try assumption.
    + rewrite iter_pos_shr_m by assumption. apply Z.div_pos; [assumption|].
      apply Z.pow_pos_nonneg; lia.
    + now rewrite iter_pos_shr_m by assumption.
  - assert (D1 : (2 ^ (Zpos p + Zpos p) | shr_m mrs)).
    { replace (Zpos p + Zpos p) with (Zpos p~0) by lia. exact Hd. }
    destruct (divide_half _ (Zpos p) ltac:(lia) D1) as [Da Db].
    destruct (IH mrs Hr Hs Hm Da) as [R2 S2].
    apply IH; try assumption.
    + rewrite iter_pos_shr_m by assumption. apply Z.div_pos; [assumption|].
      apply Z.pow_pos_nonneg; lia.
    + now rewrite iter_pos_shr_m by assumption.
  - apply shr_1_exact; try assumption; now rewrite Z.pow_1_r in Hd.
Qed.

(** The location after the first cut of an exact mantissa whose cut-off
    bits are zero is exact. *)
Lemma shr_fexp_exact m e :
  0 <= m ->
  (0 < fexp prec emax (Zdigits2 m + e) - e ->
   (2 ^ (fexp prec emax (Zdigits2 m + e) - e) | m)) ->
  loc_of_shr_record (fst (shr_fexp prec emax m e loc_Exact)) = loc_Exact.
Proof.
  intros Hm Hd. unfold shr_fexp, shr.
  destruct (fexp prec emax (Zdigits2 m + e) - e) as [|n|n]; cbn [fst];
    try reflexivity.
  destruct (iter_pos_shr_exact n (shr_record_of_loc m loc_Exact))
    as [R S]; try reflexivity; try assumption.
  - apply Hd. lia.
  - destruct (iter_pos shr_1 n _) as [m' r' s']. cbn in R, S. now subst.
Qed.

(** [binary_round_aux] on an exact mantissa whose cut-off bits are
    zero: nothing is rounded. *)
Lemma bra_exact sx mx ex :
  0 <= mx ->
  (0 < fexp prec emax (Zdigits2 mx + ex) - ex ->
   (2 ^ (fexp prec emax (Zdigits2 mx + ex) - ex) | mx)) ->
  let m1 := fst (shifted mx ex) in
  let e1 := snd (shifted mx ex) in
  binary_round_aux prec emax sx mx ex loc_Exact
  = finish sx (fst (shifted m1 e1)) (snd (shifted m1 e1)).
Proof.
  intros Hm Hd. unfold binary_round_aux.
  pose proof (shr_fexp_spec mx ex loc_Exact Hm) as E1.
  pose proof (shr_fexp_exact mx ex Hm Hd) as L1.
  destruct (shr_fexp prec emax mx ex loc_Exact) as [mrs' e'] eqn:S1.
  cbn [fst snd] in E1, L1. cbn zeta.
  rewrite <- E1. cbn [fst snd]. rewrite L1.
  cbn [round_nearest_even].
  assert (H1 : 0 <= shr_m mrs').
  { replace (shr_m mrs') with (fst (shifted mx ex)) by (now rewrite <- E1).
    unfold shifted.
    destruct (Z.ltb_spec 0 (fexp prec emax (Zdigits2 mx + ex) - ex));
      cbn [fst]; [|assumption].
    apply Z.div_pos; [assumption|]. apply Z.pow_pos_nonneg; lia. }
  pose proof (shr_fexp_spec _ e' loc_Exact H1) as E2.
  destruct (shr_fexp prec emax _ e' loc_Exact) as [mrs'' e''].
  cbn [fst snd] in E2. rewrite <- E2. cbn [fst snd]. reflexivity.
Qed.

(** A finite value divided by itself is 1. *)
Lemma div_self a :
  (exists s m e, a = S754_finite s m e) -> div a a = of_Z 1.
Proof.
  intros (s & m & e & ->). unfold div. cbn [SFdiv].
  rewrite (div_core_spec (Zpos m) e (Zpos m) e 53); [|lia| |lia].
  - replace (Zpos m * 2 ^ 53 / Zpos m) with (2 ^ 53)
      by (rewrite Z.mul_comm; now rewrite Z.div_mul by lia).
    replace ((Zpos m * 2 ^ 53) mod Zpos m) with 0
      by (rewrite Z.mul_comm; now rewrite Z.mod_mul by lia).
    replace (e - e - 53) with (-53) by lia.
    assert (L : new_location (Zpos m) 0 = loc_Exact).
    { unfold new_location. destruct (Z.even (Zpos m)); reflexivity. }
    rewrite L. now destruct s.
  - replace (Zdigits2 (Zpos m) + e - (Zdigits2 (Zpos m) + e)) with 0 by lia.
    replace (e - e) with 0 by lia. reflexivity.
Qed.

(** A finite value times 1 is the value. *)
Lemma mul_one a :
  finite_wf a = true -> mul a (of_Z 1) = a.
Proof.
  unfold finite_wf, wf. intros H. apply andb_true_iff in H as [V F].
  destruct a as [s|s| |s m e]; try discriminate.
  - now destruct s.
  - cbn in V. destruct (bounded_inv m e V) as (Bd & D53 & Be & Dn).
    assert (Xs : xorb s false = s) by now destruct s.
    change (of_Z 1) with (S754_finite false 4503599627370496 (-52)).
    unfold mul. cbn [SFmul]. rewrite Xs.
    set (d := Zpos (digits2_pos m)) in *.
    assert (Em : Zpos (m * 4503599627370496) = Zpos m * 2 ^ 52) by (pow2; lia).
    rewrite Em.
    assert (P52 : 0 < 2 ^ 52) by (pow2; lia).
    assert (Dg : Zdigits2 (Zpos m * 2 ^ 52) = d + 52).
    { apply Zdigits2_unique; [|lia].
      replace (d + 52 - 1) with ((d - 1) + 52) by lia.
      rewrite !Z.pow_add_r by lia. split.
      - apply Z.mul_le_mono_nonneg_r; lia.
      - apply Z.mul_lt_mono_pos_r; lia. }
    assert (Can : fexp prec emax (d + e) = e).
    { unfold bounded, canonical_mantissa in V.
      apply andb_true_iff in V as [V1 _]. now apply Z.eqb_eq in V1. }
    assert (Sh : shifted (Zpos m * 2 ^ 52) (e + -52) = (Zpos m, e)).
    { unfold shifted. rewrite Dg.
      replace (d + 52 + (e + -52)) with (d + e) by lia. rewrite Can.
      replace (e - (e + -52)) with 52 by lia. cbn [Z.ltb Z.compare].
      rewrite Z.div_mul by lia. f_equal. lia. }
    rewrite bra_exact.
    + rewrite Sh. cbn [fst snd].
      assert (Sk : shifted (Zpos m) e = (Zpos m, e)).
      { unfold shifted. change (Zdigits2 (Zpos m)) with d. rewrite Can.
        rewrite Z.sub_diag. reflexivity. }
      rewrite Sk. cbn [fst snd finish].
      unfold emax, prec. destruct (Z.leb_spec e (1024 - 53)); [reflexivity|lia].
    + lia.
    + intros _. rewrite Dg.
      replace (d + 52 + (e + -52)) with (d + e) by lia. rewrite Can.
      replace (e - (e + -52)) with 52 by lia.
      exists (Zpos m). reflexivity.
Qed.

Lemma pinchScale_baseline v d :
  finite_wf v = true -> lt lit_0_1 v = true -> lt v lit_2_0 = true ->
  finite_nonzero d = true ->
  pinchScale v d d = v.
Proof.
  intros Hv L U Hd. unfold pinchScale.
  rewrite div_self by (destruct d; try discriminate; eauto).
  rewrite mul_one by exact Hv.
  rewrite clamp_value.
  - rewrite U. unfold gt, lt in *. now rewrite L.
  - unfold finite_wf in Hv. apply andb_true_iff in Hv as [_ F].
    now destruct v.
Qed.

(** X11.  When a pinch starts at a scale strictly between 0.1 and 2.0 with
    the fingers a finite distance other than zero apart, then after any
    touch-move events a move that brings the fingers back to the
    starting distance writes exactly the starting scale to both axes:
    in binary64 arithmetic the ratio is exactly 1 and the product is
    exact. *)
Theorem pinch_back_to_baseline_restores_scale host model s r t0 t1 moves u0 u1 :
  isLocked (this s) = false ->
  currentModel (this s) = Some r ->
  forallb is_touchmove moves = true ->
  let v := x (scale (models s r)) in
  let d := getTouchDistance t0 t1 in
  finite_wf v = true -> lt lit_0_1 v = true -> lt v lit_2_0 = true ->
  finite_nonzero d = true ->
  getTouchDistance u0 u1 = d ->
  let s' := handle_all host model
              (touchstart [t0; t1] :: moves ++ [touchmove [u0; u1]]) s in
  scale (models s' r) = mkPoint v v.
Proof.
  intros Hl Hc Hall v d Hv L U Hd Hu s'.
  pose proof (touchstart_step host model s t0 t1 r Hl Hc) as E0.
  set (s0 := exec (handle host model (touchstart [t0; t1])) s) in *.
  assert (E1 : s' = handle_all host model (moves ++ [touchmove [u0; u1]]) s0)
    by reflexivity.
  assert (Hall' : forallb is_touchmove (moves ++ [touchmove [u0; u1]]) = true).
  { rewrite forallb_app, Hall. reflexivity. }
  destruct (touchmoves_fold host model r _ s0 Hall')
    as (_ & _ & M1 & _); try (rewrite E0; assumption);
    try (rewrite E0; reflexivity).
  cbn zeta in M1. rewrite <- E1 in M1. rewrite M1, pinched_app.
  rewrite E0. cbn. rewrite Hu. fold d. fold v.
  now rewrite pinchScale_baseline.
Qed.

(** Scale 1, fingers 50 apart, spread to 75 and brought back to 50. *)
Lemma pinch_back_to_baseline_restores_scale_witness :
  let s' := handle_all browser_host 0%nat
              (touchstart [touch_at 0 0; touch_at 30 40]
                 :: [touchmove [touch_at 0 0; touch_at 45 60]]
                 ++ [touchmove [touch_at 10 10; touch_at 40 50]]) idle_state in
  scale (models s' 0%nat) = mkPoint (of_Z 1) (of_Z 1).
Proof.
  exact (pinch_back_to_baseline_restores_scale browser_host 0%nat idle_state
           0%nat (touch_at 0 0) (touch_at 30 40)
           [touchmove [touch_at 0 0; touch_at 45 60]]
           (touch_at 10 10) (touch_at 40 50)
           eq_refl eq_refl eq_refl eq_refl eq_refl eq_refl eq_refl eq_refl).
Defined.

(** ** The buttons during a drag *)

Lemma update_nth j f : forall d i,
  nth_error (update j f d) i
  = if Nat.eqb i j then option_map f (nth_error d i) else nth_error d i.
Proof.
  induction j as [|j IH]; intros [|e d] [|i]; cbn; try reflexivity.
  - now destruct (Nat.eqb i j).
  - apply IH.
Qed.

Lemma forEach_nth f l : forall d i,
  NoDup l ->
  nth_error (forEach l f d) i
  = if existsb (Nat.eqb i) l then option_map f (nth_error d i)
    else nth_error d i.
Proof.
  unfold forEach. induction l as [|j l IH]; intros d i Hn; [reflexivity|].
  cbn [fold_left existsb]. inversion Hn as [|? ? Hj Hl]; subst.
  rewrite IH by exact Hl. rewrite update_nth.
  destruct (Nat.eqb i j) eqn:E; cbn [orb]; [|reflexivity].
  apply Nat.eqb_eq in E. subst i.
  destruct (existsb (Nat.eqb j) l) eqn:Ex; [|reflexivity].
  apply existsb_exists in Ex as (k & Hk & Ek). apply Nat.eqb_eq in Ek.
  subst k. contradiction.
Qed.

Lemma querySelectorAll_NoDup sel d : NoDup (querySelectorAll sel d).
Proof. apply NoDup_filter, seq_NoDup. Qed.

Lemma querySelectorAll_mem sel d i :
  existsb (Nat.eqb i) (querySelectorAll sel d)
  = match nth_error d i with Some e => sel e | None => false end.
Proof.
  unfold querySelectorAll.
  destruct (existsb _ _) eqn:Ex.
  - apply existsb_exists in Ex as (k & Hk & Ek). apply Nat.eqb_eq in Ek.
    subst k. apply filter_In in Hk as [_ Hk]. now rewrite Hk.
  - destruct (nth_error d i) as [e|] eqn:N; [|reflexivity].
    destruct (sel e) eqn:S; [|reflexivity].
    assert (In i (filter (fun i => match nth_error d i with
                                   | Some e => sel e | None => false end)
                         (seq 0 (List.length d)))).
    { apply filter_In. split.
      - apply in_seq. split; [lia|]. cbn.
        apply nth_error_Some. now rewrite N.
      - now rewrite N. }
    assert (existsb (Nat.eqb i)
              (filter (fun i => match nth_error d i with
                                | Some e => sel e | None => false end)
                      (seq 0 (List.length d))) = true).
    { apply existsb_exists. exists i. split; [assumption | apply Nat.eqb_refl]. }
    congruence.
Qed.

Lemma save_and_disable_frame css e :
  elem_id (save_and_disable css e) = elem_id e /\
  classList (save_and_disable css e) = classList e /\
  parentElement (save_and_disable css e) = parentElement e.
Proof.
  unfold save_and_disable, set_pointerEvents. cbn.
  destruct (css "none"%string); cbn; auto.
Qed.

Lemma save_and_disable_button css e :
  is_button (save_and_disable css e) = is_button e.
Proof.
  destruct (save_and_disable_frame css e) as (I & C & _).
  unfold is_button. now rewrite I, C.
Qed.

Lemma Set_add_NoDup p set : NoDup set -> NoDup (Set_add p set).
Proof.
  intros H. unfold Set_add. destruct (existsb (Nat.eqb p) set) eqn:E; [exact H|].
  apply NoDup_app; [exact H | repeat constructor; intros [] | ].
  intros a Ha [Ea|[]]. subst a.
  assert (existsb (Nat.eqb p) set = true); [|congruence].
  apply existsb_exists. exists p. split; [exact Ha | apply Nat.eqb_refl].
Qed.

Lemma Set_add_mem p q set :
  existsb (Nat.eqb q) (Set_add p set)
  = (existsb (Nat.eqb q) set || Nat.eqb p q)%bool.
Proof.
  unfold Set_add. destruct (existsb (Nat.eqb p) set) eqn:E.
  - destruct (Nat.eqb p q) eqn:Q; [|now rewrite orb_false_r].
    apply Nat.eqb_eq in Q. subst q. now rewrite E.
  - rewrite existsb_app. cbn. rewrite orb_false_r. f_equal.
    apply Nat.eqb_sym.
Qed.

Lemma wrappers_NoDup d bs : forall set,
  NoDup set -> NoDup (fold_left (add_parent d) bs set).
Proof.
  induction bs as [|i bs IH]; intros set H; [exact H|].
  cbn. apply IH. unfold add_parent.
  destruct (nth_error d i) as [btn|]; [|exact H].
  destruct (parentElement btn); [|exact H]. now apply Set_add_NoDup.
Qed.

Lemma wrappers_mem d p bs : forall set,
  existsb (Nat.eqb p) (fold_left (add_parent d) bs set)
  = (existsb (Nat.eqb p) set || existsb (parent_is d p) bs)%bool.
Proof.
  induction bs as [|i bs IH]; intros set; [cbn; now rewrite orb_false_r|].
  cbn [fold_left existsb]. rewrite IH. unfold add_parent, parent_is at 2.
  destruct (nth_error d i) as [btn|]; [|reflexivity].
  destruct (parentElement btn) as [q|]; [|reflexivity].
  rewrite Set_add_mem. now rewrite orb_assoc.
Qed.

Lemma is_wrapper_iff d p :
  is_wrapper d p = true <->
  exists i b, nth_error d i = Some b /\ is_button b = true /\
              parentElement b = Some p.
Proof.
  unfold is_wrapper. rewrite existsb_exists. split.
  - intros (b & Hb & H). apply andb_true_iff in H as [B P].
    destruct (parentElement b) as [q|] eqn:Q; [|discriminate].
    apply Nat.eqb_eq in P. subst q.
    apply In_nth_error in Hb as [i Hi]. now exists i, b.
  - intros (i & b & Hi & B & P). exists b. split.
    + eapply nth_error_In. exact Hi.
    + rewrite B, P. cbn. apply Nat.eqb_refl.
Qed.

Lemma buttons_step_nth css d i :
  nth_error (forEach (querySelectorAll is_button d) (save_and_disable css) d) i
  = option_map (fun e => if is_button e then save_and_disable css e else e)
               (nth_error d i).
Proof.
  rewrite forEach_nth by apply querySelectorAll_NoDup.
  rewrite querySelectorAll_mem.
  destruct (nth_error d i) as [e|]; [|reflexivity]. cbn.
  now destruct (is_button e).
Qed.

Lemma wrappers_of_buttons css d p :
  existsb (parent_is
             (forEach (querySelectorAll is_button d) (save_and_disable css) d) p)
          (querySelectorAll is_button d)
  = is_wrapper d p.
Proof.
  apply eq_true_iff_eq. rewrite is_wrapper_iff, existsb_exists. split.
  - intros (i & Hi & H). unfold parent_is in H.
    rewrite buttons_step_nth in H.
    unfold querySelectorAll in Hi. apply filter_In in Hi as [_ Hi].
    destruct (nth_error d i) as [b|] eqn:N; [|discriminate].
    cbn in H. rewrite Hi in H.
    destruct (save_and_disable_frame css b) as (_ & _ & P). rewrite P in H.
    destruct (parentElement b) as [q|] eqn:Q; [|discriminate].
    apply Nat.eqb_eq in H. subst q. now exists i, b.
  - intros (i & b & N & B & P). exists i. split.
    + unfold querySelectorAll. apply filter_In. split.
      * apply in_seq. split; [lia|]. cbn. apply nth_error_Some. now rewrite N.
      * now rewrite N.
    + unfold parent_is. rewrite buttons_step_nth, N. cbn. rewrite B.
      destruct (save_and_disable_frame css b) as (_ & _ & P'). rewrite P', P.
      apply Nat.eqb_refl.
Qed.

(** What [enableButtonEventPropagation] does to each element. *)
Lemma enable_nth css d i :
  nth_error (enableButtonEventPropagation css d) i
  = option_map
      (fun e =>
         let e := if is_button e then save_and_disable css e else e in
         if is_wrapper d i then save_and_disable css e else e)
      (nth_error d i).
Proof.
  unfold enableButtonEventPropagation.
  set (d1 := forEach (querySelectorAll is_button d) (save_and_disable css) d).
  change (fold_left _ (querySelectorAll is_button d) [])
    with (fold_left (add_parent d1) (querySelectorAll is_button d) []).
  rewrite forEach_nth by (apply wrappers_NoDup; constructor).
  rewrite wrappers_mem. cbn [existsb orb].
  unfold d1 at 1. rewrite wrappers_of_buttons.
  unfold d1. rewrite buttons_step_nth.
  destruct (nth_error d i) as [e|]; [|now destruct (is_wrapper d i)].
  cbn. now destruct (is_wrapper d i).
Qed.

Lemma restore_without_prev css e :
  data_prev_pointer_events e = None -> restore css e = e.
Proof. unfold restore. now intros ->. Qed.

(** What [disableButtonEventPropagation] does to each element. *)
Lemma disable_nth css d i :
  nth_error (disableButtonEventPropagation css d) i
  = option_map (restore css) (nth_error d i).
Proof.
  unfold disableButtonEventPropagation.
  rewrite forEach_nth by apply querySelectorAll_NoDup.
  rewrite querySelectorAll_mem.
  destruct (nth_error d i) as [e|]; [|reflexivity]. cbn.
  unfold has_prev. destruct (data_prev_pointer_events e) eqn:P; [reflexivity|].
  now rewrite restore_without_prev.
Qed.

(** *** Buttons: what enabling and disabling do *)

Lemma save_and_disable_none css e :
  css_accepts_none css ->
  pointerEvents (save_and_disable css e) = "none"%string /\
  data_prev_pointer_events (save_and_disable css e) = Some (pointerEvents e).
Proof.
  intros H. unfold save_and_disable, set_pointerEvents.
  red in H. rewrite H. cbn. auto.
Qed.

(** X12.  [enableButtonEventPropagation] keeps the elements of the
    document, their ids, classes and parents.  On every floating button
    and on every parent of one it sets [pointer-events] to [none] and
    stores the previous value in [data-prev-pointer-events]; every other
    element is left as it is.  A button that is also the parent of a
    button is visited twice, and what is stored for it is [none], not
    its previous value. *)
Theorem enable_lets_events_through css d i e :
  css_accepts_none css ->
  nth_error (enableButtonEventPropagation css d) i = Some e ->
  exists e0,
    nth_error d i = Some e0 /\
    elem_id e = elem_id e0 /\ classList e = classList e0 /\
    parentElement e = parentElement e0 /\
    if affected d i e0
    then pointerEvents e = "none"%string /\
         data_prev_pointer_events e
         = Some (if is_button e0 && is_wrapper d i then "none"%string
                 else pointerEvents e0)
    else e = e0.
Proof.
  intros Hc. rewrite enable_nth.
  destruct (nth_error d i) as [e0|]; [|discriminate]. cbn.
  intros H. injection H as <-. exists e0. split; [reflexivity|].
  unfold affected.
  destruct (is_button e0) eqn:B, (is_wrapper d i) eqn:W; cbn.
  - destruct (save_and_disable_frame css (save_and_disable css e0)) as (I1 & C1 & P1).
    destruct (save_and_disable_frame css e0) as (I0 & C0 & P0).
    destruct (save_and_disable_none css (save_and_disable css e0) Hc) as (N1 & A1).
    destruct (save_and_disable_none css e0 Hc) as (N0 & A0).
    repeat split; congruence.
  - destruct (save_and_disable_frame css e0) as (I0 & C0 & P0).
    destruct (save_and_disable_none css e0 Hc) as (N0 & A0).
    repeat split; congruence.
  - destruct (save_and_disable_frame css e0) as (I0 & C0 & P0).
    destruct (save_and_disable_none css e0 Hc) as (N0 & A0).
    repeat split; congruence.
  - repeat split; reflexivity.
Qed.

Lemma enable_lets_events_through_witness :
  let e := mkElement "live2d-btn-mic" ["live2d-floating-btn"%string] (Some 1%nat)
                     "none" (Some "auto"%string) in
  exists e0,
    nth_error page 2 = Some e0 /\
    elem_id e = elem_id e0 /\ classList e = classList e0 /\
    parentElement e = parentElement e0 /\
    if affected page 2 e0
    then pointerEvents e = "none"%string /\
         data_prev_pointer_events e
         = Some (if is_button e0 && is_wrapper page 2 then "none"%string
                 else pointerEvents e0)
    else e = e0.
Proof.
  exact (enable_lets_events_through css_keywords page 2
           (mkElement "live2d-btn-mic" ["live2d-floating-btn"%string] (Some 1%nat)
                      "none" (Some "auto"%string))
           eq_refl eq_refl).
Defined.

Lemma restore_save_and_disable css e :
  css_accepts_none css ->
  css (pointerEvents e) = Some (pointerEvents e) ->
  data_prev_pointer_events e = None ->
  restore css (save_and_disable css e) = e.
Proof.
  intros Hc Hv Hp. unfold restore, save_and_disable, set_pointerEvents.
  red in Hc. rewrite Hc. cbn. rewrite Hv. cbn.
  destruct e; cbn in *. now subst.
Qed.

Lemma round_trip css d :
  css_accepts_none css -> styles_valid css d -> no_prev d ->
  wrappers_are_not_buttons d ->
  disableButtonEventPropagation css (enableButtonEventPropagation css d) = d.
Proof.
  intros Hc Hv Hp Hw. apply nth_error_ext. intros i.
  rewrite disable_nth, enable_nth.
  destruct (nth_error d i) as [e|] eqn:N; [|reflexivity]. cbn.
  assert (I : In e d) by (eapply nth_error_In; exact N).
  specialize (Hv e I). specialize (Hp e I). specialize (Hw i e N).
  destruct (is_button e) eqn:B.
  - rewrite (Hw eq_refl). now rewrite restore_save_and_disable.
  - destruct (is_wrapper d i).
    + now rewrite restore_save_and_disable.
    + now rewrite restore_without_prev.
Qed.

(** X13.  On a document none of whose elements has the attribute
    [data-prev-pointer-events], whose inline values of [pointer-events]
    are values the style accepts back, and in which no floating button
    is the parent of another, [disableButtonEventPropagation] after
    [enableButtonEventPropagation] gives back the document as it
    was. *)
Theorem disable_undoes_enable css d :
  css_accepts_none css -> styles_valid css d -> no_prev d ->
  wrappers_are_not_buttons d ->
  disableButtonEventPropagation css (enableButtonEventPropagation css d) = d.
Proof. apply round_trip. Qed.

Lemma page_styles_valid : styles_valid css_keywords page.
Proof.
  intros e H. repeat (destruct H as [<-|H]; [reflexivity|]). destruct H.
Qed.

Lemma page_no_prev : no_prev page.
Proof.
  intros e H. repeat (destruct H as [<-|H]; [reflexivity|]). destruct H.
Qed.

Lemma page_wrappers_are_not_buttons : wrappers_are_not_buttons page.
Proof.
  intros i e N B.
  do 5 (destruct i as [|i]; [injection N as <-; first [discriminate B | reflexivity]|]).
  destruct i; discriminate N.
Qed.

Lemma disable_undoes_enable_witness :
  disableButtonEventPropagation css_keywords
    (enableButtonEventPropagation css_keywords page) = page.
Proof.
  exact (disable_undoes_enable css_keywords page eq_refl page_styles_valid
           page_no_prev page_wrappers_are_not_buttons).
Defined.

Lemma is_wrapper_enable css d p :
  is_wrapper (enableButtonEventPropagation css d) p = is_wrapper d p.
Proof.
  apply eq_true_iff_eq. rewrite !is_wrapper_iff.
  split; intros (i & b & N & B & P).
  - rewrite enable_nth in N.
    destruct (nth_error d i) as [b0|] eqn:N0; [|discriminate].
    cbn in N. injection N as <-. exists i, b0. split; [exact N0|].
    destruct (save_and_disable_frame css b0) as (_ & _ & P0).
    destruct (save_and_disable_frame css (save_and_disable css b0))
      as (_ & _ & P1).
    destruct (is_button b0) eqn:B0, (is_wrapper d i);
      rewrite ?save_and_disable_button in B;
      rewrite ?P1, ?P0 in P; first [now split | congruence].
  - exists i.
    exists (let e := if is_button b then save_and_disable css b else b in
            if is_wrapper d i then save_and_disable css e else e).
    split; [rewrite enable_nth, N; reflexivity|].
    destruct (save_and_disable_frame css b) as (_ & _ & P0).
    destruct (save_and_disable_frame css (save_and_disable css b))
      as (_ & _ & P1).
    rewrite B. cbn.
    destruct (is_wrapper d i); rewrite ?save_and_disable_button;
      rewrite ?P1, ?P0; now split.
Qed.

Lemma stuck css d i e :
  css_accepts_none css ->
  nth_error
    (disableButtonEventPropagation css
       (enableButtonEventPropagation css
          (enableButtonEventPropagation css d))) i = Some e ->
  exists e0,
    nth_error d i = Some e0 /\
    (affected d i e0 = true ->
     pointerEvents e = "none"%string /\ data_prev_pointer_events e = None).
Proof.
  intros Hc. rewrite disable_nth, enable_nth, is_wrapper_enable, enable_nth.
  destruct (nth_error d i) as [e0|]; [|discriminate]. cbn.
  intros H. injection H as <-. exists e0. split; [reflexivity|].
  unfold affected. intros Ha.
  assert (R : forall x, pointerEvents x = "none"%string ->
            pointerEvents (restore css (save_and_disable css x)) = "none"%string /\
            data_prev_pointer_events (restore css (save_and_disable css x)) = None).
  { intros x Hx. unfold restore.
    destruct (save_and_disable_none css x Hc) as (N & A). rewrite A, Hx.
    unfold set_pointerEvents. red in Hc. rewrite Hc. cbn. auto. }
  assert (N1 : forall x, pointerEvents (save_and_disable css x) = "none"%string)
    by (intros x; apply (save_and_disable_none css x Hc)).
  destruct (is_button e0) eqn:B, (is_wrapper d i) eqn:W;
    rewrite ?save_and_disable_button, ?B; try discriminate;
    apply R; apply N1.
Qed.

(** *** Buttons: the effects of the drag handlers *)

Lemma button_effects_app l1 l2 :
  button_effects (l1 ++ l2) = button_effects l1 ++ button_effects l2.
Proof. apply filter_app. Qed.

Lemma save_effect_no_buttons l :
  Forall save_effect l -> button_effects l = [].
Proof.
  induction 1 as [|e l He _ IH]; [reflexivity|].
  destruct e; cbn in *; try contradiction; exact IH.
Qed.

Lemma save_buttons host s :
  exists rest,
    _savePositionAfterInteraction host s
      = (Returned tt, log (Call_savePositionAfterInteraction :: rest) s) /\
    button_effects rest = [].
Proof.
  destruct (save_storable host s) as (rest & E & _ & O).
  exists rest. split; [exact E | now apply save_effect_no_buttons].
Qed.

Lemma check_buttons host model s :
  exists b rest s',
    _checkAndSwitchDisplay host model s = (Returned b, s') /\
    trace s' = trace s ++ rest /\
    button_effects rest = [] /\
    this s' = this s /\ drag s' = drag s.
Proof.
  unfold _checkAndSwitchDisplay. unfold_m. unfold log.
  repeat (cbn; try use_save_storable; try destr); unfold log; cbn;
  rewrite <- ?app_assoc; cbn;
  do 3 eexists; (split; [reflexivity|]); cbn;
  (split; [rewrite <- ?app_assoc; cbn; reflexivity|]);
  (split; [|split; reflexivity]);
  cbn; try reflexivity.
  all: now apply save_effect_no_buttons.
Qed.

(** The button effects of one event, and what it does to the drag
    flag. *)
Lemma handle_buttons host model e s :
  let s' := exec (handle host model e) s in
  isLocked (this s') = isLocked (this s) /\
  match e with
  | pointerdown touches _ =>
      if negb (isLocked (this s)) && negb (multi_touch touches) then
        isDragging (drag s') = true /\
        button_effects (added s s') = [EnableButtonEventPropagation]
      else drag s' = drag s /\ button_effects (added s s') = []
  | pointerup | pointercancel =>
      isDragging (drag s') = false /\
      button_effects (added s s')
      = if isDragging (drag s) then [DisableButtonEventPropagation] else []
  | pointermove touches _ _ =>
      isDragging (drag s')
      = (if multi_touch touches then false else isDragging (drag s)) /\
      button_effects (added s s') = []
  | _ => drag s' = drag s /\ button_effects (added s s') = []
  end.
Proof.
  assert (End : let s' := exec (onDragEnd host model) s in
    isLocked (this s') = isLocked (this s) /\
    isDragging (drag s') = false /\
    button_effects (added s s')
    = if isDragging (drag s) then [DisableButtonEventPropagation] else []).
  { unfold exec, onDragEnd. unfold_m. cbn.
    destruct (isDragging (drag s)) eqn:Hd;
      [|cbn; rewrite (added_ext s s []) by (now rewrite app_nil_r); auto].
    cbn.
    match goal with
    | |- context [_checkAndSwitchDisplay host model ?st] =>
        destruct (check_buttons host model st)
          as (b & rel & s1 & E1 & T1 & B1 & Th1 & D1);
        rewrite E1
    end.
    cbn in T1, Th1, D1. rewrite <- !app_assoc in T1. cbn in T1.
    destruct b; cbn.
    - rewrite Th1, D1. do 2 (split; [reflexivity|]).
      rewrite (added_ext _ _ _ T1).
      change (button_effects (?a :: ?b :: rel))
        with (DisableButtonEventPropagation :: button_effects rel).
      now rewrite B1.
    - destruct (save_buttons host s1) as (gen & E2 & B2).
      rewrite E2. cbn. rewrite Th1, D1. do 2 (split; [reflexivity|]).
      rewrite (added_ext s _ ([SetCursor grab; DisableButtonEventPropagation]
                 ++ rel ++ Call_savePositionAfterInteraction :: gen)).
      + rewrite !button_effects_app, B1. cbn.
        change (filter is_button_effect gen) with (button_effects gen).
        now rewrite B2.
      + cbn. rewrite T1. now rewrite <- app_assoc. }
  destruct e; cbn [handle]; try exact End.
  - unfold exec, onPointerDown. unfold_m. cbn.
    destruct (isLocked (this s)) eqn:Hl; cbn;
      [rewrite (added_ext s s []) by (now rewrite app_nil_r); auto|].
    destruct (multi_touch touches) eqn:Hm; cbn;
      [rewrite (added_ext s s []) by (now rewrite app_nil_r); auto|].
    rewrite <- app_assoc. cbn.
    split; [exact Hl|]. split; [reflexivity|].
    now rewrite (added_ext _ _ [SetCursor grabbing; EnableButtonEventPropagation]).
  - unfold exec, onDragMove. unfold_m. cbn.
    destruct (isDragging (drag s)) eqn:Hd; cbn.
    + destruct (multi_touch touches); cbn.
      * split; [reflexivity|]. split; [reflexivity|].
        now rewrite (added_ext _ _ [SetCursor grab]).
      * rewrite (added_ext _ _ []) by (cbn; now rewrite app_nil_r). auto.
    + rewrite (added_ext s s []) by (now rewrite app_nil_r).
      rewrite Hd. destruct (multi_touch touches); auto.
  - run_handler; rewrite <- ?app_assoc;
      (split; [congruence|]); (split; [reflexivity|]);
      first [ now rewrite (added_ext _ _ []) by (cbn; now rewrite app_nil_r)
            | erewrite added_ext by (cbn; reflexivity); reflexivity ].
  - run_handler; rewrite <- ?app_assoc;
      (split; [congruence|]); (split; [reflexivity|]);
      first [ now rewrite (added_ext _ _ []) by (cbn; now rewrite app_nil_r)
            | erewrite added_ext by (cbn; reflexivity); reflexivity ].
  - run_handler; rewrite <- ?app_assoc;
      (split; [congruence|]); (split; [reflexivity|]);
      first [ now rewrite (added_ext _ _ []) by (cbn; now rewrite app_nil_r)
            | erewrite added_ext by (cbn; reflexivity); reflexivity ].
  - unfold exec, onTouchEnd. unfold_m.
    destruct (List.length touches <? 2)%nat;
      [|cbn; rewrite (added_ext s s []) by (now rewrite app_nil_r); auto].
    cbn. destruct (isTouchZooming (zoom s)).
    + destruct (save_buttons host s) as (gen & E2 & B2).
      rewrite E2. cbn. do 2 (split; [reflexivity|]).
      rewrite (added_ext _ _ (Call_savePositionAfterInteraction :: gen))
        by reflexivity.
      exact B2.
    + cbn. rewrite (added_ext _ _ []) by (cbn; now rewrite app_nil_r). auto.
Qed.

Lemma handle_all_trace host model es : forall s,
  exists l, trace (handle_all host model es s) = trace s ++ l.
Proof.
  induction es as [|e es IH]; intros s.
  - exists []. now rewrite app_nil_r.
  - destruct (handle_storable host model e s) as (_ & _ & l1 & T1 & _).
    destruct (IH (exec (handle host model e) s)) as (l2 & T2).
    exists (l1 ++ l2). cbn [handle_all fold_left].
    fold (handle_all host model es (exec (handle host model e) s)).
    cbn zeta in T1. rewrite T2, T1. now rewrite app_assoc.
Qed.

Lemma added_trans s s1 s2 l1 l2 :
  trace s1 = trace s ++ l1 -> trace s2 = trace s1 ++ l2 ->
  added s s2 = added s s1 ++ added s1 s2.
Proof.
  intros T1 T2. rewrite (added_ext _ _ _ T1), (added_ext _ _ _ T2).
  apply added_ext. rewrite T2, T1. now rewrite app_assoc.
Qed.

Lemma added_handle_all host model l1 l2 s :
  added s (handle_all host model (l1 ++ l2) s)
  = added s (handle_all host model l1 s)
    ++ added (handle_all host model l1 s)
             (handle_all host model l2 (handle_all host model l1 s)).
Proof.
  rewrite handle_all_app.
  destruct (handle_all_trace host model l1 s) as (k1 & T1).
  destruct (handle_all_trace host model l2 (handle_all host model l1 s))
    as (k2 & T2).
  eapply added_trans; eassumption.
Qed.

(** Through the events of a gesture the drag stays on and the buttons
    are left alone. *)
Lemma gesture_buttons host model body : forall s,
  forallb gesture_event body = true -> isDragging (drag s) = true ->
  let s1 := handle_all host model body s in
  isDragging (drag s1) = true /\
  isLocked (this s1) = isLocked (this s) /\
  button_effects (added s s1) = [].
Proof.
  induction body as [|e body IH]; intros s Hall Hd.
  - cbn. rewrite (added_ext s s []) by (now rewrite app_nil_r). auto.
  - cbn in Hall. apply andb_true_iff in Hall as [He Hall].
    change (e :: body) with ([e] ++ body).
    cbn zeta. rewrite added_handle_all, handle_all_app.
    change (handle_all host model [e] s) with (exec (handle host model e) s).
    pose proof (handle_buttons host model e s) as (L1 & H1). cbn zeta in L1, H1.
    assert (D1 : isDragging (drag (exec (handle host model e) s)) = true /\
                 button_effects (added s (exec (handle host model e) s)) = []).
    { unfold gesture_event in He.
      destruct e; cbn in He; try discriminate.
      - rewrite He, andb_false_r in H1. destruct H1 as [-> ->]. auto.
      - rewrite orb_false_r in He. apply negb_true_iff in He.
        rewrite He in H1. destruct H1 as [-> ->]. auto.
      - destruct H1 as [-> ->]. auto.
      - destruct H1 as [-> ->]. auto. }
    destruct D1 as [D1 B1].
    destruct (IH _ Hall D1) as (D2 & L2 & B2). cbn zeta in D2, L2, B2.
    rewrite button_effects_app, B1, B2.
    split; [exact D2|]. split; [congruence | reflexivity].
Qed.

(** A gesture from a single-contact pointer-down to one more event. *)
Lemma drag_buttons host model s touches g body last :
  isLocked (this s) = false -> multi_touch touches = false ->
  forallb gesture_event body = true ->
  let s1 := handle_all host model (pointerdown touches g :: body) s in
  let s2 := handle_all host model (pointerdown touches g :: body ++ [last]) s in
  isDragging (drag s1) = true /\ isLocked (this s1) = false /\
  s2 = exec (handle host model last) s1 /\
  button_effects (added s s2)
  = EnableButtonEventPropagation :: button_effects (added s1 s2).
Proof.
  intros Hl Hm Hbody s1 s2.
  pose proof (handle_buttons host model (pointerdown touches g) s) as (L0 & H0).
  cbn zeta in L0, H0. rewrite Hl, Hm in H0. cbn [negb andb] in H0.
  destruct H0 as [D0 B0].
  destruct (gesture_buttons host model body _ Hbody D0) as (D1 & L1 & B1).
  cbn zeta in D1, L1, B1.
  set (s0 := exec (handle host model (pointerdown touches g)) s) in *.
  assert (E1 : s1 = handle_all host model body s0) by reflexivity.
  assert (E2 : s2 = exec (handle host model last) s1).
  { unfold s2, s1.
    change (pointerdown touches g :: body ++ [last])
      with ((pointerdown touches g :: body) ++ [last]).
    now rewrite handle_all_app. }
  assert (A2 : added s s2 = added s s1 ++ added s1 s2).
  { unfold s2.
    change (pointerdown touches g :: body ++ [last])
      with ((pointerdown touches g :: body) ++ [last]).
    rewrite added_handle_all. fold s1. f_equal. f_equal.
    change (handle_all host model [last] s1)
      with (exec (handle host model last) s1).
    now rewrite <- E2. }
  assert (A1 : added s s1 = added s s0 ++ added s0 s1).
  { unfold s1. change (pointerdown touches g :: body)
      with ([pointerdown touches g] ++ body).
    rewrite added_handle_all. reflexivity. }
  clearbody s1 s2 s0. subst s1.
  split; [exact D1|]. split; [congruence|]. split; [exact E2|].
  rewrite A2, A1, !button_effects_app, B0, B1. reflexivity.
Qed.

Lemma document_after_buttons css l : forall d,
  document_after css l d = document_after css (button_effects l) d.
Proof.
  induction l as [|e l IH]; intros d; [reflexivity|].
  destruct e; cbn; apply IH.
Qed.

Lemma complete_drag_buttons host model s touches g body fin :
  isLocked (this s) = false -> multi_touch touches = false ->
  forallb gesture_event body = true -> drag_end_event fin = true ->
  let s' := handle_all host model (pointerdown touches g :: body ++ [fin]) s in
  button_effects (added s s')
  = [EnableButtonEventPropagation; DisableButtonEventPropagation].
Proof.
  intros Hl Hm Hbody Hfin s'.
  destruct (drag_buttons host model s touches g body fin Hl Hm Hbody)
    as (D1 & L1 & E2 & B).
  cbn zeta in *. fold s' in E2, B.
  set (s1 := handle_all host model (pointerdown touches g :: body) s) in *.
  pose proof (handle_buttons host model fin s1) as (_ & H). cbn zeta in H.
  rewrite <- E2 in H.
  assert (B2 : button_effects (added s1 s') = [DisableButtonEventPropagation]).
  { destruct fin; try discriminate; destruct H as [_ H]; now rewrite D1 in H. }
  now rewrite B2 in B.
Qed.



(** X15.  A drag cancelled by a pointer-move with more than one touch never
    calls [disableButtonEventPropagation], also not at the pointer-up
    events that follow: the buttons and their parents stay at
    [pointer-events: none].  The next complete drag then stores [none]
    as their previous value and restores [none]: after it every button
    and every parent of one still has [pointer-events: none], and the
    attribute is gone. *)
Theorem cancelled_drag_leaves_buttons_released host model s touches g body
    touches2 cX cY ups touches' g' body' fin :
  isLocked (this s) = false -> multi_touch touches = false ->
  forallb gesture_event body = true -> multi_touch touches2 = true ->
  forallb drag_end_event ups = true ->
  multi_touch touches' = false -> forallb gesture_event body' = true ->
  drag_end_event fin = true ->
  let s3 := handle_all host model
              ((pointerdown touches g :: body ++ [pointermove touches2 cX cY])
                 ++ ups) s in
  let s5 := handle_all host model
              (pointerdown touches' g' :: body' ++ [fin]) s3 in
  button_effects (added s s3) = [EnableButtonEventPropagation] /\
  button_effects (added s s5)
  = [EnableButtonEventPropagation; EnableButtonEventPropagation;
     DisableButtonEventPropagation] /\
  forall css d,
    css_accepts_none css ->
    document_after css (added s s3) d = enableButtonEventPropagation css d /\
    forall i e,
      nth_error (document_after css (added s s5) d) i = Some e ->
      exists e0,
        nth_error d i = Some e0 /\
        (affected d i e0 = true ->
         pointerEvents e = "none"%string /\
         data_prev_pointer_events e = None).
Proof.
  intros Hl Hm Hbody Hm2 Hups Hm' Hbody' Hfin s3 s5.
  destruct (drag_buttons host model s touches g body
              (pointermove touches2 cX cY) Hl Hm Hbody)
    as (D1 & L1 & E2 & B).
  cbn zeta in *.
  set (s1 := handle_all host model (pointerdown touches g :: body) s) in *.
  set (s2 := handle_all host model
               (pointerdown touches g :: body ++ [pointermove touches2 cX cY]) s)
    in *.
  pose proof (handle_buttons host model (pointermove touches2 cX cY) s1)
    as (L2 & D2 & B2).
  cbn zeta in L2, D2, B2. rewrite <- E2 in L2, D2, B2. rewrite Hm2 in D2.
  rewrite B2 in B.
  assert (E3 : s3 = s2).
  { unfold s3. rewrite handle_all_app. fold s2. now apply ends_fold. }
  assert (L3 : isLocked (this s3) = false) by (rewrite E3; congruence).
  pose proof (complete_drag_buttons host model s3 touches' g' body' fin
                L3 Hm' Hbody' Hfin) as B5.
  cbn zeta in B5. fold s5 in B5.
  destruct (handle_all_trace host model
              (pointerdown touches g :: body ++ [pointermove touches2 cX cY]) s)
    as (k2 & T2). fold s2 in T2.
  destruct (handle_all_trace host model
              (pointerdown touches' g' :: body' ++ [fin]) s3) as (k5 & T5).
  fold s5 in T5.
  assert (A5 : added s s5 = added s s3 ++ added s3 s5).
  { eapply added_trans; [|exact T5]. rewrite E3. exact T2. }
  clearbody s1 s2 s3 s5. subst s3.
  split; [exact B|]. rewrite A5, button_effects_app, B, B5.
  split; [reflexivity|].
  intros css d Hc. split.
  - rewrite document_after_buttons, B. reflexivity.
  - intros i e. rewrite document_after_buttons, button_effects_app, B, B5.
    cbn. now apply stuck.
Qed.

Lemma cancelled_drag_leaves_buttons_released_witness :
  let s3 := handle_all browser_host 0%nat
              ((pointerdown None (mkPoint (of_Z 15) (of_Z 25))
                  :: [pointermove None (of_Z 100) (of_Z 200)]
                  ++ [pointermove (Some [touch_at 0 0; touch_at 30 40])
                                  (of_Z 110) (of_Z 210)])
                 ++ [pointerup; pointerup]) idle_state in
  let s5 := handle_all browser_host 0%nat
              (pointerdown None (mkPoint (of_Z 15) (of_Z 25))
                 :: [pointermove None (of_Z 50) (of_Z 60)] ++ [pointerup]) s3 in
  button_effects (added idle_state s3) = [EnableButtonEventPropagation] /\
  button_effects (added idle_state s5)
  = [EnableButtonEventPropagation; EnableButtonEventPropagation;
     DisableButtonEventPropagation] /\
  document_after css_keywords (added idle_state s3) page
  = enableButtonEventPropagation css_keywords page /\
  forall i e,
    nth_error (document_after css_keywords (added idle_state s5) page) i
    = Some e ->
    exists e0,
      nth_error page i = Some e0 /\
      (affected page i e0 = true ->
       pointerEvents e = "none"%string /\ data_prev_pointer_events e = None).
Proof.
  destruct (cancelled_drag_leaves_buttons_released browser_host 0%nat idle_state
              None (mkPoint (of_Z 15) (of_Z 25))
              [pointermove None (of_Z 100) (of_Z 200)]
              (Some [touch_at 0 0; touch_at 30 40]) (of_Z 110) (of_Z 210)
              [pointerup; pointerup]
              None (mkPoint (of_Z 15) (of_Z 25))
              [pointermove None (of_Z 50) (of_Z 60)] pointerup
              eq_refl eq_refl eq_refl eq_refl eq_refl eq_refl eq_refl eq_refl)
    as (B3 & B5 & H).
  destruct (H css_keywords page eq_refl) as [H3 H5].
  split; [exact B3|]. split; [exact B5|]. split; [exact H3 | exact H5].
Defined.

(** ** The listeners of the setup functions *)

Lemma EventTarget_eqb_eq a b : EventTarget_eqb a b = true <-> a = b.
Proof.
  destruct a, b; cbn; split; intros H; try discriminate; try reflexivity.
  - apply Nat.eqb_eq in H. now subst.
  - injection H as ->. apply Nat.eqb_refl.
Qed.

Lemma EventType_eqb_eq a b : EventType_eqb a b = true <-> a = b.
Proof. destruct a, b; cbn; split; intros H; try discriminate; reflexivity. Qed.

Lemma EventTarget_eqb_refl a : EventTarget_eqb a a = true.
Proof. now apply EventTarget_eqb_eq. Qed.

Lemma EventType_eqb_refl a : EventType_eqb a a = true.
Proof. now apply EventType_eqb_eq. Qed.

Lemma same_selected t ty f r :
  selects t ty r = true ->
  same_registration (mkRegistration t ty f) r = Nat.eqb f (callback r).
Proof.
  unfold selects, same_registration. cbn. intros H.
  apply andb_true_iff in H as [A B].
  apply EventTarget_eqb_eq in A. apply EventType_eqb_eq in B. subst.
  now rewrite EventTarget_eqb_refl, EventType_eqb_refl.
Qed.

Lemma other_selected t ty t' ty' f r :
  selects t ty r = true ->
  EventTarget_eqb t' t && EventType_eqb ty' ty = false ->
  same_registration (mkRegistration t' ty' f) r = false.
Proof.
  unfold selects, same_registration. cbn. intros H N.
  apply andb_true_iff in H as [A B].
  apply EventTarget_eqb_eq in A. apply EventType_eqb_eq in B. subst.
  now rewrite N.
Qed.

Lemma listeners_on_remove t ty t' ty' f l :
  map callback
    (filter (selects t ty)
       (filter (fun r' => negb (same_registration (mkRegistration t' ty' f) r')) l))
  = if EventTarget_eqb t' t && EventType_eqb ty' ty
    then filter (fun g => negb (Nat.eqb f g))
                (map callback (filter (selects t ty) l))
    else map callback (filter (selects t ty) l).
Proof.
  destruct (EventTarget_eqb t' t && EventType_eqb ty' ty) eqn:C.
  - apply andb_true_iff in C as [A B].
    apply EventTarget_eqb_eq in A. apply EventType_eqb_eq in B. subst.
    induction l as [|r l IH]; [reflexivity|]. cbn [filter].
    destruct (selects t ty r) eqn:S.
    + rewrite (same_selected t ty f r S).
      destruct (Nat.eqb f (callback r)) eqn:F; cbn [negb filter map].
      * rewrite F. cbn [negb]. exact IH.
      * rewrite S, F. cbn [negb map]. now rewrite IH.
    + destruct (negb _); cbn [filter]; rewrite ?S; exact IH.
  - induction l as [|r l IH]; [reflexivity|]. cbn [filter].
    destruct (selects t ty r) eqn:S.
    + rewrite (other_selected t ty t' ty' f r S C). cbn [negb filter map].
      rewrite S. cbn [map]. now rewrite IH.
    + destruct (negb _); cbn [filter]; rewrite ?S; exact IH.
Qed.

Lemma listeners_on_list t ty p :
  listeners_on t ty p = on_list t ty (registrations p).
Proof. reflexivity. Qed.

Lemma on_list_app t ty l1 l2 :
  on_list t ty (l1 ++ l2) = on_list t ty l1 ++ on_list t ty l2.
Proof. unfold on_list. now rewrite filter_app, map_app. Qed.

Lemma on_list_remove t ty t' ty' f l :
  on_list t ty
    (filter (fun r' => negb (same_registration (mkRegistration t' ty' f) r')) l)
  = if EventTarget_eqb t' t && EventType_eqb ty' ty
    then filter (fun g => negb (Nat.eqb f g)) (on_list t ty l)
    else on_list t ty l.
Proof. apply listeners_on_remove. Qed.

(** A function object made after every registered one is not registered
    yet. *)
Lemma not_registered t ty f l n :
  (forall r, In r l -> (callback r < n)%nat) -> (n <= f)%nat ->
  existsb (same_registration (mkRegistration t ty f)) l = false.
Proof.
  intros H Hf. destruct (existsb _ l) eqn:E; [|reflexivity].
  apply existsb_exists in E as (r & Hr & S).
  unfold same_registration in S. cbn in S.
  apply andb_true_iff in S as [_ S]. apply Nat.eqb_eq in S.
  specialize (H r Hr). lia.
Qed.

Lemma made_filter g l n :
  (forall r, In r l -> (callback r < n)%nat) ->
  forall r, In r (filter g l) -> (callback r < n)%nat.
Proof. intros H r Hr. apply filter_In in Hr as [Hr _]. now apply H. Qed.

Lemma made_app l r n m :
  (forall r, In r l -> (callback r < n)%nat) ->
  (callback r < m)%nat -> (n <= m)%nat ->
  forall r', In r' (l ++ [r]) -> (callback r' < m)%nat.
Proof.
  intros H Hr Hn r' Hin. apply in_app_iff in Hin as [Hin|[<-|[]]].
  - specialize (H r' Hin). lia.
  - exact Hr.
Qed.

Lemma made_removed t ty o l n :
  (forall r, In r l -> (callback r < n)%nat) ->
  forall r, In r (removed t ty o l) -> (callback r < n)%nat.
Proof. destruct o; cbn; [apply made_filter | auto]. Qed.

Lemma on_list_removed t ty t' ty' o l :
  on_list t ty (removed t' ty' o l)
  = if EventTarget_eqb t' t && EventType_eqb ty' ty
    then match o with
         | Some f => filter (fun g => negb (Nat.eqb f g)) (on_list t ty l)
         | None => on_list t ty l
         end
    else on_list t ty l.
Proof.
  destruct o as [f|]; cbn [removed].
  - apply on_list_remove.
  - now destruct (_ && _).
Qed.

(** Run a setup function up to its calls of [addEventListener]. *)
Ltac run_setup :=
  cbv beta iota zeta delta
    [setupDragAndDrop setupWheelZoom setupTouchZoom
     enableMouseTracking_listeners remove_remembered removeEventListener on
     new_functions with_registrations removed
     registrations _dragEndListener _dragMoveListener _mouseTrackingListener
     lastWheelListener lastTouchStartListener lastTouchMoveListener
     lastTouchEndListener interactive functions].

Lemma add_unregistered t ty f p :
  existsb (same_registration (mkRegistration t ty f)) (registrations p) = false ->
  addEventListener t ty f p
  = with_registrations (fun l => l ++ [mkRegistration t ty f]) p.
Proof. intros E. unfold addEventListener. now rewrite E. Qed.

Lemma setupDragAndDrop_registrations model p :
  made p ->
  let n := functions p in
  registrations (setupDragAndDrop model p)
  = removed Window Pointermove (_dragMoveListener p)
      (removed Window Pointercancel (_dragEndListener p)
         (removed Window Pointerup (_dragEndListener p)
            (registrations p ++ [mkRegistration (OnModel model) Pointerdown n])))
    ++ [mkRegistration Window Pointerup (n + 1);
        mkRegistration Window Pointercancel (n + 1);
        mkRegistration Window Pointermove (n + 2)] /\
  _dragEndListener (setupDragAndDrop model p) = Some (n + 1)%nat /\
  _dragMoveListener (setupDragAndDrop model p) = Some (n + 2)%nat /\
  _mouseTrackingListener (setupDragAndDrop model p) = _mouseTrackingListener p /\
  lastWheelListener (setupDragAndDrop model p) = lastWheelListener p /\
  lastTouchStartListener (setupDragAndDrop model p) = lastTouchStartListener p /\
  lastTouchMoveListener (setupDragAndDrop model p) = lastTouchMoveListener p /\
  lastTouchEndListener (setupDragAndDrop model p) = lastTouchEndListener p /\
  functions (setupDragAndDrop model p) = (n + 3)%nat.
Proof.
  intros M n.
  set (L := removed Window Pointermove (_dragMoveListener p)
              (removed Window Pointercancel (_dragEndListener p)
                 (removed Window Pointerup (_dragEndListener p)
                    (registrations p
                       ++ [mkRegistration (OnModel model) Pointerdown n])))).
  assert (ML : forall r, In r L -> (callback r < n + 1)%nat).
  { unfold L. do 3 apply made_removed.
    apply (made_app _ _ n); [exact M | cbn; lia | lia]. }
  assert (E1 : existsb (same_registration (mkRegistration Window Pointerup (n + 1)%nat)) L
               = false) by (apply (not_registered _ _ _ _ (n + 1)); [exact ML | lia]).
  assert (E2 : existsb (same_registration (mkRegistration Window Pointercancel (n + 1)%nat))
                 (L ++ [mkRegistration Window Pointerup (n + 1)]) = false).
  { rewrite existsb_app.
    rewrite (not_registered _ _ _ _ (n + 1)) by (try exact ML; lia).
    reflexivity. }
  assert (E3 : existsb (same_registration (mkRegistration Window Pointermove (n + 2)%nat))
                 ((L ++ [mkRegistration Window Pointerup (n + 1)])
                    ++ [mkRegistration Window Pointercancel (n + 1)]) = false).
  { rewrite !existsb_app.
    rewrite (not_registered _ _ _ _ (n + 1)) by (try exact ML; lia).
    reflexivity. }
  clear ML. subst L. revert E1 E2 E3.
  destruct p as [regs de dm tr lw ts tm te inter k]. cbn in n. subst n.
  destruct de as [e|], dm as [m|]; run_setup; intros E1 E2 E3;
    rewrite (add_unregistered Window Pointerup (k + 1)) by exact E1;
    run_setup;
    rewrite (add_unregistered Window Pointercancel (k + 1)) by exact E2;
    run_setup;
    rewrite (add_unregistered Window Pointermove (k + 2)) by exact E3;
    run_setup;
    rewrite <- !app_assoc; repeat split; reflexivity.
Qed.

Lemma setupWheelZoom_registrations model p :
  made p ->
  let n := functions p in
  registrations (setupWheelZoom model p)
  = removed View Wheel (lastWheelListener p) (registrations p)
    ++ [mkRegistration View Wheel n] /\
  _dragEndListener (setupWheelZoom model p) = _dragEndListener p /\
  _dragMoveListener (setupWheelZoom model p) = _dragMoveListener p /\
  _mouseTrackingListener (setupWheelZoom model p) = _mouseTrackingListener p /\
  lastWheelListener (setupWheelZoom model p) = Some n /\
  lastTouchStartListener (setupWheelZoom model p) = lastTouchStartListener p /\
  lastTouchMoveListener (setupWheelZoom model p) = lastTouchMoveListener p /\
  lastTouchEndListener (setupWheelZoom model p) = lastTouchEndListener p /\
  functions (setupWheelZoom model p) = (n + 1)%nat.
Proof.
  intros M n.
  pose (L := removed View Wheel (lastWheelListener p) (registrations p)).
  assert (ML : forall r, In r L -> (callback r < n)%nat)
    by (unfold L; apply made_removed; exact M).
  assert (E1 : existsb (same_registration (mkRegistration View Wheel n)) L = false)
    by (apply (not_registered _ _ _ _ n); [exact ML | lia]).
  clear ML. subst L. revert E1.
  destruct p as [regs de dm tr lw ts tm te inter k]. cbn in n. subst n.
  destruct lw as [w|]; run_setup; intros E1;
    rewrite (add_unregistered View Wheel k) by exact E1;
    run_setup; repeat split; reflexivity.
Qed.

Lemma setupTouchZoom_registrations model p :
  made p ->
  let n := functions p in
  registrations (setupTouchZoom model p)
  = removed View Touchend (lastTouchEndListener p)
      (removed View Touchmove (lastTouchMoveListener p)
         (removed View Touchstart (lastTouchStartListener p) (registrations p)))
    ++ [mkRegistration View Touchstart n;
        mkRegistration View Touchmove (n + 1);
        mkRegistration View Touchend (n + 2)] /\
  _dragEndListener (setupTouchZoom model p) = _dragEndListener p /\
  _dragMoveListener (setupTouchZoom model p) = _dragMoveListener p /\
  _mouseTrackingListener (setupTouchZoom model p) = _mouseTrackingListener p /\
  lastWheelListener (setupTouchZoom model p) = lastWheelListener p /\
  lastTouchStartListener (setupTouchZoom model p) = Some n /\
  lastTouchMoveListener (setupTouchZoom model p) = Some (n + 1)%nat /\
  lastTouchEndListener (setupTouchZoom model p) = Some (n + 2)%nat /\
  functions (setupTouchZoom model p) = (n + 3)%nat.
Proof.
  intros M n.
  pose (L := removed View Touchend (lastTouchEndListener p)
               (removed View Touchmove (lastTouchMoveListener p)
                  (removed View Touchstart (lastTouchStartListener p)
                     (registrations p)))).
  assert (ML : forall r, In r L -> (callback r < n)%nat)
    by (unfold L; do 3 apply made_removed; exact M).
  assert (E1 : existsb (same_registration (mkRegistration View Touchstart n)) L
               = false)
    by (apply (not_registered _ _ _ _ n); [exact ML | lia]).
  assert (E2 : existsb (same_registration (mkRegistration View Touchmove (n + 1)%nat))
                 (L ++ [mkRegistration View Touchstart n]) = false).
  { rewrite existsb_app.
    rewrite (not_registered _ _ _ _ n) by (try exact ML; lia). reflexivity. }
  assert (E3 : existsb (same_registration (mkRegistration View Touchend (n + 2)%nat))
                 ((L ++ [mkRegistration View Touchstart n])
                    ++ [mkRegistration View Touchmove (n + 1)]) = false).
  { rewrite !existsb_app.
    rewrite (not_registered _ _ _ _ n) by (try exact ML; lia). reflexivity. }
  clear ML. subst L. revert E1 E2 E3.
  destruct p as [regs de dm tr lw ts tm te inter k]. cbn in n. subst n.
  destruct ts as [a|], tm as [b|], te as [c|]; run_setup;
    intros E1 E2 E3;
    rewrite (add_unregistered View Touchstart k) by exact E1;
    run_setup;
    rewrite (add_unregistered View Touchmove (k + 1)) by exact E2;
    run_setup;
    rewrite (add_unregistered View Touchend (k + 2)) by exact E3;
    run_setup;
    rewrite <- !app_assoc; repeat split; reflexivity.
Qed.

Lemma enableMouseTracking_registrations model p :
  made p ->
  let n := functions p in
  registrations (enableMouseTracking_listeners model p)
  = removed Window Pointermove (_mouseTrackingListener p)
      (registrations p ++ [mkRegistration (OnModel model) Pointerover n;
                           mkRegistration (OnModel model) Pointerout (n + 1)])
    ++ [mkRegistration Window Pointermove (n + 2)] /\
  _dragEndListener (enableMouseTracking_listeners model p) = _dragEndListener p /\
  _dragMoveListener (enableMouseTracking_listeners model p) = _dragMoveListener p /\
  _mouseTrackingListener (enableMouseTracking_listeners model p)
  = Some (n + 2)%nat /\
  lastWheelListener (enableMouseTracking_listeners model p) = lastWheelListener p /\
  lastTouchStartListener (enableMouseTracking_listeners model p)
  = lastTouchStartListener p /\
  lastTouchMoveListener (enableMouseTracking_listeners model p)
  = lastTouchMoveListener p /\
  lastTouchEndListener (enableMouseTracking_listeners model p)
  = lastTouchEndListener p /\
  functions (enableMouseTracking_listeners model p) = (n + 3)%nat.
Proof.
  intros M n.
  pose (L := removed Window Pointermove (_mouseTrackingListener p)
               (registrations p
                  ++ [mkRegistration (OnModel model) Pointerover n;
                      mkRegistration (OnModel model) Pointerout (n + 1)])).
  assert (ML : forall r, In r L -> (callback r < n + 2)%nat).
  { unfold L. apply made_removed. intros r Hr.
    apply in_app_iff in Hr as [Hr|[<-|[<-|[]]]]; cbn; try lia.
    specialize (M r Hr). fold n in M. lia. }
  assert (E1 : existsb (same_registration
                          (mkRegistration Window Pointermove (n + 2)%nat)) L = false)
    by (apply (not_registered _ _ _ _ (n + 2)); [exact ML | lia]).
  clear ML. subst L. revert E1.
  destruct p as [regs de dm tr lw ts tm te inter k]. cbn in n. subst n.
  destruct tr as [t|]; run_setup; rewrite <- ?app_assoc; cbn [app]; intros E1;
    rewrite (add_unregistered Window Pointermove (k + 2)) by exact E1;
    run_setup; rewrite <- ?app_assoc; repeat split; reflexivity.
Qed.

Lemma on_list_cons t ty r l :
  on_list t ty (r :: l)
  = (if selects t ty r then [callback r] else []) ++ on_list t ty l.
Proof. unfold on_list. cbn. now destruct (selects t ty r). Qed.

Lemma on_list_nil t ty : on_list t ty [] = [].
Proof. reflexivity. Qed.

Ltac compute_listeners R :=
  rewrite ?listeners_on_list, ?R;
  repeat first [ rewrite on_list_app | rewrite on_list_removed
               | rewrite on_list_cons | rewrite on_list_nil ];
  cbn [selects EventTarget_eqb EventType_eqb andb target event_type callback
       app];
  rewrite ?app_nil_r.

Ltac eqb_neq :=
  repeat match goal with
         | |- context [Nat.eqb ?a ?a] => rewrite (Nat.eqb_refl a)
         | N : ?a <> ?b |- context [Nat.eqb ?a ?b] =>
             rewrite (proj2 (Nat.eqb_neq a b) N)
         | N : ?b <> ?a |- context [Nat.eqb ?a ?b] =>
             rewrite (proj2 (Nat.eqb_neq a b) (not_eq_sym N))
         end.

(** A conjunct of [tidy] about a field [o] that was, or was not,
    replaced. *)
Ltac tidy_case R T o :=
  compute_listeners R; rewrite T;
  destruct o; cbn [remembered filter negb app]; eqb_neq;
  cbn [negb filter app]; reflexivity.

Ltac solve_remembered_made :=
  repeat split; intros f H; try (injection H as <-); try lia;
  try match goal with
      | K : forall f, ?o = Some f -> _, H : ?o = Some _ |- _ =>
          specialize (K _ H); lia
      end.

Lemma settled_drag model p : settled p -> settled (setupDragAndDrop model p).
Proof.
  intros (M & RM & T).
  destruct (setupDragAndDrop_registrations model p M)
    as (R & F1 & F2 & F3 & F4 & F5 & F6 & F7 & Fn).
  cbn zeta in *.
  destruct RM as (Me & Mm & Mt & Mw & Ms & Mv & Mx & Dist).
  destruct T as (T1 & T2 & T3 & T4 & T5 & T6 & T7).
  rewrite listeners_on_list in T1, T2, T3, T4, T5, T6, T7.
  split; [|split].
  - unfold made. rewrite R, Fn. intros r Hr.
    apply in_app_iff in Hr as [Hr|Hr].
    + assert (callback r < functions p + 1)%nat; [|lia].
      revert r Hr. do 3 apply made_removed.
      apply (made_app _ _ (functions p)); [exact M | cbn; lia | lia].
    + cbn in Hr. destruct Hr as [<-|[<-|[<-|[]]]]; cbn; lia.
  - unfold remembered_made. rewrite F1, F2, F3, F4, F5, F6, F7, Fn.
    solve_remembered_made.
    intros C. specialize (Mt _ C). lia.
  - unfold tidy. rewrite F1, F2, F3, F4, F5, F6, F7.
    split; [tidy_case R T1 (_dragEndListener p)|].
    split; [tidy_case R T2 (_dragEndListener p)|].
    split.
    { right. compute_listeners R.
      destruct (_dragMoveListener p) as [m|] eqn:Em,
               (_mouseTrackingListener p) as [t|] eqn:Et;
        destruct T3 as [T3|T3]; rewrite T3;
        cbn [remembered filter negb app];
        try (assert (N : m <> t) by (intros ->; now apply (Dist t)));
        eqb_neq; cbn [negb filter app]; reflexivity. }
    split; [compute_listeners R; exact T4|].
    split; [compute_listeners R; exact T5|].
    split; [compute_listeners R; exact T6|].
    compute_listeners R; exact T7.
Qed.

Lemma settled_wheel model p : settled p -> settled (setupWheelZoom model p).
Proof.
  intros (M & RM & T).
  destruct (setupWheelZoom_registrations model p M)
    as (R & F1 & F2 & F3 & F4 & F5 & F6 & F7 & Fn).
  cbn zeta in *.
  destruct RM as (Me & Mm & Mt & Mw & Ms & Mv & Mx & Dist).
  destruct T as (T1 & T2 & T3 & T4 & T5 & T6 & T7).
  rewrite listeners_on_list in T1, T2, T3, T4, T5, T6, T7.
  split; [|split].
  - unfold made. rewrite R, Fn. intros r Hr.
    apply in_app_iff in Hr as [Hr|Hr].
    + assert (callback r < functions p)%nat; [|lia].
      revert r Hr. apply made_removed. exact M.
    + cbn in Hr. destruct Hr as [<-|[]]; cbn; lia.
  - unfold remembered_made. rewrite F1, F2, F3, F4, F5, F6, F7, Fn.
    solve_remembered_made. exact (Dist f H).
  - unfold tidy. rewrite F1, F2, F3, F4, F5, F6, F7.
    split; [compute_listeners R; exact T1|].
    split; [compute_listeners R; exact T2|].
    split; [compute_listeners R; exact T3|].
    split; [tidy_case R T4 (lastWheelListener p)|].
    split; [compute_listeners R; exact T5|].
    split; [compute_listeners R; exact T6|].
    compute_listeners R; exact T7.
Qed.

Lemma settled_touch model p : settled p -> settled (setupTouchZoom model p).
Proof.
  intros (M & RM & T).
  destruct (setupTouchZoom_registrations model p M)
    as (R & F1 & F2 & F3 & F4 & F5 & F6 & F7 & Fn).
  cbn zeta in *.
  destruct RM as (Me & Mm & Mt & Mw & Ms & Mv & Mx & Dist).
  destruct T as (T1 & T2 & T3 & T4 & T5 & T6 & T7).
  rewrite listeners_on_list in T1, T2, T3, T4, T5, T6, T7.
  split; [|split].
  - unfold made. rewrite R, Fn. intros r Hr.
    apply in_app_iff in Hr as [Hr|Hr].
    + assert (callback r < functions p)%nat; [|lia].
      revert r Hr. do 3 apply made_removed. exact M.
    + cbn in Hr. destruct Hr as [<-|[<-|[<-|[]]]]; cbn; lia.
  - unfold remembered_made. rewrite F1, F2, F3, F4, F5, F6, F7, Fn.
    solve_remembered_made. exact (Dist f H).
  - unfold tidy. rewrite F1, F2, F3, F4, F5, F6, F7.
    split; [compute_listeners R; exact T1|].
    split; [compute_listeners R; exact T2|].
    split; [compute_listeners R; exact T3|].
    split; [compute_listeners R; exact T4|].
    split; [tidy_case R T5 (lastTouchStartListener p)|].
    split; [tidy_case R T6 (lastTouchMoveListener p)|].
    tidy_case R T7 (lastTouchEndListener p).
Qed.

Lemma settled_tracking model p :
  settled p -> settled (enableMouseTracking_listeners model p).
Proof.
  intros (M & RM & T).
  destruct (enableMouseTracking_registrations model p M)
    as (R & F1 & F2 & F3 & F4 & F5 & F6 & F7 & Fn).
  cbn zeta in *.
  destruct RM as (Me & Mm & Mt & Mw & Ms & Mv & Mx & Dist).
  destruct T as (T1 & T2 & T3 & T4 & T5 & T6 & T7).
  rewrite listeners_on_list in T1, T2, T3, T4, T5, T6, T7.
  split; [|split].
  - unfold made. rewrite R, Fn. intros r Hr.
    apply in_app_iff in Hr as [Hr|Hr].
    + assert (callback r < functions p + 2)%nat; [|lia].
      revert r Hr. apply made_removed. intros r Hr.
      apply in_app_iff in Hr as [Hr|[<-|[<-|[]]]]; cbn; try lia.
      specialize (M r Hr). lia.
    + cbn in Hr. destruct Hr as [<-|[]]; cbn; lia.
  - unfold remembered_made. rewrite F1, F2, F3, F4, F5, F6, F7, Fn.
    solve_remembered_made.
    intros C. injection C as C. specialize (Mm _ H). lia.
  - unfold tidy. rewrite F1, F2, F3, F4, F5, F6, F7.
    split; [compute_listeners R; exact T1|].
    split; [compute_listeners R; exact T2|].
    split.
    { left. compute_listeners R.
      destruct (_dragMoveListener p) as [m|] eqn:Em,
               (_mouseTrackingListener p) as [t|] eqn:Et;
        destruct T3 as [T3|T3]; rewrite T3;
        cbn [remembered filter negb app];
        try (assert (N : m <> t) by (intros ->; now apply (Dist t)));
        eqb_neq; cbn [negb filter app]; reflexivity. }
    split; [compute_listeners R; exact T4|].
    split; [compute_listeners R; exact T5|].
    split; [compute_listeners R; exact T6|].
    compute_listeners R; exact T7.
Qed.

Lemma settled_blank : settled blank_page.
Proof.
  split; [|split].
  - intros r [].
  - repeat split; intros f H; discriminate.
  - repeat split; try reflexivity. now left.
Qed.

Lemma settled_setups l : forall p, settled p -> settled (setups l p).
Proof.
  induction l as [|c l IH]; intros p H; [exact H|].
  cbn. apply IH. destruct c; cbn.
  - now apply settled_drag.
  - now apply settled_wheel.
  - now apply settled_touch.
  - now apply settled_tracking.
Qed.

(** The [pointerdown] listeners of a model pile up. *)
Lemma pointerdown_count model c p :
  made p ->
  List.length (listeners_on (OnModel model) Pointerdown (setup c p))
  = (List.length (listeners_on (OnModel model) Pointerdown p)
     + if is_DragAndDrop model c then 1 else 0)%nat.
Proof.
  intros M. destruct c as [m|m|m|m]; cbn [setup is_DragAndDrop].
  - destruct (setupDragAndDrop_registrations m p M) as (R & _).
    cbn zeta in R. compute_listeners R. rewrite ?app_nil_r.
    unfold selects; cbn [target event_type callback EventTarget_eqb
                         EventType_eqb andb].
    destruct (Nat.eqb m model); cbn [andb];
      rewrite ?app_nil_r, ?length_app; cbn [List.length]; lia.
  - destruct (setupWheelZoom_registrations m p M) as (R & _).
    cbn zeta in R. compute_listeners R. now rewrite Nat.add_0_r.
  - destruct (setupTouchZoom_registrations m p M) as (R & _).
    cbn zeta in R. compute_listeners R. now rewrite Nat.add_0_r.
  - destruct (enableMouseTracking_registrations m p M) as (R & _).
    cbn zeta in R. compute_listeners R.
    unfold selects; cbn [target event_type callback EventTarget_eqb
                         EventType_eqb andb].
    rewrite !andb_false_r, !app_nil_r. now rewrite Nat.add_0_r.
Qed.

(** X16.  After any sequence of calls of [setupDragAndDrop],
    [setupWheelZoom], [setupTouchZoom] and [enableMouseTracking] on a
    fresh page, the window and the canvas carry for each event exactly
    the listeners the manager and the canvas remember (the latest of
    each setup; on the window's [pointermove] the drag listener and the
    tracking listener, when set up): older listeners have been removed.
    The [pointerdown] listeners of a model are never removed: a model
    has one for every call of [setupDragAndDrop] on it. *)
Theorem setup_keeps_one_listener_per_event l :
  let p := setups l blank_page in
  listeners_on Window Pointerup p = remembered (_dragEndListener p) /\
  listeners_on Window Pointercancel p = remembered (_dragEndListener p) /\
  (listeners_on Window Pointermove p
   = remembered (_dragMoveListener p) ++ remembered (_mouseTrackingListener p)
   \/
   listeners_on Window Pointermove p
   = remembered (_mouseTrackingListener p) ++ remembered (_dragMoveListener p)) /\
  listeners_on View Wheel p = remembered (lastWheelListener p) /\
  listeners_on View Touchstart p = remembered (lastTouchStartListener p) /\
  listeners_on View Touchmove p = remembered (lastTouchMoveListener p) /\
  listeners_on View Touchend p = remembered (lastTouchEndListener p) /\
  forall model,
    List.length (listeners_on (OnModel model) Pointerdown p)
    = List.length (filter (is_DragAndDrop model) l).
Proof.
  intros p.
  destruct (settled_setups l blank_page settled_blank) as (M & _ & T).
  fold p in M, T. destruct T as (T1 & T2 & T3 & T4 & T5 & T6 & T7).
  repeat (split; [assumption|]).
  intros model. unfold p.
  assert (G : forall k q, settled q ->
            List.length (listeners_on (OnModel model) Pointerdown (setups k q))
            = (List.length (listeners_on (OnModel model) Pointerdown q)
               + List.length (filter (is_DragAndDrop model) k))%nat).
  { clear. induction k as [|c k IH]; intros q Hq;
      [cbn [setups fold_left filter List.length]; lia|].
    cbn [setups fold_left filter].
    fold (setups k (setup c q)).
    rewrite IH.
    - rewrite pointerdown_count by apply Hq.
      destruct (is_DragAndDrop model c); cbn [List.length]; lia.
    - apply (settled_setups [c] q Hq). }
  rewrite G by apply settled_blank. reflexivity.
Qed.

(** ** The mouse tracking *)

Lemma clear_slot s : hide_slot s -> hide_slot (clearHideButtonsTimer s).
Proof.
  unfold hide_slot, clearHideButtonsTimer. intros H.
  destruct (hideTimers s) as [|tm [|tm' l]] eqn:T; [| |contradiction].
  - rewrite H. now rewrite T.
  - rewrite H. cbn. rewrite T. cbn. now rewrite Pos.eqb_refl.
Qed.

Lemma start_slot delay s : hide_slot s -> hide_slot (startHideTimer delay s).
Proof.
  unfold hide_slot, startHideTimer. intros H.
  destruct (_goodbyeClicked s); [exact H|].
  destruct (hideTimers s) as [|tm [|tm' l]] eqn:T; [| |contradiction].
  - rewrite H. cbn. now rewrite ?T.
  - rewrite H. cbn. now rewrite ?T.
Qed.

Lemma show_slot s : hide_slot s -> hide_slot (showButtons s).
Proof.
  intros H. unfold showButtons.
  destruct (_goodbyeClicked s); [exact H|].
  apply clear_slot. cbn. destruct (negb (isLocked (manager s))); exact H.
Qed.

Lemma track_slot threshold e s :
  hide_slot s -> hide_slot (track threshold e s).
Proof.
  intros H. destruct e as [| |box cX cY| |]; cbn [track].
  - now apply show_slot.
  - now apply start_slot.
  - unfold onPointerMove.
    destruct (model_interactive s && model_dragging s); [exact H|].
    destruct (_goodbyeClicked s) eqn:G; [exact H|].
    destruct box as [b|]; [|exact H].
    destruct (lt _ threshold).
    + pose proof (show_slot s H) as H'.
      destruct (isFocusing (manager (showButtons s))); exact H'.
    + apply start_slot. exact H.
  - apply clear_slot. exact H.
  - apply start_slot. exact H.
Qed.

Lemma act_slot threshold a s :
  hide_slot s -> hide_slot (act threshold a s).
Proof.
  intros H. destruct a as [t e|t]; cbn [act].
  - apply track_slot. exact H.
  - assert (Ht : hide_slot (tick t s)) by exact H.
    revert Ht. generalize (tick t s). clear s H. intros s H.
    unfold hide_slot in H.
    destruct (hideTimers s) as [|tm [|tm' l]] eqn:T; [| |contradiction].
    + cbn. unfold hide_slot. now rewrite T.
    + cbn [find]. destruct (hide_due tm <=? clock s); [|unfold hide_slot; now rewrite T].
      unfold hideButtonsTimerCallback.
      assert (E : with_hideTimers
                    (filter (fun tm' => negb (Pos.eqb (hide_id tm') (hide_id tm)))) s
                  = with_hideTimers (fun _ => []) s).
      { unfold with_hideTimers. rewrite T. cbn. now rewrite Pos.eqb_refl. }
      rewrite E. cbn.
      destruct (_isMouseOverButtons s).
      * apply start_slot. unfold hide_slot. cbn. reflexivity.
      * unfold hide_slot.
        destruct (held_lockIcon tm), (held_floatingButtons tm); cbn;
          destruct (_goodbyeClicked s); cbn; reflexivity.
Qed.

Lemma acts_slot threshold l : forall s,
  hide_slot s -> hide_slot (acts threshold l s).
Proof.
  induction l as [|a l IH]; intros s H; [exact H|].
  cbn. apply IH. now apply act_slot.
Qed.

(** X17.  From a state in which at most one hide timer is pending and the
    field [_hideButtonsTimer] holds its id exactly while one is pending
    (as when nothing is pending), every sequence of tracking events and
    of timers that fire leads to such a state: hide timers do not pile
    up, and the field never refers to a timer that is gone. *)
Theorem hide_timer_is_single_slot threshold l s :
  hide_slot s ->
  let s' := acts threshold l s in
  (List.length (hideTimers s') <= 1)%nat /\
  (_hideButtonsTimer s' = None <-> hideTimers s' = []) /\
  forall tm, In tm (hideTimers s') -> _hideButtonsTimer s' = Some (hide_id tm).
Proof.
  intros H s'. pose proof (acts_slot threshold l s H) as H'. fold s' in H'.
  unfold hide_slot in H'.
  destruct (hideTimers s') as [|tm [|tm' k]]; [| |contradiction].
  - split; [cbn; lia|]. split; [tauto | intros tm []].
  - split; [cbn; lia|]. split.
    + rewrite H'. split; discriminate.
    + intros tm0 [<-|[]]. exact H'.
Qed.

Lemma hide_timer_is_single_slot_witness :
  let s' := acts (threshold_of None)
              [Deliver 0 model_pointerover; Deliver 10 model_pointerout;
               Deliver 20 buttons_mouseleave; Deliver 30 move_far;
               Fire 2000; Deliver 2010 move_near]
              (tracking_state (this idle_state) false false) in
  (List.length (hideTimers s') <= 1)%nat /\
  (_hideButtonsTimer s' = None <-> hideTimers s' = []) /\
  forall tm, In tm (hideTimers s') -> _hideButtonsTimer s' = Some (hide_id tm).
Proof.
  exact (hide_timer_is_single_slot (threshold_of None)
           [Deliver 0 model_pointerover; Deliver 10 model_pointerout;
            Deliver 20 buttons_mouseleave; Deliver 30 move_far;
            Fire 2000; Deliver 2010 move_near]
           (tracking_state (this idle_state) false false) eq_refl).
Defined.

(** Run the tracking code on a state given by its fields. *)
Ltac run_tracking :=
  cbv beta iota zeta delta
    [act track tick onPointerMove onMouseEnter onMouseLeave showButtons
     startHideTimer hideButtonsTimerCallback clearHideButtonsTimer focus
     with_manager with_isMouseOverButtons with_hideButtonsTimer with_controls
     with_hideTimers with_clock on_lockIcon on_floatingButtons
     on_returnButtonContainer set_display set_display_important option_map
     is_some set_isFocusing
     manager _goodbyeClicked _isMouseOverButtons _hideButtonsTimer
     model_interactive model_dragging controls hideTimers nextHideTimer clock
     focused lockIcon floatingButtons returnButtonContainer
     hide_id hide_due hide_delay held_lockIcon held_floatingButtons
     display important isLocked isFocusing
     negb andb orb nearby is_mouseleave leaving];
  cbn [find filter app].

Ltac split_tracking :=
  repeat (run_tracking;
          match goal with
          | |- context [match find ?f ?l with _ => _ end] =>
              destruct (find f l) as [[? ? ? ? ?]|] eqn:?
          | |- context [if ?c then _ else _] =>
              lazymatch c with
              | context [if _ then _ else _] => fail
              | context [match _ with _ => _ end] => fail
              | _ => destruct c eqn:?
              end
          | |- context [match ?c with _ => _ end] =>
              lazymatch c with
              | context [if _ then _ else _] => fail
              | context [match _ with _ => _ end] => fail
              | _ => destruct c eqn:?
              end
          end); run_tracking.

(** A state given by its fields. *)
Ltac fields s :=
  destruct s as [[? ? ? ? ?] ? ? ? ? ? [? ? ?] ? ? ? ?];
  cbn [manager _goodbyeClicked _isMouseOverButtons _hideButtonsTimer
       model_interactive model_dragging controls hideTimers nextHideTimer
       clock focused lockIcon floatingButtons returnButtonContainer
       isLocked isFocusing] in *.

(** *** While the mouse is over the buttons *)

Lemma hovered_step threshold a s :
  _isMouseOverButtons s = true -> _goodbyeClicked s = false ->
  is_mouseleave a = false ->
  let s' := act threshold a s in
  _isMouseOverButtons s' = true /\ _goodbyeClicked s' = false /\
  (floatingButtons (controls s') = floatingButtons (controls s) \/
   floatingButtons (controls s') = Some (mkDisplayStyle "flex" false)).
Proof.
  intros Ho Hg Ha. fields s. subst.
  destruct a as [t [| |b cX cY| |]|t]; try discriminate; split_tracking;
    try discriminate; repeat split; auto.
Qed.

(** X18.  While the mouse is over the buttons (after their [mouseenter],
    before a [mouseleave]) and the goodbye button was not clicked,
    nothing hides the floating buttons: whatever pointer events arrive
    and whatever timers fire, their [display] is what it was or has
    been set to [flex]. *)
Theorem floating_buttons_stay_while_hovered threshold l : forall s,
  _isMouseOverButtons s = true -> _goodbyeClicked s = false ->
  forallb (fun a => negb (is_mouseleave a)) l = true ->
  let s' := acts threshold l s in
  floatingButtons (controls s') = floatingButtons (controls s) \/
  floatingButtons (controls s') = Some (mkDisplayStyle "flex" false).
Proof.
  induction l as [|a l IH]; intros s Ho Hg Hl; [now left|].
  cbn in Hl. apply andb_true_iff in Hl as [Ha Hl]. apply negb_true_iff in Ha.
  destruct (hovered_step threshold a s Ho Hg Ha) as (Ho1 & Hg1 & H1).
  cbn zeta in *. cbn [acts fold_left].
  destruct (IH (act threshold a s) Ho1 Hg1 Hl) as [H2|H2].
  - unfold acts in H2. rewrite H2. exact H1.
  - now right.
Qed.

Lemma floating_buttons_stay_while_hovered_witness :
  let s := tracking_state (this idle_state) false true in
  let s' := acts (threshold_of None)
              [Deliver 10 move_far; Fire 5000; Deliver 5010 model_pointerout;
               Fire 9000] s in
  floatingButtons (controls s') = floatingButtons (controls s) \/
  floatingButtons (controls s') = Some (mkDisplayStyle "flex" false).
Proof.
  exact (floating_buttons_stay_while_hovered (threshold_of None)
           [Deliver 10 move_far; Fire 5000; Deliver 5010 model_pointerout;
            Fire 9000]
           (tracking_state (this idle_state) false true)
           eq_refl eq_refl eq_refl).
Defined.

(** *** After the goodbye button *)

Lemma goodbye_step threshold a s :
  _goodbyeClicked s = true ->
  let s' := act threshold a s in
  _goodbyeClicked s' = true /\ focused s' = focused s /\
  (isFocusing (manager s) = false -> isFocusing (manager s') = false) /\
  incl (hideTimers s') (hideTimers s) /\
  (lockIcon (controls s') = lockIcon (controls s) \/
   exists i, lockIcon (controls s') = Some (mkDisplayStyle "none" i)) /\
  (floatingButtons (controls s') = floatingButtons (controls s) \/
   floatingButtons (controls s') = Some (mkDisplayStyle "none" false)).
Proof.
  intros Hg. fields s. subst.
  destruct a as [t [| |b cX cY| |]|t]; split_tracking; try discriminate;
    repeat split; eauto using incl_refl, incl_filter.
Qed.

(** X19.  Once the goodbye button was clicked the tracking never calls
    [model.focus], never turns [isFocusing] on, arms no hide timer,
    and writes to the lock icon and to the floating buttons nothing but
    [display: none]. *)
Theorem goodbye_shows_nothing threshold l : forall s,
  _goodbyeClicked s = true ->
  let s' := acts threshold l s in
  focused s' = focused s /\
  (isFocusing (manager s) = false -> isFocusing (manager s') = false) /\
  incl (hideTimers s') (hideTimers s) /\
  (lockIcon (controls s') = lockIcon (controls s) \/
   exists i, lockIcon (controls s') = Some (mkDisplayStyle "none" i)) /\
  (floatingButtons (controls s') = floatingButtons (controls s) \/
   floatingButtons (controls s') = Some (mkDisplayStyle "none" false)).
Proof.
  induction l as [|a l IH]; intros s Hg.
  - cbn. repeat split; auto using incl_refl.
  - destruct (goodbye_step threshold a s Hg) as (G1 & F1 & I1 & T1 & L1 & B1).
    cbn zeta in *. cbn [acts fold_left].
    destruct (IH (act threshold a s) G1) as (F2 & I2 & T2 & L2 & B2).
    cbn zeta in *. unfold acts in *.
    split; [congruence|]. split; [auto|].
    split; [eapply incl_tran; eassumption|].
    split.
    + destruct L2 as [L2|L2]; [rewrite L2; exact L1 | now right].
    + destruct B2 as [B2|B2]; [rewrite B2; exact B1 | now right].
Qed.

Lemma goodbye_shows_nothing_witness :
  let s := tracking_state (this idle_state) true false in
  let s' := acts (threshold_of None)
              [Deliver 0 model_pointerover; Deliver 10 move_near;
               Deliver 20 model_pointerout; Fire 3000] s in
  focused s' = focused s /\
  (isFocusing (manager s) = false -> isFocusing (manager s') = false) /\
  incl (hideTimers s') (hideTimers s) /\
  (lockIcon (controls s') = lockIcon (controls s) \/
   exists i, lockIcon (controls s') = Some (mkDisplayStyle "none" i)) /\
  (floatingButtons (controls s') = floatingButtons (controls s) \/
   floatingButtons (controls s') = Some (mkDisplayStyle "none" false)).
Proof.
  exact (goodbye_shows_nothing (threshold_of None)
           [Deliver 0 model_pointerover; Deliver 10 move_near;
            Deliver 20 model_pointerout; Fire 3000]
           (tracking_state (this idle_state) true false) eq_refl).
Defined.

(** *** While the model is locked *)

Lemma locked_step threshold a s :
  isLocked (manager s) = true ->
  let s' := act threshold a s in
  isLocked (manager s') = true /\
  (floatingButtons (controls s') = floatingButtons (controls s) \/
   floatingButtons (controls s') = Some (mkDisplayStyle "none" false)).
Proof.
  intros Hl. fields s. subst.
  destruct a as [t [| |b cX cY| |]|t]; split_tracking; try discriminate;
    repeat split; auto.
Qed.

(** X20.  While the manager is locked the tracking never shows the floating
    buttons: their [display] is what it was or has been set to
    [none]. *)
Theorem locked_never_shows_floating_buttons threshold l : forall s,
  isLocked (manager s) = true ->
  let s' := acts threshold l s in
  floatingButtons (controls s') = floatingButtons (controls s) \/
  floatingButtons (controls s') = Some (mkDisplayStyle "none" false).
Proof.
  induction l as [|a l IH]; intros s Hl; [now left|].
  destruct (locked_step threshold a s Hl) as (L1 & B1).
  cbn zeta in *. cbn [acts fold_left].
  destruct (IH (act threshold a s) L1) as [B2|B2].
  - unfold acts in B2. rewrite B2. exact B1.
  - now right.
Qed.

Lemma locked_never_shows_floating_buttons_witness :
  let s := tracking_state (this locked_state) false false in
  let s' := acts (threshold_of None)
              [Deliver 0 model_pointerover; Deliver 10 move_near;
               Deliver 20 model_pointerout; Fire 3000] s in
  floatingButtons (controls s') = floatingButtons (controls s) \/
  floatingButtons (controls s') = Some (mkDisplayStyle "none" false).
Proof.
  exact (locked_never_shows_floating_buttons (threshold_of None)
           [Deliver 0 model_pointerover; Deliver 10 move_near;
            Deliver 20 model_pointerout; Fire 3000]
           (tracking_state (this locked_state) false false) eq_refl).
Defined.

(** *** The calls of [model.focus] *)

Lemma focus_step threshold a s :
  let s' := act threshold a s in
  _goodbyeClicked s' = _goodbyeClicked s /\
  model_interactive s' = model_interactive s /\
  model_dragging s' = model_dragging s /\
  focused s'
  = focused s ++
    (if (model_interactive s && model_dragging s) || _goodbyeClicked s
     then [] else nearby threshold a).
Proof.
  fields s.
  destruct a as [t [| |b cX cY| |]|t]; split_tracking; try discriminate;
    rewrite ?app_nil_r; repeat split; auto.
Qed.

(** X21.  The calls of [model.focus] are exactly the positions of the
    pointer moves whose distance to the bounding box of the model is
    below the threshold, in order; there is none while the model is
    interactive and being dragged, none after the goodbye button was
    clicked, and none for a move at which [getBounds] throws. *)
Theorem focus_follows_nearby_pointer threshold l : forall s,
  let s' := acts threshold l s in
  focused s'
  = focused s ++
    (if (model_interactive s && model_dragging s) || _goodbyeClicked s
     then [] else flat_map (nearby threshold) l).
Proof.
  induction l as [|a l IH]; intros s.
  - cbn. destruct (_ || _); now rewrite app_nil_r.
  - destruct (focus_step threshold a s) as (G1 & I1 & D1 & F1).
    cbn zeta in *. cbn [acts fold_left flat_map].
    specialize (IH (act threshold a s)). cbn zeta in IH. unfold acts in IH.
    rewrite IH, F1, G1, I1, D1.
    clear IH.
    destruct (model_interactive s && model_dragging s || _goodbyeClicked s);
      rewrite ?app_nil_r, <- ?app_assoc; reflexivity.
Qed.

(** *** Hiding after the pointer has left *)

Lemma leaving_arms threshold t e s :
  leaving e = true -> hideTimers s = [] -> _hideButtonsTimer s = None ->
  _goodbyeClicked s = false ->
  let s' := act threshold (Deliver t e) s in
  pending (Z.max (clock s) t + 1000) (controls s) s' /\
  (e = model_pointerout -> _isMouseOverButtons s' = _isMouseOverButtons s) /\
  (e = buttons_mouseleave -> _isMouseOverButtons s' = false).
Proof.
  intros He Ht Hf Hg. destruct s. cbn in Ht, Hf, Hg. subst.
  destruct e; try discriminate; run_tracking;
    (split; [|split; intros; first [reflexivity | discriminate]]);
    (split; [reflexivity|]); (split; [reflexivity|]);
    eexists; repeat split.
Qed.

Lemma leaving_keeps threshold t e s due_ c :
  leaving e = true -> pending due_ c s ->
  let s' := act threshold (Deliver t e) s in
  pending due_ c s' /\
  (e = model_pointerout -> _isMouseOverButtons s' = _isMouseOverButtons s) /\
  (e = buttons_mouseleave -> _isMouseOverButtons s' = false).
Proof.
  intros He (Hg & Hc & tm & Ht & Hf & Hd & Hl & Hb).
  destruct s. cbn in Hg, Hc, Ht, Hf. subst.
  destruct e; try discriminate; run_tracking;
    (split; [|split; intros; first [reflexivity | discriminate]]);
    (split; [reflexivity|]); (split; [reflexivity|]);
    exists tm; repeat split; assumption.
Qed.

Lemma fire_hides threshold t s due_ c :
  pending due_ c s -> _isMouseOverButtons s = false ->
  due_ <= t ->
  let s' := act threshold (Fire t) s in
  hideTimers s' = [] /\ _hideButtonsTimer s' = None /\
  isFocusing (manager s') = false /\
  displayed "none" (lockIcon (controls s')) /\
  displayed "none" (floatingButtons (controls s')).
Proof.
  intros (Hg & Hc & tm & Ht & Hf & Hd & Hl & Hb) Ho Hdue.
  destruct s as [[lk fc cm pth dt] g o h mi md [li fb rb] ts nx ck fo].
  destruct tm as [i d dl hl hf].
  cbn [manager _goodbyeClicked _isMouseOverButtons _hideButtonsTimer
       controls hideTimers clock lockIcon floatingButtons
       hide_id hide_due held_lockIcon held_floatingButtons] in *.
  subst. run_tracking.
  match goal with
  | |- context [?a <=? ?b] =>
      assert (D : (a <=? b) = true) by (apply Z.leb_le; lia); rewrite D
  end.
  run_tracking. rewrite Pos.eqb_refl. run_tracking.
  destruct li, fb; cbn; repeat split.
Qed.

Lemma fire_early threshold t s due_ c :
  pending due_ c s -> Z.max (clock s) t < due_ ->
  act threshold (Fire t) s = tick t s.
Proof.
  intros (Hg & Hc & tm & Ht & Hf & Hd & Hl & Hb) Hdue.
  destruct s as [[lk fc cm pth dt] g o h mi md [li fb rb] ts nx ck fo].
  destruct tm as [i d dl hl hf].
  cbn [manager _goodbyeClicked _isMouseOverButtons _hideButtonsTimer
       controls hideTimers clock lockIcon floatingButtons
       hide_id hide_due held_lockIcon held_floatingButtons] in *.
  subst. run_tracking.
  match goal with
  | |- context [?a <=? ?b] =>
      assert (D : (a <=? b) = false) by (apply Z.leb_gt; lia); rewrite D
  end.
  reflexivity.
Qed.

Lemma leavings_keep threshold due_ c l : forall s,
  forallb (fun te => leaving (snd te)) l = true ->
  pending due_ c s -> _isMouseOverButtons s = false ->
  let s' := acts threshold (deliveries l) s in
  pending due_ c s' /\ _isMouseOverButtons s' = false.
Proof.
  induction l as [|[t e] l IH]; intros s Hl Hp Ho; [now split|].
  cbn in Hl. apply andb_true_iff in Hl as [He Hl].
  destruct (leaving_keeps threshold t e s due_ c He Hp) as (P1 & O1 & O2).
  cbn zeta in *. cbn [deliveries map acts fold_left fst snd].
  apply IH; [exact Hl | exact P1 |].
  destruct e; try discriminate; [rewrite O1 | rewrite O2]; auto.
Qed.

(** X22.  When the pointer leaves the model or the buttons while no hide
    timer is pending, a timer is armed for 1000 ms later;
    further leave events do not restart it and change no control.
    Before it is due the host's timer tick changes nothing; when it
    fires, the mouse not being over the buttons, [isFocusing] is turned
    off, the lock icon and the floating buttons get [display: none],
    and no timer is pending. *)
Theorem controls_hide_after_the_pointer_left threshold s t e later t' :
  hideTimers s = [] -> _hideButtonsTimer s = None ->
  _goodbyeClicked s = false -> _isMouseOverButtons s = false ->
  leaving e = true ->
  forallb (fun te => leaving (snd te)) later = true ->
  Z.max (clock s) t + 1000 <= t' ->
  let due_ := Z.max (clock s) t + 1000 in
  let s1 := acts threshold (Deliver t e :: deliveries later) s in
  let s2 := act threshold (Fire t') s1 in
  controls s1 = controls s /\
  (exists tm, hideTimers s1 = [tm] /\ hide_due tm = due_) /\
  (forall u, Z.max (clock s1) u < due_ ->
             act threshold (Fire u) s1 = tick u s1) /\
  hideTimers s2 = [] /\ _hideButtonsTimer s2 = None /\
  isFocusing (manager s2) = false /\
  displayed "none" (lockIcon (controls s2)) /\
  displayed "none" (floatingButtons (controls s2)).
Proof.
  intros Ht Hf Hg Ho He Hl Hdue due_ s1 s2.
  destruct (leaving_arms threshold t e s He Ht Hf Hg) as (P0 & O1 & O2).
  cbn zeta in *.
  assert (O0 : _isMouseOverButtons (act threshold (Deliver t e) s) = false).
  { destruct e; try discriminate; [rewrite O1 | rewrite O2]; auto. }
  destruct (leavings_keep threshold _ _ later _ Hl P0 O0) as (P1 & Ov1).
  cbn zeta in *.
  change (acts threshold (deliveries later) (act threshold (Deliver t e) s))
    with s1 in *.
  split; [apply P1|].
  split; [destruct P1 as (_ & _ & tm & T & _ & D & _); now exists tm|].
  split; [intros u Hu; now apply (fire_early threshold u s1 _ _ P1)|].
  now apply (fire_hides threshold t' s1 _ _ P1 Ov1).
Qed.

Lemma controls_hide_after_the_pointer_left_witness :
  let threshold := threshold_of None in
  let s := acts threshold [Deliver 0 model_pointerover]
             (tracking_state (this idle_state) false false) in
  let s1 := acts threshold
              (Deliver 10 model_pointerout
                 :: deliveries [(500, buttons_mouseleave); (900, model_pointerout)])
              s in
  let s2 := act threshold (Fire 1010) s1 in
  controls s1 = controls s /\
  (exists tm, hideTimers s1 = [tm] /\ hide_due tm = 1010) /\
  (forall u, Z.max (clock s1) u < 1010 -> act threshold (Fire u) s1 = tick u s1) /\
  hideTimers s2 = [] /\ _hideButtonsTimer s2 = None /\
  isFocusing (manager s2) = false /\
  displayed "none" (lockIcon (controls s2)) /\
  displayed "none" (floatingButtons (controls s2)).
Proof.
  apply (controls_hide_after_the_pointer_left (threshold_of None)
           (acts (threshold_of None) [Deliver 0 model_pointerover]
              (tracking_state (this idle_state) false false))
           10 model_pointerout
           [(500, buttons_mouseleave); (900, model_pointerout)] 1010);
    reflexivity.
Defined.
